(** * Source-map navigator: the resolution and caching engine

    A shallow embedding of [sourceMapItem.ts], [sourceMapStore.ts] and the
    [navigate] entry point, with the theorems that settle the properties
    stated about them.

    Conventions.
    - A JavaScript string is a Rocq [string]; a character stands for the code
      unit of the same number (0 to 255).
    - A JavaScript object used as a dictionary ([cache], [reverseLookupTable],
      [watchers]) is a [gmap] keyed by strings.  The keys are file paths
      handed out by the editor or by [path.resolve].
    - A function that can throw, or a promise that can be rejected, returns
      a [result]: [Ok v] or [Err message].
    - Node's [path] module, the [url] module, the file system, [JSON.parse]
      and the source-map decoder are not part of the repository.  [path] is
      an interface ([PathApi]) with a POSIX instance; the others are
      gathered in the interface [Platform]. *)

From Stdlib Require Import ZArith List String Ascii Bool Lia.
From stdpp Require Import gmap strings list fin_maps.

Open Scope string_scope.
Open Scope Z_scope.

(** ** Results of fallible code *)

Inductive result (A : Type) : Type :=
| Ok (v : A)
| Err (message : string).
Arguments Ok {A} v.
Arguments Err {A} message.

Definition bind {A B : Type} (r : result A) (k : A → result B) : result B :=
  match r with
  | Ok v => k v
  | Err m => Err m
  end.

(** [try { body } catch (err) { throw new Error(message) }] *)
Definition rethrow {A : Type} (message : string) (body : result A) : result A :=
  match body with
  | Ok v => Ok v
  | Err _ => Err message
  end.

(** A [null]/[undefined] result turned into a thrown [TypeError]. *)
Definition required {A : Type} (message : string) (o : option A) : result A :=
  match o with
  | Some v => Ok v
  | None => Err message
  end.

(** [x ← r; k] runs [k] on the value of [r] and passes an error on. *)
#[global] Instance result_bind : MBind result := fun A B k r => bind r k.
#[global] Instance result_ret : MRet result := fun A v => Ok v.

(** ** JavaScript strings *)

Module Js.

(** Truthiness of a string: every string but the empty one. *)
Definition truthy (s : string) : bool :=
  match s with
  | EmptyString => false
  | String _ _ => true
  end.

(** [a || b] on strings. *)
Definition or (a b : string) : string := if truthy a then a else b.

(** [o || b] where [o] may be [undefined]. *)
Definition orOpt (o : option string) (b : string) : string :=
  match o with
  | Some s => or s b
  | None => b
  end.

Definition chars (s : string) : list ascii := list_ascii_of_string s.
Definition ofChars (l : list ascii) : string := string_of_list_ascii l.

(** White space and line terminators of [String.prototype.trim], among the
    code units below 256: TAB, LF, VT, FF, CR, SPACE and NBSP. *)
Definition isWhiteSpace (c : ascii) : bool :=
  let n := nat_of_ascii c in
  ((9 <=? n) && (n <=? 13) || (n =? 32) || (n =? 160))%nat.

(** Line terminators, which the regular expression atom [.] refuses. *)
Definition isLineTerminator (c : ascii) : bool :=
  let n := nat_of_ascii c in
  ((n =? 10) || (n =? 13))%nat.

Fixpoint trimStart (s : string) : string :=
  match s with
  | String c s' => if isWhiteSpace c then trimStart s' else s
  | EmptyString => EmptyString
  end.

Fixpoint trimEnd (s : string) : string :=
  match s with
  | String c s' =>
      match trimEnd s' with
      | EmptyString => if isWhiteSpace c then EmptyString else String c EmptyString
      | kept => String c kept
      end
  | EmptyString => EmptyString
  end.

(** [s.trim()] *)
Definition trim (s : string) : string := trimEnd (trimStart s).

(** [s.split(c)] for a one-character separator: the pieces between the
    separators, at least one piece. *)
Fixpoint split (sep : ascii) (s : string) : list string :=
  match s with
  | EmptyString => [EmptyString]
  | String c s' =>
      if Ascii.eqb c sep then EmptyString :: split sep s'
      else match split sep s' with
           | piece :: pieces => String c piece :: pieces
           | [] => [String c EmptyString]
           end
  end.

(** [pieces.join(sep)] *)
Fixpoint join (sep : string) (pieces : list string) : string :=
  match pieces with
  | [] => EmptyString
  | [p] => p
  | p :: rest => p ++ sep ++ join sep rest
  end.

(** [s] without the prefix [p], when it starts with it. *)
Fixpoint stripPrefix (p s : string) : option string :=
  match p, s with
  | EmptyString, _ => Some s
  | String a p', String b s' => if Ascii.eqb a b then stripPrefix p' s' else None
  | String _ _, EmptyString => None
  end.

Fixpoint forallb (f : ascii → bool) (s : string) : bool :=
  match s with
  | EmptyString => true
  | String c s' => f c && forallb f s'
  end.

(** [arr.reduceRight(f, init)]: the elements are visited from the last to
    the first, the accumulator is [f]'s first argument. *)
Definition reduceRight {A B : Type} (f : B → A → B) (init : B) (arr : list A) : B :=
  fold_right (fun x acc => f acc x) init arr.

(** [arr.indexOf(x)], [-1] when absent. *)
Fixpoint indexOfFrom (i : Z) (x : string) (arr : list string) : Z :=
  match arr with
  | [] => -1
  | y :: arr' => if String.eqb y x then i else indexOfFrom (i + 1) x arr'
  end.

Definition indexOf (x : string) (arr : list string) : Z := indexOfFrom 0 x arr.

(** [arr[i]] for a number [i]: [undefined] out of range, also for [-1]. *)
Definition at_ {A : Type} (arr : list A) (i : Z) : option A :=
  if i <? 0 then None else arr !! Z.to_nat i.

(** The names that [Object.prototype] defines.  A plain object read under
    one of them answers with the inherited value where it has no entry of
    its own, and not with [undefined]. *)
Definition inherited (name : string) : bool :=
  existsb (String.eqb name)
    ["constructor"; "hasOwnProperty"; "isPrototypeOf"; "propertyIsEnumerable";
     "toLocaleString"; "toString"; "valueOf"; "__proto__";
     "__defineGetter__"; "__defineSetter__"; "__lookupGetter__"; "__lookupSetter__"].

End Js.

(** ** Node's [path] module *)

Class PathApi := {
  (** [path.resolve(...segments)] *)
  resolve : list string → string;
  (** [path.dirname(p)] *)
  dirname : string → string;
  (** [path.relative(from, to)] *)
  relative : string → string → string
}.

(** The POSIX flavour of [path], as Node implements it; [cwd] is
    [process.cwd()]. *)
Module Posix.

Definition slash : ascii := "/"%char.

Definition isAbsolute (p : string) : bool :=
  match p with
  | String c _ => Ascii.eqb c slash
  | EmptyString => false
  end.

(** One segment pushed on the stack of segments kept so far (the last kept
    segment first): empty and [.] segments vanish, [..] drops the segment
    before it, and is kept itself only where the path may climb above its
    start. *)
Definition normalizeStep (allowAboveRoot : bool) (stack : list string) (seg : string)
  : list string :=
  if String.eqb seg "" || String.eqb seg "." then stack
  else if String.eqb seg ".." then
    match stack with
    | top :: below =>
        if String.eqb top ".." then (if allowAboveRoot then seg :: stack else stack)
        else below
    | [] => if allowAboveRoot then [seg] else []
    end
  else seg :: stack.

(** [normalizeString(path, allowAboveRoot, "/")] *)
Definition normalizeString (p : string) (allowAboveRoot : bool) : string :=
  Js.join "/" (rev (fold_left (normalizeStep allowAboveRoot) (Js.split slash p) [])).

(** The loop of [resolve]: the arguments are read from the last one back,
    empty ones are skipped, and reading stops at the first absolute one. *)
Fixpoint resolveLoop (backwards : list string) (resolvedPath : string) : string * bool :=
  match backwards with
  | [] => (resolvedPath, false)
  | p :: before =>
      if String.eqb p "" then resolveLoop before resolvedPath
      else
        let resolvedPath := p ++ "/" ++ resolvedPath in
        if isAbsolute p then (resolvedPath, true) else resolveLoop before resolvedPath
  end.

Definition resolve (cwd : string) (args : list string) : string :=
  let '(resolvedPath, resolvedAbsolute) := resolveLoop (rev (cwd :: args)) "" in
  let normalized := normalizeString resolvedPath (negb resolvedAbsolute) in
  if resolvedAbsolute then "/" ++ normalized
  else if String.eqb normalized "" then "." else normalized.

(** The backward scan of [dirname] over the characters after the first one
    (given last first): trailing slashes are skipped, then the name, and the
    scan answers how many characters stand before the slash it stops at. *)
Fixpoint dirnameScan (backwards : list ascii) (matchedSlash : bool) : option nat :=
  match backwards with
  | [] => None
  | c :: before =>
      if Ascii.eqb c slash then
        (if matchedSlash then dirnameScan before true else Some (length before))
      else dirnameScan before false
  end.

Definition dirname (p : string) : string :=
  match p with
  | EmptyString => "."
  | String c0 rest =>
      let hasRoot := Ascii.eqb c0 slash in
      match dirnameScan (rev (Js.chars rest)) true with
      | None => if hasRoot then "/" else "."
      | Some k =>
          if hasRoot && (k =? 0)%nat then "//"
          else String c0 (Js.ofChars (take k (Js.chars rest)))
      end
  end.

Definition segments (p : string) : list string :=
  filter (fun seg => Js.truthy seg = true) (Js.split slash p).

Fixpoint dropCommon (from to : list string) : list string * list string :=
  match from, to with
  | f :: from', t :: to' =>
      if String.eqb f t then dropCommon from' to' else (from, to)
  | _, _ => (from, to)
  end.

(** [relative(from, to)]: both paths are resolved, the directories they
    share are dropped, and every directory left of [from] is climbed. *)
Definition relative (cwd : string) (from to : string) : string :=
  let from := resolve cwd [from] in
  let to := resolve cwd [to] in
  if String.eqb from to then ""
  else
    let '(up, down) := dropCommon (segments from) (segments to) in
    Js.join "/" (map (fun _ => "..") up ++ down).

(** A segment that [normalizeString] keeps as it is: not empty, not [.] and
    not [..]. *)
Definition plainSegment (seg : string) : bool :=
  Js.truthy seg && negb (String.eqb seg ".") && negb (String.eqb seg "..").

(** A relative path made of such segments, as [a.ts] and [src/lib/a.ts]. *)
Definition plain (p : string) : bool :=
  forallb plainSegment (Js.split slash p).

(** A segment that is kept whole: plain, and without a slash. *)
Definition kept (seg : string) : Prop :=
  plainSegment seg = true
  ∧ Js.forallb (fun c => negb (Ascii.eqb c slash)) seg = true.

End Posix.

Definition posix (cwd : string) : PathApi :=
  {| resolve := Posix.resolve cwd;
     dirname := Posix.dirname;
     relative := Posix.relative cwd |}.

(** ** The source-map payload and the decoder *)

(** [RawSourceMap] of the source-map library: the parsed JSON payload.  An
    optional field that is missing (or [null]) is [None]. *)
Module RawSourceMap.

Record t := {
  version : string;
  sources : list string;
  names : list string;
  sourceRoot : option string;
  sourcesContent : option (list (option string));
  mappings : string;
  file : option string
}.

End RawSourceMap.

(** A position as the decoder takes and gives it: a source, a line counted
    from 1 and a column counted from 0. *)
Module SmPosition.

Record t := { source : string; line : Z; column : Z }.

(** [{ ...p, source }] *)
Definition withSource (p : t) (source : string) : t :=
  {| source := source; line := line p; column := column p |}.

End SmPosition.

(** What the code takes from outside the repository, [path] apart.
    - [SourceMapConsumer_new raw] is [new SourceMapConsumer(raw)], which
      throws on a payload that is no source map.
    - The two queries answer [None] where the decoder throws or answers with
      [null] fields (no mapping): the [try] block around the query fails in
      both cases.  [consumer_generatedPositionFor] answers a line and a
      column.
    - [JSON_parse] is [JSON.parse(data) as RawSourceMap].
    - [base64_utf8 data] is [new Buffer(data, "base64").toString("utf8")].
    - [url_protocol url] is [Url.parse(url).protocol]. *)
Class Platform := {
  SourceMapConsumer : Type;
  SourceMapConsumer_new : RawSourceMap.t → result SourceMapConsumer;
  consumer_originalPositionFor : SourceMapConsumer → SmPosition.t → option SmPosition.t;
  consumer_generatedPositionFor : SourceMapConsumer → SmPosition.t → option (Z * Z);
  JSON_parse : string → result RawSourceMap.t;
  base64_utf8 : string → string;
  url_protocol : string → option string
}.

(** [readFile] of [promisedFs]: the promise resolves with the file's text and
    is rejected when the file cannot be read.  The file system is the map of
    the readable files to their text. *)
Definition readFile (fs : gmap string string) (fileName : string) : result string :=
  match fs !! fileName with
  | Some data => Ok data
  | None => Err "ENOENT"
  end.

(** ** The editor's documents

    Modelled from the editor's API ([vscode.Position], [vscode.Range],
    [TextDocument]), which is not part of the repository: a position refuses
    a negative line or character, a range orders its two ends, and a
    document clamps a range to its text before it reads it. *)

Abbreviation noLF := (fun c : ascii => negb (Ascii.eqb c "010")).

Module Vscode.

Definition LF : string := String "010" EmptyString.
Definition CRLF : string := String "013" LF.

Module Position.

Record t := { line : Z; character : Z }.

Definition new (line character : Z) : result t :=
  if line <? 0 then Err "Illegal argument: line must be non-negative"
  else if character <? 0 then Err "Illegal argument: character must be non-negative"
  else Ok {| line := line; character := character |}.

Definition isBefore (p q : t) : bool :=
  (line p <? line q) || ((line p =? line q) && (character p <? character q)).

End Position.

Module Range.

Record t := { start : Position.t; end_ : Position.t }.

(** [new Range(startLine, startCharacter, endLine, endCharacter)] *)
Definition new (startLine startCharacter endLine endCharacter : Z) : result t :=
  start ← Position.new startLine startCharacter;
  end_ ← Position.new endLine endCharacter;
  Ok (if Position.isBefore start end_
      then {| start := start; end_ := end_ |}
      else {| start := end_; end_ := start |}).

End Range.

Module TextDocument.

(** A document: its path, its lines (without their line ends) and the line
    end it joins them with. *)
Record t := {
  fileName : string;
  lines : list string;
  eol : string
}.

Definition lineCount (document : t) : Z := Z.of_nat (length (lines document)).

Definition lineAt (document : t) (line : nat) : string :=
  default "" (lines document !! line).

(** A position moved into the text: a line past the end becomes the end of
    the last line, a character past the end of its line the end of that
    line.  The answer is a line and a character of the text. *)
Definition validatePosition (document : t) (p : Position.t) : nat * nat :=
  if (length (lines document) =? 0)%nat then (0%nat, 0%nat)
  else if Position.line p <? 0 then (0%nat, 0%nat)
  else if lineCount document <=? Position.line p then
    let line := (length (lines document) - 1)%nat in
    (line, String.length (lineAt document line))
  else
    let line := Z.to_nat (Position.line p) in
    let maxCharacter := String.length (lineAt document line) in
    (line,
     if Position.character p <? 0 then 0%nat
     else Nat.min (Z.to_nat (Position.character p)) maxCharacter).

(** [s.substring(from)] and [s.substring(from, to)] for [from <= to] within
    the string. *)
Definition substringFrom (from : nat) (s : string) : string :=
  String.substring from (String.length s - from) s.

Definition substringTo (from to : nat) (s : string) : string :=
  String.substring from (to - from) s.

(** The lines [from], ..., [to - 1]. *)
Definition linesBetween (document : t) (from to : nat) : list string :=
  take (to - from) (drop from (lines document)).

(** [document.getText(range)] *)
Definition getText (document : t) (range : Range.t) : string :=
  let '(startLine, startCharacter) := validatePosition document (Range.start range) in
  let '(endLine, endCharacter) := validatePosition document (Range.end_ range) in
  if (startLine =? endLine)%nat then
    substringTo startCharacter endCharacter (lineAt document startLine)
  else
    Js.join (eol document)
      (substringFrom startCharacter (lineAt document startLine)
       :: linesBetween document (startLine + 1) endLine
       ++ [substringTo 0 endCharacter (lineAt document endLine)]).

(** What the editor guarantees of a document: its lines hold no line feed,
    and they are joined by a line feed, alone or after a carriage return. *)
Definition wellFormed (document : t) : Prop :=
  Forall (fun line => Js.forallb noLF line = true) (lines document)
  ∧ (eol document = LF ∨ eol document = CRLF).

End TextDocument.

(** [vscode.window.activeTextEditor]: the active document and the cursor
    in it. *)
Module TextEditor.

Record t := {
  document : TextDocument.t;
  active : Position.t
}.

End TextEditor.
End Vscode.

(** ** FilePosition *)

Module FilePosition.

Record t := {
  file : string;
  line : Z;
  column : Z;
  contents : option string
}.

(** [result.contents = text] *)
Definition withContents (p : t) (text : string) : t :=
  {| file := file p; line := line p; column := column p; contents := Some text |}.

(** Modelled from the spec: [filePosition.ts] is not among the sources.  The
    projection to the decoder's query shape: the file, the line counted from
    1 and the column counted from 0. *)
Definition toSmPosition (p : t) : SmPosition.t :=
  {| SmPosition.source := file p;
     SmPosition.line := line p + 1;
     SmPosition.column := column p |}.

(** Modelled from the spec: [filePosition.ts] is not among the sources.  A
    position built from the decoder's output, with the line counted from 0
    again; it carries no contents. *)
Definition fromSmPosition (p : SmPosition.t) : t :=
  {| file := SmPosition.source p;
     line := SmPosition.line p - 1;
     column := SmPosition.column p;
     contents := None |}.

(** Modelled from the spec: [filePosition.ts] is not among the sources.  The
    cursor of the active editor, in the active document; it carries no
    contents. *)
Definition getActivePosition (editor : Vscode.TextEditor.t) : t :=
  {| file := Vscode.TextDocument.fileName (Vscode.TextEditor.document editor);
     line := Vscode.Position.line (Vscode.TextEditor.active editor);
     column := Vscode.Position.character (Vscode.TextEditor.active editor);
     contents := None |}.

End FilePosition.

(** ** SourceMapItem *)

Module SourceMapItem.
Section Item.
Context {path : PathApi} {platform : Platform}.

Record t := {
  rawSourceMap : RawSourceMap.t;
  sourceMapFile : string;
  sourceMap : SourceMapConsumer;
  sourceFiles : list string;
  generatedFile : string
}.

(** The constructor. *)
Definition new (rawSourceMap : RawSourceMap.t) (sourceMapFile : string) : result t :=
  sourceMap ← SourceMapConsumer_new rawSourceMap;
  Ok {| rawSourceMap := rawSourceMap;
        sourceMapFile := sourceMapFile;
        sourceMap := sourceMap;
        sourceFiles :=
          map (fun source =>
                 resolve [dirname sourceMapFile;
                          Js.orOpt (RawSourceMap.sourceRoot rawSourceMap) "";
                          source])
              (RawSourceMap.sources rawSourceMap);
        generatedFile :=
          match RawSourceMap.file rawSourceMap with
          | Some file =>
              if Js.truthy file then resolve [dirname sourceMapFile; file]
              else sourceMapFile
          | None => sourceMapFile
          end |}.

Definition fromString (data : string) (mapFile : string) : result t :=
  rethrow "Failed to create source map object from supplied JSON"
    (rawSourceMap ← JSON_parse data;
     new rawSourceMap mapFile).

(** [url.replace(/\r?\n/g, '')] *)
Fixpoint removeNewlines (s : string) : string :=
  match s with
  | EmptyString => EmptyString
  | String c s' =>
      if Ascii.eqb c "010" then removeNewlines s'
      else if Ascii.eqb c "013" then
        match s' with
        | String c' s'' =>
            if Ascii.eqb c' "010" then removeNewlines s''
            else String c (removeNewlines s')
        | EmptyString => String c EmptyString
        end
      else String c (removeNewlines s')
  end.

Definition fromDataUrl (sourceMapUrl : string) (sourceMapFile : string) : result t :=
  rethrow "Can't read source map from data URI"
    (data ← required "TypeError"
       (Js.split "," (removeNewlines sourceMapUrl) !! 1%nat);
     fromString (base64_utf8 data) sourceMapFile).

Definition fromFile (fs : gmap string string) (sourceMapFile : string) : result t :=
  rethrow "Can't read source map from map file"
    (fileContents ← readFile fs sourceMapFile;
     fromString fileContents sourceMapFile).

(** [fileName] is [vscode.window.activeTextEditor.document.fileName]. *)
Definition isCurrentDocumentGenerated (item : t) (fileName : string) : bool :=
  String.eqb (generatedFile item) fileName.

Definition generatedPositionFor (item : t) (position : FilePosition.t)
  : result FilePosition.t :=
  rethrow "Failed to get generated position for original file"
    (let file := FilePosition.file position in
     let absSourceRoot :=
       resolve [dirname (sourceMapFile item);
                Js.orOpt (RawSourceMap.sourceRoot (rawSourceMap item)) ""] in
     let source := relative absSourceRoot file in
     '(line, column) ← required "TypeError"
        (consumer_generatedPositionFor (sourceMap item)
           (SmPosition.withSource (FilePosition.toSmPosition position) source));
     Ok (FilePosition.fromSmPosition
           {| SmPosition.source := generatedFile item;
              SmPosition.line := line;
              SmPosition.column := column |})).

(** [sourcesContent && sourcesContent[index]]: the text to attach, when the
    list is there and holds a truthy (non-empty) text at the index. *)
Definition embeddedContents (rawSourceMap : RawSourceMap.t) (mapSourceIndex : Z)
  : option string :=
  match RawSourceMap.sourcesContent rawSourceMap with
  | Some sourcesContent =>
      match Js.at_ sourcesContent mapSourceIndex with
      | Some (Some text) => if Js.truthy text then Some text else None
      | _ => None
      end
  | None => None
  end.

Definition originalPositionFor (item : t) (position : FilePosition.t)
  : result FilePosition.t :=
  rethrow "Failed to get original position for generated file"
    (smPosition ← required "TypeError"
       (consumer_originalPositionFor (sourceMap item)
          (FilePosition.toSmPosition position));
     let source := resolve [dirname (sourceMapFile item); SmPosition.source smPosition] in
     let result := FilePosition.fromSmPosition (SmPosition.withSource smPosition source) in
     let mapSourceIndex :=
       Js.indexOf (SmPosition.source smPosition)
                  (RawSourceMap.sources (rawSourceMap item)) in
     match embeddedContents (rawSourceMap item) mapSourceIndex with
     | Some text => Ok (FilePosition.withContents result text)
     | None => Ok result
     end).

End Item.
End SourceMapItem.

(** ** SourceMapFetcher *)

Module SourceMapFetchResult.

Record t := { mapUrl : string; fileUrl : string }.

End SourceMapFetchResult.

Definition isDataUri {platform : Platform} (url : string) : bool :=
  match url_protocol url with
  | Some protocol => String.eqb protocol "data:"
  | None => false
  end.

Module SourceMapFetcher.
Section Fetcher.
Context {path : PathApi} {platform : Platform}.

(** [SOURCE_MAPPING_MATCHER.exec(s)] for the expression
    [^//[#@] ?sourceMappingURL=(.+)$]: the match and its one group, or
    [None] ([null]).  After the two slashes one of [#] and [@] is required,
    one space may follow, and the group is the rest of the string: at least
    one character, none of them a line terminator. *)
Definition SOURCE_MAPPING_MATCHER (s : string) : option (list string) :=
  afterSlashes ← Js.stripPrefix "//" s;
  match afterSlashes with
  | String c afterMark =>
      if Ascii.eqb c "#" || Ascii.eqb c "@" then
        let afterSpace :=
          match afterMark with
          | String " " rest => rest
          | _ => afterMark
          end in
        value ← Js.stripPrefix "sourceMappingURL=" afterSpace;
        if Js.truthy value && Js.forallb (fun c => negb (Js.isLineTerminator c)) value
        then Some [s; value]
        else None
      else None
  | EmptyString => None
  end.

Definition tryExtractUrl (line : string) : string :=
  match SOURCE_MAPPING_MATCHER (Js.trim line) with
  | Some [_; group] => Js.trim group
  | _ => ""
  end.

Definition fetch (document : Vscode.TextDocument.t) : result SourceMapFetchResult.t :=
  let lineCount := Vscode.TextDocument.lineCount document in
  lastTenLines ← Vscode.Range.new (lineCount - 10) 0 (lineCount + 1) 0;
  let fetchedMapUrl :=
    Js.reduceRight (fun result line => Js.or result (tryExtractUrl line)) ""
      (Js.split "010" (Vscode.TextDocument.getText document lastTenLines)) in
  if negb (Js.truthy fetchedMapUrl) then
    Err ("Can't fetch url from current document at "
         ++ Vscode.TextDocument.fileName document)
  else
    let fileUrl := Vscode.TextDocument.fileName document in
    let mapUrl :=
      if isDataUri fetchedMapUrl then fetchedMapUrl
      else resolve [dirname fileUrl; fetchedMapUrl] in
    Ok {| SourceMapFetchResult.mapUrl := mapUrl;
          SourceMapFetchResult.fileUrl := fileUrl |}.

End Fetcher.
End SourceMapFetcher.

(** ** File-system watchers

    Modelled from the editor's API: [createFileSystemWatcher] hands out a
    new watcher object, listeners are attached to it, and [dispose] switches
    it off.  The watcher objects live in a heap (a list, a reference is an
    index into it), so that a watcher the store no longer refers to is
    still there. *)

Module FileSystemWatcher.

(** The two closures [addItem] registers: [() => this.removeItem(path)]. *)
Inductive listener : Type :=
| RemoveItem (generatedPath : string).

Record t := {
  globPattern : string;
  ignoreCreateEvents : bool;
  onDidChange : list listener;
  onDidDelete : list listener;
  disposed : bool
}.

Definition create (globPattern : string) (ignoreCreateEvents : bool) : t :=
  {| globPattern := globPattern;
     ignoreCreateEvents := ignoreCreateEvents;
     onDidChange := [];
     onDidDelete := [];
     disposed := false |}.

Definition addOnDidChange (l : listener) (w : t) : t :=
  {| globPattern := globPattern w;
     ignoreCreateEvents := ignoreCreateEvents w;
     onDidChange := onDidChange w ++ [l];
     onDidDelete := onDidDelete w;
     disposed := disposed w |}.

Definition addOnDidDelete (l : listener) (w : t) : t :=
  {| globPattern := globPattern w;
     ignoreCreateEvents := ignoreCreateEvents w;
     onDidChange := onDidChange w;
     onDidDelete := onDidDelete w ++ [l];
     disposed := disposed w |}.

Definition dispose (w : t) : t :=
  {| globPattern := globPattern w;
     ignoreCreateEvents := ignoreCreateEvents w;
     onDidChange := onDidChange w;
     onDidDelete := onDidDelete w;
     disposed := true |}.

End FileSystemWatcher.

(** ** SourceMapStore *)

Module SourceMapStore.
Section Store.
Context {path : PathApi} {platform : Platform}.

(** The three tables of the store, and the heap of the watcher objects the
    editor has created for it; [watchers] holds references into the heap. *)
Record t := {
  cache : gmap string SourceMapItem.t;
  reverseLookupTable : gmap string string;
  watchers : gmap string nat;
  heap : list FileSystemWatcher.t
}.

(** [new SourceMapStore()] *)
Definition new : t :=
  {| cache := ∅; reverseLookupTable := ∅; watchers := ∅; heap := [] |}.

(** [addItem] and [removeItem] run under [@safeMethod] ([decorators.ts] is
    not among the sources; the spec has it catch what the method throws).
    Nothing in the two bodies throws, so the decorator is not modelled. *)
Definition addItem (item : SourceMapItem.t) (store : t) : t :=
  let generatedFile := SourceMapItem.generatedFile item in
  let watcher := length (heap store) in
  let listener := FileSystemWatcher.RemoveItem generatedFile in
  {| cache := <[generatedFile := item]> (cache store);
     watchers := <[generatedFile := watcher]> (watchers store);
     heap :=
       heap store
       ++ [FileSystemWatcher.addOnDidDelete listener
             (FileSystemWatcher.addOnDidChange listener
                (FileSystemWatcher.create generatedFile true))];
     reverseLookupTable :=
       foldl (fun table sourceFile => <[sourceFile := generatedFile]> table)
             (reverseLookupTable store) (SourceMapItem.sourceFiles item) |}.

Definition removeItem (generatedPath : string) (store : t) : t :=
  let store :=
    match watchers store !! generatedPath with
    | Some watcher =>
        {| cache := cache store;
           reverseLookupTable := reverseLookupTable store;
           watchers := delete generatedPath (watchers store);
           heap := alter FileSystemWatcher.dispose watcher (heap store) |}
    | None => store
    end in
  match cache store !! generatedPath with
  | Some item =>
      {| cache := delete generatedPath (cache store);
         reverseLookupTable :=
           foldl (fun table sourceFile => delete sourceFile table)
                 (reverseLookupTable store) (SourceMapItem.sourceFiles item);
         watchers := watchers store;
         heap := heap store |}
  | None => store
  end.

Definition reverseLookup (sourceFileName : string) (store : t) : option SourceMapItem.t :=
  match reverseLookupTable store !! sourceFileName with
  | Some generatedPath =>
      if Js.truthy generatedPath then cache store !! generatedPath else None
  | None => None
  end.

(** [Object.keys(this.cache)]: the keys, each once. *)
Definition keys (store : t) : list string := (map_to_list (cache store)).*1.

(** [keys.forEach(key => this.removeItem(key))] *)
Definition removeAll (keys : list string) (store : t) : t :=
  foldl (fun store key => removeItem key store) store keys.

Definition dispose (store : t) : t := removeAll (keys store) store.

(** The private [fetch]: the fetcher finds the map, the item is read from
    the data URI or from the map file. *)
Definition fetch (fs : gmap string string) (currentDocument : Vscode.TextDocument.t)
  : result SourceMapItem.t :=
  rethrow "Can't retrieve source maps for current document"
    (fetched ← SourceMapFetcher.fetch currentDocument;
     let mapUrl := SourceMapFetchResult.mapUrl fetched in
     let fileUrl := SourceMapFetchResult.fileUrl fetched in
     if isDataUri mapUrl then SourceMapItem.fromDataUrl mapUrl fileUrl
     else SourceMapItem.fromFile fs mapUrl).

(** [this.cache[fileName] || this.reverseLookup(fileName)].  The tables are
    plain objects, read here as finite maps: that is what the code reads for
    every file name but those of [Js.inherited], under which an object
    without an entry of its own answers with a value of [Object.prototype]. *)
Definition lookup (fileName : string) (store : t) : option SourceMapItem.t :=
  match cache store !! fileName with
  | Some item => Some item
  | None => reverseLookup fileName store
  end.

(** [getForCurrentDocument] with the active document and the file system of
    the moment: the promise's outcome and the store afterwards. *)
Definition getForCurrentDocument
    (fs : gmap string string) (currentDocument : Vscode.TextDocument.t) (store : t)
  : result SourceMapItem.t * t :=
  match lookup (Vscode.TextDocument.fileName currentDocument) store with
  | Some result => (Ok result, store)
  | None =>
      match fetch fs currentDocument with
      | Ok item => (Ok item, addItem item store)
      | Err message => (Err message, store)
      end
  end.

(** A change or delete event delivered to a watcher object: a disposed
    watcher is silent, a live one runs its listeners. *)
Definition runListener (l : FileSystemWatcher.listener) (store : t) : t :=
  match l with
  | FileSystemWatcher.RemoveItem generatedPath => removeItem generatedPath store
  end.

Definition fireDidChange (watcher : nat) (store : t) : t :=
  match heap store !! watcher with
  | Some w =>
      if FileSystemWatcher.disposed w then store
      else foldl (fun store l => runListener l store) store
                 (FileSystemWatcher.onDidChange w)
  | None => store
  end.

Definition fireDidDelete (watcher : nat) (store : t) : t :=
  match heap store !! watcher with
  | Some w =>
      if FileSystemWatcher.disposed w then store
      else foldl (fun store l => runListener l store) store
                 (FileSystemWatcher.onDidDelete w)
  | None => store
  end.

End Store.
End SourceMapStore.

(** ** Navigation *)

Module Extension.
Section Navigate.
Context {path : PathApi} {platform : Platform}.

(** What the editor shows at the end of a navigation: a file of the disk, or
    an untitled buffer filled with the embedded text, with the cursor at the
    destination. *)
Inductive shown : Type :=
| ShownFile (destination : FilePosition.t)
| ShownUntitled (destination : FilePosition.t) (text : string).

(** [openTextDocument(destination.file)] fails for a file that is not on the
    disk; the embedded contents then fill an untitled buffer. *)
Definition navigateToDestination (fs : gmap string string) (destination : FilePosition.t)
  : result shown :=
  match fs !! FilePosition.file destination with
  | Some _ => Ok (ShownFile destination)
  | None =>
      match FilePosition.contents destination with
      | Some text =>
          if Js.truthy text then Ok (ShownUntitled destination text)
          else Err "Original source doesn't exist and source map doesn't provide inline source"
      | None =>
          Err "Original source doesn't exist and source map doesn't provide inline source"
      end
  end.

(** The position [navigate] hands to [navigateToDestination]. *)
Definition destinationPosition (sm : SourceMapItem.t) (editor : Vscode.TextEditor.t)
  : result FilePosition.t :=
  let activePosition := FilePosition.getActivePosition editor in
  if SourceMapItem.isCurrentDocumentGenerated sm
       (Vscode.TextDocument.fileName (Vscode.TextEditor.document editor))
  then SourceMapItem.originalPositionFor sm activePosition
  else SourceMapItem.generatedPositionFor sm activePosition.

Inductive outcome : Type :=
| Navigated (view : shown)
| Warning (message : string).

(** [navigate]: what the user sees, and the store afterwards. *)
Definition navigate (fs : gmap string string) (editor : Vscode.TextEditor.t)
    (sourceMapStore : SourceMapStore.t) : outcome * SourceMapStore.t :=
  let '(fetched, sourceMapStore) :=
    SourceMapStore.getForCurrentDocument fs (Vscode.TextEditor.document editor)
      sourceMapStore in
  match (sm ← fetched;
         destination ← destinationPosition sm editor;
         navigateToDestination fs destination) with
  | Ok view => (Navigated view, sourceMapStore)
  | Err message =>
      (Warning ("Can't get source map for current document: " ++ message),
       sourceMapStore)
  end.

End Navigate.
End Extension.

(** ** A platform to run the code on

    [Url.protocol] follows Node's [url.parse]: the protocol is the leading
    run of letters, digits, [.], [+] and [-] up to a colon, in lower case.
    [testPlatform] is a decoder given by its two query functions and a JSON
    reader given by the payloads it knows. *)

Module Url.

Definition isSchemeChar (c : ascii) : bool :=
  let n := nat_of_ascii c in
  ((97 <=? n) && (n <=? 122) || (65 <=? n) && (n <=? 90)
   || (48 <=? n) && (n <=? 57) || (n =? 46) || (n =? 43) || (n =? 45))%nat.

Definition toLower (c : ascii) : ascii :=
  let n := nat_of_ascii c in
  if ((65 <=? n) && (n <=? 90))%nat then ascii_of_nat (n + 32) else c.

Fixpoint scheme (s : string) : option string :=
  match s with
  | String c s' =>
      if Ascii.eqb c ":" then Some ":"
      else if isSchemeChar c then
        match scheme s' with
        | Some rest => Some (String (toLower c) rest)
        | None => None
        end
      else None
  | EmptyString => None
  end.

Definition protocol (url : string) : option string :=
  match scheme (Js.trim url) with
  | Some ":" => None
  | other => other
  end.

End Url.

Definition testPlatform
    (original : SmPosition.t → option SmPosition.t)
    (generated : SmPosition.t → option (Z * Z))
    (payloads : list (string * RawSourceMap.t)) : Platform :=
  {| SourceMapConsumer := unit;
     SourceMapConsumer_new := fun _ => Ok tt;
     consumer_originalPositionFor := fun _ => original;
     consumer_generatedPositionFor := fun _ => generated;
     JSON_parse := fun data =>
       match list_find (fun entry => String.eqb entry.1 data = true) payloads with
       | Some (_, (_, rawSourceMap)) => Ok rawSourceMap
       | None => Err "SyntaxError"
       end;
     base64_utf8 := fun data => data;
     url_protocol := Url.protocol |}.

(** ** Histories of the store *)

Module History.
Section History.
Context {path : PathApi} {platform : Platform}.

(** The two mutations of the store. *)
Inductive op : Type :=
| AddItem (item : SourceMapItem.t)
| RemoveItem (generatedPath : string).

Definition apply (o : op) (store : SourceMapStore.t) : SourceMapStore.t :=
  match o with
  | AddItem item => SourceMapStore.addItem item store
  | RemoveItem generatedPath => SourceMapStore.removeItem generatedPath store
  end.

(** The store after the operations [ops], the first of the list first. *)
Definition run (ops : list op) (store : SourceMapStore.t) : SourceMapStore.t :=
  foldl (fun store o => apply o store) store ops.

(** The states a new store reaches by [addItem] and [removeItem]. *)
Inductive reachable : SourceMapStore.t → Prop :=
| reachable_new : reachable SourceMapStore.new
| reachable_step o store : reachable store → reachable (apply o store).

(** [item] shares no source file with an item cached under another key. *)
Definition unshared (item : SourceMapItem.t) (store : SourceMapStore.t) : Prop :=
  ∀ key other sourceFile,
    SourceMapStore.cache store !! key = Some other →
    key ≠ SourceMapItem.generatedFile item →
    sourceFile ∈ SourceMapItem.sourceFiles item →
    sourceFile ∉ SourceMapItem.sourceFiles other.

(** The states reached when no added item shares a source file with an item
    cached under another key. *)
Inductive reachableUnshared : SourceMapStore.t → Prop :=
| unshared_new : reachableUnshared SourceMapStore.new
| unshared_add item store :
    reachableUnshared store → unshared item store →
    reachableUnshared (SourceMapStore.addItem item store)
| unshared_remove generatedPath store :
    reachableUnshared store →
    reachableUnshared (SourceMapStore.removeItem generatedPath store).

(** The watcher object behind a key of [watchers] is live, watches that key
    and removes that key's entry when it fires. *)
Definition activeWatcher (store : SourceMapStore.t) (key : string) : Prop :=
  ∃ watcher w,
    SourceMapStore.watchers store !! key = Some watcher
    ∧ SourceMapStore.heap store !! watcher = Some w
    ∧ FileSystemWatcher.disposed w = false
    ∧ FileSystemWatcher.globPattern w = key
    ∧ FileSystemWatcher.onDidChange w = [FileSystemWatcher.RemoveItem key]
    ∧ FileSystemWatcher.onDidDelete w = [FileSystemWatcher.RemoveItem key].

(** What every reachable store satisfies: an item is cached under its own
    generated file, [cache] and [watchers] have the same keys, and every
    reference in [watchers] is to a live watcher of its key. *)
Record coherent (store : SourceMapStore.t) : Prop := {
  coherent_key : ∀ key item,
    SourceMapStore.cache store !! key = Some item →
    SourceMapItem.generatedFile item = key;
  coherent_dom : ∀ key,
    is_Some (SourceMapStore.cache store !! key)
    ↔ is_Some (SourceMapStore.watchers store !! key);
  coherent_watcher : ∀ key,
    is_Some (SourceMapStore.watchers store !! key) → activeWatcher store key
}.

(** Every source file of a cached item points back to the item's key. *)
Definition reverseIndexed (store : SourceMapStore.t) : Prop :=
  ∀ key item sourceFile,
    SourceMapStore.cache store !! key = Some item →
    sourceFile ∈ SourceMapItem.sourceFiles item →
    SourceMapStore.reverseLookupTable store !! sourceFile
    = Some (SourceMapItem.generatedFile item).

(** The states reached when no item is added under a key that the cache
    already holds. *)
Inductive reachableFresh : SourceMapStore.t → Prop :=
| fresh_new : reachableFresh SourceMapStore.new
| fresh_add item store :
    reachableFresh store →
    SourceMapStore.cache store !! SourceMapItem.generatedFile item = None →
    reachableFresh (SourceMapStore.addItem item store)
| fresh_remove generatedPath store :
    reachableFresh store →
    reachableFresh (SourceMapStore.removeItem generatedPath store).

(** Every reverse entry belongs to a source file of a cached item. *)
Definition reverseCovered (store : SourceMapStore.t) : Prop :=
  ∀ sourceFile generatedPath,
    SourceMapStore.reverseLookupTable store !! sourceFile = Some generatedPath →
    ∃ key item,
      SourceMapStore.cache store !! key = Some item
      ∧ sourceFile ∈ SourceMapItem.sourceFiles item.

(** Every watcher object is disposed or referred to by [watchers]. *)
Definition accounted (store : SourceMapStore.t) : Prop :=
  ∀ watcher w,
    SourceMapStore.heap store !! watcher = Some w →
    FileSystemWatcher.disposed w = true
    ∨ ∃ key, SourceMapStore.watchers store !! key = Some watcher.

(** Every reverse entry points to a cached item that lists its source
    file. *)
Definition reverseSound (store : SourceMapStore.t) : Prop :=
  ∀ sourceFile generatedPath,
    SourceMapStore.reverseLookupTable store !! sourceFile = Some generatedPath →
    ∃ item,
      SourceMapStore.cache store !! generatedPath = Some item
      ∧ sourceFile ∈ SourceMapItem.sourceFiles item.

(** A watcher object that is live and that no key of [watchers] refers
    to. *)
Definition orphaned (store : SourceMapStore.t) (watcher : nat) : Prop :=
  (∃ w, SourceMapStore.heap store !! watcher = Some w
        ∧ FileSystemWatcher.disposed w = false)
  ∧ ∀ key, SourceMapStore.watchers store !! key ≠ Some watcher.

(** Every watcher object carries the two listeners [addItem] gave it: the
    removal of the entry of the file it watches. *)
Definition listening (store : SourceMapStore.t) : Prop :=
  ∀ watcher w,
    SourceMapStore.heap store !! watcher = Some w →
    FileSystemWatcher.onDidChange w
    = [FileSystemWatcher.RemoveItem (FileSystemWatcher.globPattern w)]
    ∧ FileSystemWatcher.onDidDelete w
      = [FileSystemWatcher.RemoveItem (FileSystemWatcher.globPattern w)].


End History.
End History.

(** ** What the properties speak of *)

Module Spec.

(** [index] is the first place of [source] in [sources]. *)
Definition firstIndex (source : string) (sources : list string) (index : nat) : Prop :=
  sources !! index = Some source
  ∧ ∀ earlier, (earlier < index)%nat → sources !! earlier ≠ Some source.

(** The payload carries the text [text] for [source]: [sourcesContent] is
    there and holds [text] at the first index of [source] in [sources]. *)
Definition carriesContents (rawSourceMap : RawSourceMap.t) (source text : string) : Prop :=
  ∃ sourcesContent index,
    RawSourceMap.sourcesContent rawSourceMap = Some sourcesContent
    ∧ firstIndex source (RawSourceMap.sources rawSourceMap) index
    ∧ sourcesContent !! index = Some (Some text).

(** The lines [fetch] is meant to read: the last ten, or all of them when
    they are fewer. *)
Definition lastTenLines (document : Vscode.TextDocument.t) : list string :=
  drop (length (Vscode.TextDocument.lines document) - 10)
       (Vscode.TextDocument.lines document).

(** The directive with an optional mark: two slashes, then [#], [@] or
    neither of them, then one space or none, then [sourceMappingURL=] and a
    value. *)
Definition directive (line : string) : option string :=
  afterSlashes ← Js.stripPrefix "//" line;
  let afterMark :=
    match afterSlashes with
    | String c rest =>
        if Ascii.eqb c "#" || Ascii.eqb c "@" then rest else afterSlashes
    | EmptyString => afterSlashes
    end in
  let afterSpace :=
    match afterMark with
    | String " " rest => rest
    | _ => afterMark
    end in
  value ← Js.stripPrefix "sourceMappingURL=" afterSpace;
  if Js.truthy value then Some value else None.

(** Joined by CRLF, every line but the last comes back with the carriage
    return at its end. *)
Fixpoint withCR (ls : list string) : list string :=
  match ls with
  | [] => []
  | [l] => [l]
  | l :: rest => (l ++ String "013" "") :: withCR rest
  end.

(** The fold of [fetch] over the lines it is given. *)
Definition scan (ls : list string) : string :=
  Js.reduceRight (fun result line => Js.or result (SourceMapFetcher.tryExtractUrl line)) "" ls.

(** No character of the string is a line terminator. *)
Definition singleLine (s : string) : bool :=
  Js.forallb (fun c => negb (Js.isLineTerminator c)) s.

(** [s] is a directive with the value [value]: two slashes, [#] or [@], one
    space or none, [sourceMappingURL=], and the value, which is not empty
    and holds no line terminator. *)
Definition directiveOf (s value : string) : Prop :=
  ∃ mark space,
    (mark = "#" ∨ mark = "@") ∧ (space = "" ∨ space = " ")
    ∧ s = "//" ++ mark ++ space ++ "sourceMappingURL=" ++ value
    ∧ value ≠ ""
    ∧ singleLine value = true.

End Spec.

(** ** Data for the examples *)

Module Example.

Definition path : PathApi := posix "/".

Definition payload (sources : list string) (file : option string) : RawSourceMap.t :=
  {| RawSourceMap.version := "3";
     RawSourceMap.sources := sources;
     RawSourceMap.names := [];
     RawSourceMap.sourceRoot := None;
     RawSourceMap.sourcesContent := None;
     RawSourceMap.mappings := "";
     RawSourceMap.file := file |}.

(** Two texts of the map file [/proj/dist/app.min.js.map], before and after
    a rebuild.  Both name [app.js] as the generated file. *)
Definition firstBuild : string := "app.min.js.map, built from a.ts".
Definition secondBuild : string := "app.min.js.map, built from b.ts".

(** A decoder that knows no mapping, and a JSON reader that knows the two
    texts. *)
Definition platform : Platform :=
  testPlatform (fun _ => None) (fun _ => None)
    [(firstBuild, payload ["../src/a.ts"] (Some "app.js"));
     (secondBuild, payload ["../src/b.ts"] (Some "app.js"))].

(** [/proj/dist/app.js], generated from [/proj/src/a.ts]. *)
Definition app : @SourceMapItem.t platform :=
  {| SourceMapItem.rawSourceMap := payload ["../src/a.ts"] (Some "app.js");
     SourceMapItem.sourceMapFile := "/proj/dist/app.js.map";
     SourceMapItem.sourceMap := (tt : @SourceMapConsumer platform);
     SourceMapItem.sourceFiles := ["/proj/src/a.ts"];
     SourceMapItem.generatedFile := "/proj/dist/app.js" |}.

(** The same generated file after a rebuild from [/proj/src/b.ts]. *)
Definition appRebuilt : @SourceMapItem.t platform :=
  {| SourceMapItem.rawSourceMap := payload ["../src/b.ts"] (Some "app.js");
     SourceMapItem.sourceMapFile := "/proj/dist/app.js.map";
     SourceMapItem.sourceMap := (tt : @SourceMapConsumer platform);
     SourceMapItem.sourceFiles := ["/proj/src/b.ts"];
     SourceMapItem.generatedFile := "/proj/dist/app.js" |}.

(** A second bundle that lists [/proj/src/a.ts] too. *)
Definition vendor : @SourceMapItem.t platform :=
  {| SourceMapItem.rawSourceMap := payload ["../src/a.ts"] (Some "vendor.js");
     SourceMapItem.sourceMapFile := "/proj/dist/vendor.js.map";
     SourceMapItem.sourceMap := (tt : @SourceMapConsumer platform);
     SourceMapItem.sourceFiles := ["/proj/src/a.ts"];
     SourceMapItem.generatedFile := "/proj/dist/vendor.js" |}.

(** [/proj/dist/app.min.js], generated from [/proj/dist/app.js]. *)
Definition minified : @SourceMapItem.t platform :=
  {| SourceMapItem.rawSourceMap := payload ["app.js"] (Some "app.min.js");
     SourceMapItem.sourceMapFile := "/proj/dist/app.min.js.map";
     SourceMapItem.sourceMap := (tt : @SourceMapConsumer platform);
     SourceMapItem.sourceFiles := ["/proj/dist/app.js"];
     SourceMapItem.generatedFile := "/proj/dist/app.min.js" |}.


(** The payload of the spec's example: [sourceRoot] is [../src], the one
    source is [a.ts], and there is no [file]. *)
Definition rooted : RawSourceMap.t :=
  {| RawSourceMap.version := "3";
     RawSourceMap.sources := ["a.ts"];
     RawSourceMap.names := [];
     RawSourceMap.sourceRoot := Some "../src";
     RawSourceMap.sourcesContent := None;
     RawSourceMap.mappings := "";
     RawSourceMap.file := None |}.

(** A decoder that maps every position to line 1, column 0 of [a.ts]. *)
Definition decoding : Platform :=
  testPlatform
    (fun _ => Some {| SmPosition.source := "a.ts";
                      SmPosition.line := 1;
                      SmPosition.column := 0 |})
    (fun _ => Some (1, 0)) [].

Definition inlined (text : string) : @SourceMapItem.t decoding :=
  {| SourceMapItem.rawSourceMap :=
       {| RawSourceMap.version := "3";
          RawSourceMap.sources := ["a.ts"];
          RawSourceMap.names := [];
          RawSourceMap.sourceRoot := None;
          RawSourceMap.sourcesContent := Some [Some text];
          RawSourceMap.mappings := "AAAA";
          RawSourceMap.file := Some "app.js" |};
     SourceMapItem.sourceMapFile := "/proj/dist/app.js.map";
     SourceMapItem.sourceMap := (tt : @SourceMapConsumer decoding);
     SourceMapItem.sourceFiles := ["/proj/dist/a.ts"];
     SourceMapItem.generatedFile := "/proj/dist/app.js" |}.

(** An editor on the given file, the cursor at the start of the text. *)
Definition editorOn (fileName : string) : Vscode.TextEditor.t :=
  {| Vscode.TextEditor.document :=
       {| Vscode.TextDocument.fileName := fileName;
          Vscode.TextDocument.lines := ["var a = 1;"];
          Vscode.TextDocument.eol := Vscode.LF |};
     Vscode.TextEditor.active :=
       {| Vscode.Position.line := 0; Vscode.Position.character := 0 |} |}.

Definition cursor (file : string) : FilePosition.t :=
  {| FilePosition.file := file;
     FilePosition.line := 0;
     FilePosition.column := 0;
     FilePosition.contents := None |}.

(** The generated file [/proj/dist/app.js] with the given lines. *)
Definition bundle (lines : list string) : Vscode.TextDocument.t :=
  {| Vscode.TextDocument.fileName := "/proj/dist/app.js";
     Vscode.TextDocument.lines := lines;
     Vscode.TextDocument.eol := Vscode.LF |}.

(** Two hundred lines: a decoy on the fifth, the directive on the last. *)
Definition decoyed : Vscode.TextDocument.t :=
  bundle (replicate 4 "var x;" ++ ["//# sourceMappingURL=decoy.js.map"]
          ++ replicate 194 "var y;" ++ ["//# sourceMappingURL=app.js.map"]).

(** Ten lines, the last a directive without [#] or [@]. *)
Definition unmarked : Vscode.TextDocument.t :=
  bundle (replicate 9 "var x;" ++ ["//sourceMappingURL=app.js.map"]).

(** One line, the directive. *)
Definition short : Vscode.TextDocument.t :=
  bundle ["//# sourceMappingURL=app.js.map"].

(** The generated file [/proj/dist/app.min.js]: ten lines, the last names
    its map file. *)
Definition renamed : Vscode.TextDocument.t :=
  {| Vscode.TextDocument.fileName := "/proj/dist/app.min.js";
     Vscode.TextDocument.lines :=
       replicate 9 "var x;" ++ ["//# sourceMappingURL=app.min.js.map"];
     Vscode.TextDocument.eol := Vscode.LF |}.

(** The items read from the map file in its first and in its second text. *)
Definition firstRead : @SourceMapItem.t platform :=
  {| SourceMapItem.rawSourceMap := payload ["../src/a.ts"] (Some "app.js");
     SourceMapItem.sourceMapFile := "/proj/dist/app.min.js.map";
     SourceMapItem.sourceMap := (tt : @SourceMapConsumer platform);
     SourceMapItem.sourceFiles := ["/proj/src/a.ts"];
     SourceMapItem.generatedFile := "/proj/dist/app.js" |}.

Definition secondRead : @SourceMapItem.t platform :=
  {| SourceMapItem.rawSourceMap := payload ["../src/b.ts"] (Some "app.js");
     SourceMapItem.sourceMapFile := "/proj/dist/app.min.js.map";
     SourceMapItem.sourceMap := (tt : @SourceMapConsumer platform);
     SourceMapItem.sourceFiles := ["/proj/src/b.ts"];
     SourceMapItem.generatedFile := "/proj/dist/app.js" |}.

(** The disk with the map file in its first and in its second text. *)
Definition disk (mapText : string) : gmap string string :=
  {[ "/proj/dist/app.min.js.map" := mapText ]}.

(** The original source [/proj/src/a.ts]: ten lines, no directive. *)
Definition original : Vscode.TextDocument.t :=
  {| Vscode.TextDocument.fileName := "/proj/src/a.ts";
     Vscode.TextDocument.lines := replicate 10 "let x = 1;";
     Vscode.TextDocument.eol := Vscode.LF |}.

End Example.

(** * Theorems *)

(** ** Paths on examples *)

Example posix_resolve_sourceRoot :
  Posix.resolve "/home" ["/proj/dist"; "../src"; "a.ts"] = "/proj/src/a.ts".
Proof. reflexivity. Qed.

Example posix_resolve_relative_cwd :
  Posix.resolve "/home/u" ["a/./b"; "../c/"] = "/home/u/a/c".
Proof. reflexivity. Qed.

Example posix_resolve_above_root :
  Posix.resolve "/home" ["/a"; "../../b"; ""] = "/b".
Proof. reflexivity. Qed.

Example posix_dirname_file :
  Posix.dirname "/proj/dist/app.js.map" = "/proj/dist".
Proof. reflexivity. Qed.

Example posix_dirname_edges :
  Posix.dirname "app.js" = "." ∧ Posix.dirname "/app.js" = "/" ∧
  Posix.dirname "/a/b/" = "/a" ∧ Posix.dirname "" = "." ∧
  Posix.dirname "//a" = "//".
Proof. repeat split; reflexivity. Qed.

Example posix_relative_sibling :
  Posix.relative "/home" "/proj/src" "/proj/src/lib/a.ts" = "lib/a.ts" ∧
  Posix.relative "/home" "/proj/src" "/proj/dist/app.js" = "../dist/app.js".
Proof. split; reflexivity. Qed.

(** ** Strings and lists *)

Section Strings.

Lemma append_nil (s : string) : "" ++ s = s.
Proof. reflexivity. Qed.

Lemma append_cons (c : ascii) (a b : string) : String c a ++ b = String c (a ++ b).
Proof. reflexivity. Qed.

Lemma append_assoc (a b c : string) : (a ++ b) ++ c = a ++ (b ++ c).
Proof.
  induction a as [|x a IH]; [done|]. by rewrite !append_cons, IH.
Qed.

Lemma forallb_append f a b :
  Js.forallb f (a ++ b) = Js.forallb f a && Js.forallb f b.
Proof.
  induction a as [|c a IH]; rewrite ?append_nil, ?append_cons; cbn; [done|].
  by rewrite IH, andb_assoc.
Qed.

Lemma truthy_true s : Js.truthy s = true ↔ s ≠ "".
Proof. by destruct s. Qed.

Lemma orOpt_empty (o : option string) : Js.orOpt o "" = default "" o.
Proof. destruct o as [[|c s]|]; reflexivity. Qed.

Lemma stripPrefix_Some p s r : Js.stripPrefix p s = Some r → s = p ++ r.
Proof.
  revert s. induction p as [|a p IH]; intros s; cbn.
  - by intros [= ->].
  - destruct s as [|b s]; [done|].
    destruct (Ascii.eqb_spec a b) as [->|]; [|done].
    intros Hr. by rewrite append_cons, <- (IH _ Hr).
Qed.

Lemma split_without_sep sep s :
  Js.forallb (fun c => negb (Ascii.eqb c sep)) s = true → Js.split sep s = [s].
Proof.
  induction s as [|c s IH]; cbn; [done|].
  intros [Hc Hs]%andb_true_iff. apply negb_true_iff in Hc.
  by rewrite Hc, (IH Hs).
Qed.

Lemma split_append_sep sep a b :
  Js.forallb (fun c => negb (Ascii.eqb c sep)) a = true →
  Js.split sep (a ++ String sep b) = a :: Js.split sep b.
Proof.
  induction a as [|c a IH]; rewrite ?append_nil, ?append_cons; cbn.
  - intros _. by rewrite Ascii.eqb_refl.
  - intros [Hc Ha]%andb_true_iff. apply negb_true_iff in Hc.
    by rewrite Hc, (IH Ha).
Qed.

Lemma join_cons (sep a b : string) (rest : list string) :
  Js.join sep (a :: b :: rest) = a ++ sep ++ Js.join sep (b :: rest).
Proof. reflexivity. Qed.

(** The lines of a text joined by line feeds are what [split] gives back. *)
Lemma split_join_LF (ls : list string) :
  ls ≠ [] → Forall (fun l => Js.forallb noLF l = true) ls →
  Js.split "010" (Js.join Vscode.LF ls) = ls.
Proof.
  induction ls as [|l ls IH]; [done|]. intros _ Hall.
  apply Forall_cons in Hall as [Hl Hls].
  destruct ls as [|l' ls].
  - cbn. by apply split_without_sep.
  - rewrite join_cons. unfold Vscode.LF at 1. rewrite append_cons, append_nil.
    rewrite split_append_sep by done. f_equal. by apply IH.
Qed.

Lemma split_join_CRLF (ls : list string) :
  ls ≠ [] → Forall (fun l => Js.forallb noLF l = true) ls →
  Js.split "010" (Js.join Vscode.CRLF ls) = Spec.withCR ls.
Proof.
  induction ls as [|l ls IH]; [done|]. intros _ Hall.
  apply Forall_cons in Hall as [Hl Hls].
  destruct ls as [|l' ls].
  - cbn. by apply split_without_sep.
  - rewrite join_cons. change (Spec.withCR (l :: l' :: ls))
      with ((l ++ String "013" "") :: Spec.withCR (l' :: ls)).
    replace (l ++ Vscode.CRLF ++ Js.join Vscode.CRLF (l' :: ls))
      with ((l ++ String "013" "") ++ String "010" (Js.join Vscode.CRLF (l' :: ls)))
      by (by rewrite append_assoc).
    rewrite split_append_sep.
    + f_equal. by apply IH.
    + rewrite forallb_append, Hl. reflexivity.
Qed.

Lemma trimEnd_append_ws c s :
  Js.isWhiteSpace c = true → Js.trimEnd (s ++ String c "") = Js.trimEnd s.
Proof.
  intros Hc. induction s as [|a s IH]; rewrite ?append_nil, ?append_cons; cbn.
  - by rewrite Hc.
  - by rewrite IH.
Qed.

Lemma trim_append_ws c s :
  Js.isWhiteSpace c = true → Js.trim (s ++ String c "") = Js.trim s.
Proof.
  intros Hc. unfold Js.trim.
  induction s as [|a s IH]; rewrite ?append_nil, ?append_cons; cbn.
  - by rewrite Hc.
  - destruct (Js.isWhiteSpace a); [done|].
    rewrite <- append_cons. by apply trimEnd_append_ws.
Qed.

Lemma trimEnd_idempotent s : Js.trimEnd (Js.trimEnd s) = Js.trimEnd s.
Proof.
  induction s as [|a s IH]; cbn; [done|].
  destruct (Js.trimEnd s) as [|b t] eqn:Ht.
  - destruct (Js.isWhiteSpace a) eqn:Ha; cbn; [done|]. by rewrite Ha.
  - cbn. cbn in IH. by rewrite IH.
Qed.

(** A string without white space at its end keeps none at the end of its
    non-empty suffixes. *)
Lemma trimEnd_suffix p v :
  Js.trimEnd (p ++ v) = p ++ v → v ≠ "" → Js.trimEnd v = v.
Proof.
  induction p as [|a p IH]; rewrite ?append_nil, ?append_cons; cbn; [done|].
  intros Heq Hv.
  destruct (Js.trimEnd (p ++ v)) as [|b t] eqn:Ht.
  - destruct (Js.isWhiteSpace a); [done|].
    injection Heq as Heq. destruct p; [by rewrite append_nil in Heq | done].
  - injection Heq as Heq. by apply IH.
Qed.

Lemma trimStart_suffix v : ∃ p, v = p ++ Js.trimStart v.
Proof.
  induction v as [|a v [p IH]]; cbn.
  - by exists "".
  - destruct (Js.isWhiteSpace a).
    + exists (String a p). by rewrite append_cons, <- IH.
    + by exists "".
Qed.

Lemma trimStart_empty v : Js.trimStart v = "" → Js.trimEnd v = "".
Proof.
  induction v as [|a v IH]; cbn; [done|].
  destruct (Js.isWhiteSpace a) eqn:Ha; [|done].
  intros Hv. by rewrite (IH Hv).
Qed.

(** Trimmed, such a suffix is still not empty. *)
Lemma trim_suffix_nonempty p v :
  Js.trimEnd (p ++ v) = p ++ v → v ≠ "" → Js.trim v ≠ "".
Proof.
  intros Heq Hv. pose proof (trimEnd_suffix _ _ Heq Hv) as Hend.
  assert (Js.trimStart v ≠ "") as Hstart.
  { intros H0. apply trimStart_empty in H0. congruence. }
  destruct (trimStart_suffix v) as [q Hq].
  unfold Js.trim. rewrite (trimEnd_suffix q (Js.trimStart v)); [done| |done].
  by rewrite <- Hq.
Qed.

Lemma substring_all (s : string) : String.substring 0 (String.length s) s = s.
Proof. induction s as [|c s IH]; cbn; [done | by rewrite IH]. Qed.

(** The lines from [a] to [b], both included. *)
Lemma lines_from_to (l : list string) (a b : nat) :
  (a < b)%nat → (b < length l)%nat →
  default "" (l !! a) :: take (b - (a + 1)) (drop (a + 1) l) ++ [default "" (l !! b)]
  = take (b + 1 - a) (drop a l).
Proof.
  intros Hab Hb.
  destruct (lookup_lt_is_Some_2 l a) as [x Hx]; [lia|].
  destruct (lookup_lt_is_Some_2 l b) as [y Hy]; [lia|].
  rewrite Hx, Hy. cbn [default].
  rewrite (drop_S l x a Hx).
  replace (b + 1 - a)%nat with (S (S (b - (a + 1)))) by lia.
  cbn [take]. f_equal. replace (a + 1)%nat with (S a) by lia.
  rewrite (take_S_r _ _ y); [done|].
  rewrite lookup_drop. rewrite <- Hy. f_equal. lia.
Qed.

Lemma indexOfFrom_spec (x : string) (l : list string) (i : Z) :
  (Js.indexOfFrom i x l = -1 ∧ x ∉ l)
  ∨ ∃ n : nat, Js.indexOfFrom i x l = i + Z.of_nat n ∧ Spec.firstIndex x l n.
Proof.
  revert i. induction l as [|y l IH]; intros i; cbn.
  - left. split; [done|]. by apply not_elem_of_nil.
  - destruct (String.eqb_spec y x) as [->|Hne].
    + right. exists 0%nat. split; [lia|]. split; [done|]. intros ?; lia.
    + destruct (IH (i + 1)) as [[Hm Hnin]|(n & Hn & Hl & Hfirst)].
      * left. split; [done|]. by intros [?|?]%elem_of_cons.
      * right. exists (S n). split; [lia|]. split; [done|].
        intros [|j] Hj; cbn; [congruence|]. apply Hfirst. lia.
Qed.

Lemma firstIndex_unique x l n m :
  Spec.firstIndex x l n → Spec.firstIndex x l m → n = m.
Proof.
  intros [Hn Hn'] [Hm Hm'].
  destruct (Nat.lt_trichotomy n m) as [Hlt|[->|Hlt]]; [|done|].
  - by destruct (Hm' _ Hlt).
  - by destruct (Hn' _ Hlt).
Qed.

Lemma lookup_foldl_insert (l : list string) (v : string) (m : gmap string string) k :
  foldl (fun table s => <[s := v]> table) m l !! k
  = if decide (k ∈ l) then Some v else m !! k.
Proof.
  revert m. induction l as [|s l IH]; intros m; [done|].
  cbn [foldl]. rewrite IH, lookup_insert.
  destruct (decide (k ∈ l)) as [Hl|Hl].
  - rewrite decide_True; [done | by apply elem_of_cons; right].
  - destruct (decide (s = k)) as [Hs|Hs].
    + rewrite decide_True; [done | by apply elem_of_cons; left].
    + rewrite decide_False; [done | by intros [?|?]%elem_of_cons].
Qed.

Lemma lookup_foldl_delete (l : list string) (m : gmap string string) k :
  foldl (fun table s => delete s table) m l !! k
  = if decide (k ∈ l) then None else m !! k.
Proof.
  revert m. induction l as [|s l IH]; intros m; [done|].
  cbn [foldl]. rewrite IH, lookup_delete.
  destruct (decide (k ∈ l)) as [Hl|Hl].
  - rewrite decide_True; [done | by apply elem_of_cons; right].
  - destruct (decide (s = k)) as [Hs|Hs].
    + rewrite decide_True; [done | by apply elem_of_cons; left].
    + rewrite decide_False; [done | by intros [?|?]%elem_of_cons].
Qed.

End Strings.

(** ** The fetcher *)

Section Fetcher.
Context {path : PathApi} {platform : Platform}.
Import SourceMapFetcher Vscode.

Implicit Types (document : TextDocument.t).

#[local] Arguments Js.stripPrefix : simpl never.
#[local] Arguments Js.forallb : simpl never.
#[local] Arguments Js.truthy : simpl never.

Lemma scan_cons l ls : Spec.scan (l :: ls) = Js.or (Spec.scan ls) (tryExtractUrl l).
Proof. reflexivity. Qed.

Lemma scan_none ls : Forall (fun l => tryExtractUrl l = "") ls → Spec.scan ls = "".
Proof.
  induction 1 as [|l ls Hl _ IH]; [done|]. by rewrite scan_cons, IH, Hl.
Qed.

Lemma scan_last ls (i : nat) line :
  ls !! i = Some line → tryExtractUrl line ≠ "" →
  (∀ (j : nat) later, (i < j)%nat → ls !! j = Some later → tryExtractUrl later = "") →
  Spec.scan ls = tryExtractUrl line.
Proof.
  revert i. induction ls as [|l ls IH]; intros i Hi Hne Hlater; [done|].
  rewrite scan_cons. destruct i as [|i].
  - injection Hi as ->. rewrite scan_none; [done|].
    apply Forall_lookup. intros j later Hj. apply (Hlater (S j)); [lia | done].
  - rewrite (IH i); [| done | done |].
    + unfold Js.or. by apply truthy_true in Hne as ->.
    + intros j later Hj Hl. apply (Hlater (S j)); [lia | done].
Qed.

Lemma tryExtractUrl_CR l : tryExtractUrl (l ++ String "013" "") = tryExtractUrl l.
Proof. unfold tryExtractUrl. by rewrite trim_append_ws. Qed.

Lemma scan_withCR ls : Spec.scan (Spec.withCR ls) = Spec.scan ls.
Proof.
  induction ls as [|l ls IH]; [done|]. destruct ls as [|l' ls]; [done|].
  change (Spec.withCR (l :: l' :: ls)) with ((l ++ String "013" "") :: Spec.withCR (l' :: ls)).
  by rewrite !scan_cons, IH, tryExtractUrl_CR.
Qed.

(** What a match of the expression holds: the string itself and a group
    that is a non-empty end of it. *)
Lemma matcher_Some s m :
  SOURCE_MAPPING_MATCHER s = Some m →
  ∃ before group, m = [s; group] ∧ s = before ++ group ∧ group ≠ "".
Proof.
  unfold SOURCE_MAPPING_MATCHER.
  destruct (Js.stripPrefix "//" s) as [afterSlashes|] eqn:H1; [|done].
  apply stripPrefix_Some in H1. cbn.
  destruct afterSlashes as [|c afterMark]; [done|].
  destruct (Ascii.eqb c "#" || Ascii.eqb c "@"); [|done].
  set (afterSpace := match afterMark with String " " rest => rest | _ => afterMark end).
  assert (∃ space, afterMark = space ++ afterSpace) as [space Hspace].
  { unfold afterSpace. destruct afterMark as [|d rest]; [by exists ""|].
    destruct (Ascii.eqb_spec d " ") as [->|Hd].
    - by exists " ".
    - exists "". by destruct d as [[] [] [] [] [] [] [] []]. }
  destruct (Js.stripPrefix "sourceMappingURL=" afterSpace) as [value|] eqn:H2; [|done].
  apply stripPrefix_Some in H2. cbn.
  destruct (Js.truthy value) eqn:Hv; [|done].
  destruct (Js.forallb _ value); [|done]. cbn. intros [= <-].
  exists ("//" ++ String c (space ++ "sourceMappingURL=")), value.
  split; [done|]. split; [|by apply truthy_true].
  rewrite H1, Hspace, H2.
  by rewrite (append_assoc "//"), (append_cons c), (append_assoc space).
Qed.

Lemma tryExtractUrl_None line :
  SOURCE_MAPPING_MATCHER (Js.trim line) = None → tryExtractUrl line = "".
Proof. unfold tryExtractUrl. by intros ->. Qed.

Lemma tryExtractUrl_Some line m :
  SOURCE_MAPPING_MATCHER (Js.trim line) = Some m →
  ∃ group, m = [Js.trim line; group]
           ∧ tryExtractUrl line = Js.trim group ∧ Js.trim group ≠ "".
Proof.
  intros Hm. destruct (matcher_Some _ _ Hm) as (before & group & -> & Hs & Hg).
  exists group. split; [done|]. unfold tryExtractUrl. rewrite Hm. split; [done|].
  apply (trim_suffix_nonempty before); [|done].
  rewrite <- Hs. apply trimEnd_idempotent.
Qed.

Lemma range_lastTen (n : Z) :
  10 <= n →
  Range.new (n - 10) 0 (n + 1) 0
  = Ok {| Range.start := {| Position.line := n - 10; Position.character := 0 |};
          Range.end_ := {| Position.line := n + 1; Position.character := 0 |} |}.
Proof.
  intros Hn. unfold Range.new, Position.new.
  replace (n - 10 <? 0) with false by lia. replace (n + 1 <? 0) with false by lia.
  cbn. unfold Position.isBefore; cbn.
  by replace (n - 10 <? n + 1) with true by lia.
Qed.

Lemma range_short (n : Z) :
  n < 10 →
  Range.new (n - 10) 0 (n + 1) 0 = Err "Illegal argument: line must be non-negative".
Proof.
  intros Hn. unfold Range.new, Position.new.
  by replace (n - 10 <? 0) with true by lia.
Qed.

Lemma getText_lastTen document :
  10 <= TextDocument.lineCount document →
  TextDocument.getText document
    {| Range.start := {| Position.line := TextDocument.lineCount document - 10;
                         Position.character := 0 |};
       Range.end_ := {| Position.line := TextDocument.lineCount document + 1;
                        Position.character := 0 |} |}
  = Js.join (TextDocument.eol document)
      (drop (length (TextDocument.lines document) - 10) (TextDocument.lines document)).
Proof.
  unfold TextDocument.lineCount. intros Hn.
  set (lines := TextDocument.lines document) in *.
  set (n := length lines) in *.
  unfold TextDocument.getText, TextDocument.validatePosition, TextDocument.lineCount.
  fold lines. fold n. cbn [Range.start Range.end_ Position.line Position.character].
  replace (n =? 0)%nat with false by (symmetry; apply Nat.eqb_neq; lia).
  replace (Z.of_nat n - 10 <? 0) with false by lia.
  replace (Z.of_nat n <=? Z.of_nat n - 10) with false by lia.
  replace (Z.of_nat n + 1 <? 0) with false by lia.
  replace (Z.of_nat n <=? Z.of_nat n + 1) with true by lia.
  replace (Z.to_nat (Z.of_nat n - 10)) with (n - 10)%nat by lia.
  cbn [Z.ltb Z.compare Z.to_nat Nat.min].
  replace (n - 10 =? n - 1)%nat with false by (symmetry; apply Nat.eqb_neq; lia).
  unfold TextDocument.substringFrom, TextDocument.substringTo,
    TextDocument.linesBetween, TextDocument.lineAt. fold lines.
  rewrite !Nat.sub_0_r, !substring_all.
  f_equal. rewrite lines_from_to by lia.
  apply take_ge. rewrite length_drop. fold n. lia.
Qed.

Lemma fetch_window document :
  TextDocument.wellFormed document →
  10 <= TextDocument.lineCount document →
  fetch document
  = let fetchedMapUrl := Spec.scan (Spec.lastTenLines document) in
    if negb (Js.truthy fetchedMapUrl) then
      Err ("Can't fetch url from current document at "
           ++ TextDocument.fileName document)
    else
      Ok {| SourceMapFetchResult.mapUrl :=
              if isDataUri fetchedMapUrl then fetchedMapUrl
              else resolve [dirname (TextDocument.fileName document); fetchedMapUrl];
            SourceMapFetchResult.fileUrl := TextDocument.fileName document |}.
Proof.
  intros [Hlines Heol] Hn. unfold fetch.
  rewrite (range_lastTen _ Hn). unfold mbind, result_bind; cbn [bind].
  rewrite (getText_lastTen _ Hn).
  fold (Spec.lastTenLines document).
  set (window := Spec.lastTenLines document).
  assert (window ≠ []) as Hne.
  { intros H0. apply (f_equal length) in H0. unfold window, Spec.lastTenLines in H0.
    rewrite length_drop in H0. unfold TextDocument.lineCount in Hn. cbn in H0. lia. }
  assert (Forall (fun l => Js.forallb noLF l = true) window) as Hwin
    by by apply Forall_drop.
  assert (Js.reduceRight (fun result line => Js.or result (tryExtractUrl line)) ""
            (Js.split "010" (Js.join (TextDocument.eol document) window))
          = Spec.scan window) as ->; [|done].
  destruct Heol as [-> | ->].
  - by rewrite split_join_LF.
  - rewrite split_join_CRLF by done. apply scan_withCR.
Qed.

Lemma fetch_window_none document :
  TextDocument.wellFormed document →
  10 <= TextDocument.lineCount document →
  (∀ line, line ∈ Spec.lastTenLines document →
           SOURCE_MAPPING_MATCHER (Js.trim line) = None) →
  fetch document
  = Err ("Can't fetch url from current document at "
         ++ TextDocument.fileName document).
Proof.
  intros Hwf Hn Hnone. rewrite (fetch_window _ Hwf Hn). cbn zeta.
  rewrite scan_none; [done|].
  apply Forall_forall. intros line Hin. by apply tryExtractUrl_None, Hnone.
Qed.

(** The fetcher finds nothing in a window without a directive, whatever the
    length of the document. *)
Lemma fetch_without_directive document :
  TextDocument.wellFormed document →
  (∀ line, line ∈ Spec.lastTenLines document →
           SOURCE_MAPPING_MATCHER (Js.trim line) = None) →
  ∃ message, fetch document = Err message.
Proof.
  intros Hwf Hnone.
  destruct (Z.lt_ge_cases (TextDocument.lineCount document) 10) as [Hn|Hn].
  - eexists. unfold fetch. by rewrite (range_short _ Hn).
  - eexists. by apply fetch_window_none.
Qed.

(** C2 (amended).  For a document of at least ten lines, [fetch] reads the
    last ten lines only: it answers with the trimmed value of the last line
    that, trimmed, matches [^//[#@] ?sourceMappingURL=(.+)$] (as it is when
    it is a data URI, resolved against the document's directory otherwise),
    fails when no line of the window matches, and gives the same answer for
    any other such document with the same path and the same last ten
    lines. *)
Theorem fetch_last_directive document :
  TextDocument.wellFormed document →
  10 <= TextDocument.lineCount document →
  let window := Spec.lastTenLines document in
  let fileName := TextDocument.fileName document in
  (∀ (i : nat) line whole group,
     window !! i = Some line →
     SOURCE_MAPPING_MATCHER (Js.trim line) = Some [whole; group] →
     (∀ (j : nat) later,
        (i < j)%nat → window !! j = Some later →
        SOURCE_MAPPING_MATCHER (Js.trim later) = None) →
     fetch document
     = Ok {| SourceMapFetchResult.mapUrl :=
               if isDataUri (Js.trim group) then Js.trim group
               else resolve [dirname fileName; Js.trim group];
             SourceMapFetchResult.fileUrl := fileName |})
  ∧ ((∀ line, line ∈ window → SOURCE_MAPPING_MATCHER (Js.trim line) = None) →
     fetch document = Err ("Can't fetch url from current document at " ++ fileName))
  ∧ (∀ other,
       TextDocument.wellFormed other →
       10 <= TextDocument.lineCount other →
       TextDocument.fileName other = fileName →
       Spec.lastTenLines other = window →
       fetch other = fetch document).
Proof.
  intros Hwf Hn window fileName. split; [|split].
  - intros i line whole group Hi Hm Hlater.
    destruct (tryExtractUrl_Some _ _ Hm) as (group' & [= _ <-] & Hurl & Hne).
    rewrite (fetch_window _ Hwf Hn). fold window. cbn zeta.
    rewrite (scan_last window i line Hi); [| congruence |].
    + rewrite Hurl. by apply truthy_true in Hne as ->.
    + intros j later Hj Hl. apply tryExtractUrl_None. by apply (Hlater j).
  - by apply fetch_window_none.
  - intros other Hwf' Hn' Hname Hwin.
    rewrite (fetch_window _ Hwf Hn), (fetch_window _ Hwf' Hn').
    fold window. by rewrite Hwin, Hname.
Qed.

(** C10.  For a document of fewer than ten lines the start line of the scan
    range is negative and the range is refused; with it the fetcher, the
    store's fetch and a lookup that misses fail, whatever the lines hold.
    With ten lines or more the range is accepted and the text read through
    it is the last ten lines. *)
Theorem fetch_short_document document :
  TextDocument.lineCount document < 10 →
  TextDocument.lineCount document - 10 < 0
  ∧ Range.new (TextDocument.lineCount document - 10) 0
              (TextDocument.lineCount document + 1) 0
    = Err "Illegal argument: line must be non-negative"
  ∧ fetch document = Err "Illegal argument: line must be non-negative"
  ∧ (∀ fs, SourceMapStore.fetch fs document
           = Err "Can't retrieve source maps for current document")
  ∧ (∀ fs store,
       SourceMapStore.lookup (TextDocument.fileName document) store = None →
       SourceMapStore.getForCurrentDocument fs document store
       = (Err "Can't retrieve source maps for current document", store))
  ∧ (∀ longer,
       10 <= TextDocument.lineCount longer →
       ∃ lastTenLines,
         Range.new (TextDocument.lineCount longer - 10) 0
                   (TextDocument.lineCount longer + 1) 0
         = Ok lastTenLines
         ∧ TextDocument.getText longer lastTenLines
           = Js.join (TextDocument.eol longer) (Spec.lastTenLines longer)).
Proof.
  intros Hn. split; [lia|]. split; [by apply range_short|].
  assert (fetch document = Err "Illegal argument: line must be non-negative") as Hf.
  { unfold fetch. by rewrite (range_short _ Hn). }
  assert (∀ fs, SourceMapStore.fetch fs document
                = Err "Can't retrieve source maps for current document") as Hs.
  { intros fs. unfold SourceMapStore.fetch. by rewrite Hf. }
  split; [done|]. split; [done|]. split.
  - intros fs store Hmiss. unfold SourceMapStore.getForCurrentDocument.
    by rewrite Hmiss, Hs.
  - intros longer Hl. eexists. split; [by apply range_lastTen|].
    by apply getText_lastTen.
Qed.

End Fetcher.

Lemma wellFormed_bundle (document : Vscode.TextDocument.t) :
  Vscode.TextDocument.eol document = Vscode.LF →
  forallb (fun l => Js.forallb noLF l) (Vscode.TextDocument.lines document) = true →
  Vscode.TextDocument.wellFormed document.
Proof.
  intros Heol Hlines. split; [|by left].
  apply Forall_forall. intros line Hin.
  rewrite forallb_forall in Hlines. apply Hlines. by apply list_elem_of_In.
Qed.

(** The spec's example: the decoy on line 5 of 200 is not read, the last
    line is. *)
Lemma fetch_last_directive_witness :
  Vscode.TextDocument.wellFormed Example.decoyed
  ∧ 10 <= Vscode.TextDocument.lineCount Example.decoyed
  ∧ Vscode.TextDocument.lines Example.decoyed !! 4%nat
    = Some "//# sourceMappingURL=decoy.js.map"
  ∧ @SourceMapFetcher.fetch Example.path Example.platform Example.decoyed
    = Ok {| SourceMapFetchResult.mapUrl := "/proj/dist/app.js.map";
            SourceMapFetchResult.fileUrl := "/proj/dist/app.js" |}.
Proof.
  assert (Vscode.TextDocument.wellFormed Example.decoyed) as Hwf
    by (apply wellFormed_bundle; vm_compute; reflexivity).
  assert (10 <= Vscode.TextDocument.lineCount Example.decoyed) as Hn
    by (vm_compute; discriminate).
  split; [exact Hwf|]. split; [exact Hn|]. split; [reflexivity|].
  destruct (fetch_last_directive (path := Example.path) (platform := Example.platform)
              Example.decoyed Hwf Hn) as [Hlast _].
  apply (Hlast 9%nat "//# sourceMappingURL=app.js.map"
               "//# sourceMappingURL=app.js.map" "app.js.map");
    [reflexivity | reflexivity |].
  intros j later Hj Hlater. apply lookup_lt_Some in Hlater.
  vm_compute in Hlater. lia.
Defined.

(** Two documents (C2).  Ten lines whose last holds the directive without
    [#] or [@]: a directive as the claim words it, and not one for the
    code.  One line, a directive for both: the code fails before it reads
    the line. *)
Lemma fetch_last_directive_counterexample :
  (Spec.directive "//sourceMappingURL=app.js.map" = Some "app.js.map"
   ∧ Spec.lastTenLines Example.unmarked !! 9%nat
     = Some "//sourceMappingURL=app.js.map"
   ∧ @SourceMapFetcher.fetch Example.path Example.platform Example.unmarked
     = Err "Can't fetch url from current document at /proj/dist/app.js")
  ∧ (Spec.directive "//# sourceMappingURL=app.js.map" = Some "app.js.map"
     ∧ Spec.lastTenLines Example.short !! 0%nat
       = Some "//# sourceMappingURL=app.js.map"
     ∧ @SourceMapFetcher.fetch Example.path Example.platform Example.short
       = Err "Illegal argument: line must be non-negative").
Proof. repeat split; vm_compute; reflexivity. Qed.

Lemma fetch_short_document_witness :
  Vscode.TextDocument.lineCount Example.short < 10
  ∧ SourceMapFetcher.SOURCE_MAPPING_MATCHER (Js.trim "//# sourceMappingURL=app.js.map")
    = Some ["//# sourceMappingURL=app.js.map"; "app.js.map"]
  ∧ @SourceMapFetcher.fetch Example.path Example.platform Example.short
    = Err "Illegal argument: line must be non-negative"
  ∧ @SourceMapStore.fetch Example.path Example.platform ∅ Example.short
    = Err "Can't retrieve source maps for current document".
Proof.
  assert (Vscode.TextDocument.lineCount Example.short < 10) as Hn
    by reflexivity.
  destruct (fetch_short_document (path := Example.path) (platform := Example.platform)
              Example.short Hn) as (_ & _ & Hfetch & Hstore & _).
  split; [exact Hn|]. split; [reflexivity|]. split; [exact Hfetch | apply Hstore].
Defined.

(** ** The tables under [addItem] and [removeItem] *)

Section Tables.
Context {platform : Platform}.
Import SourceMapStore History.

Implicit Types (store : SourceMapStore.t) (item : SourceMapItem.t).

Lemma store_eq store1 store2 :
  cache store1 = cache store2 →
  reverseLookupTable store1 = reverseLookupTable store2 →
  watchers store1 = watchers store2 →
  heap store1 = heap store2 →
  store1 = store2.
Proof. destruct store1, store2; cbn. by intros -> -> -> ->. Qed.

(** The four tables after [addItem]. *)
Lemma cache_addItem item store key :
  cache (addItem item store) !! key
  = if decide (SourceMapItem.generatedFile item = key) then Some item
    else cache store !! key.
Proof. unfold addItem; simpl. apply lookup_insert. Qed.

Lemma watchers_addItem item store key :
  watchers (addItem item store) !! key
  = if decide (SourceMapItem.generatedFile item = key) then Some (length (heap store))
    else watchers store !! key.
Proof. unfold addItem; simpl. apply lookup_insert. Qed.

Lemma reverse_addItem item store sourceFile :
  reverseLookupTable (addItem item store) !! sourceFile
  = if decide (sourceFile ∈ SourceMapItem.sourceFiles item)
    then Some (SourceMapItem.generatedFile item)
    else reverseLookupTable store !! sourceFile.
Proof. unfold addItem; simpl. apply lookup_foldl_insert. Qed.

Lemma heap_addItem_old item store watcher w :
  heap store !! watcher = Some w → heap (addItem item store) !! watcher = Some w.
Proof. intros Hw. unfold addItem; simpl. by apply lookup_app_l_Some. Qed.

(** The four tables after [removeItem]. *)
Lemma cache_removeItem generatedPath store key :
  cache (removeItem generatedPath store) !! key
  = if decide (generatedPath = key) then None else cache store !! key.
Proof.
  unfold removeItem.
  destruct (watchers store !! generatedPath) as [w|]; simpl;
    destruct (cache store !! generatedPath) as [item|] eqn:Hc; simpl;
    case_decide; subst; try done;
    by (rewrite ?lookup_delete_eq, ?lookup_delete_ne by done).
Qed.

Lemma watchers_removeItem generatedPath store key :
  watchers (removeItem generatedPath store) !! key
  = if decide (generatedPath = key) then None else watchers store !! key.
Proof.
  unfold removeItem.
  destruct (watchers store !! generatedPath) as [w|] eqn:Hw; simpl;
    destruct (cache store !! generatedPath) as [item|]; simpl;
    case_decide; subst; try done;
    by (rewrite ?lookup_delete_eq, ?lookup_delete_ne by done).
Qed.

Lemma reverse_removeItem generatedPath store sourceFile :
  reverseLookupTable (removeItem generatedPath store) !! sourceFile
  = match cache store !! generatedPath with
    | Some item =>
        if decide (sourceFile ∈ SourceMapItem.sourceFiles item) then None
        else reverseLookupTable store !! sourceFile
    | None => reverseLookupTable store !! sourceFile
    end.
Proof.
  unfold removeItem.
  destruct (watchers store !! generatedPath) as [w|]; simpl;
    destruct (cache store !! generatedPath) as [item|]; simpl;
    try done; apply lookup_foldl_delete.
Qed.

Lemma heap_removeItem generatedPath store :
  heap (removeItem generatedPath store)
  = match watchers store !! generatedPath with
    | Some watcher => alter FileSystemWatcher.dispose watcher (heap store)
    | None => heap store
    end.
Proof.
  unfold removeItem.
  destruct (watchers store !! generatedPath) as [w|]; simpl;
    by destruct (cache store !! generatedPath).
Qed.

(** [removeItem] on a key of neither table. *)
Lemma removeItem_absent generatedPath store :
  watchers store !! generatedPath = None →
  cache store !! generatedPath = None →
  removeItem generatedPath store = store.
Proof. intros Hw Hc. unfold removeItem. by rewrite Hw, Hc. Qed.

(** A watcher object, once disposed, stays disposed; a live one stays where
    it is. *)
Lemma heap_removeItem_lookup generatedPath store i w :
  heap store !! i = Some w →
  ∃ w', heap (removeItem generatedPath store) !! i = Some w'
        ∧ (w' = w ∨ w' = FileSystemWatcher.dispose w).
Proof.
  intros Hi. rewrite heap_removeItem.
  destruct (watchers store !! generatedPath) as [watcher|]; [|eauto].
  destruct (decide (watcher = i)) as [->|Hne].
  - exists (FileSystemWatcher.dispose w). split; [|by right].
    by rewrite list_lookup_alter_eq, Hi.
  - exists w. split; [|by left]. by rewrite list_lookup_alter_ne.
Qed.

Lemma heap_removeItem_disposed generatedPath store i w :
  heap store !! i = Some w → FileSystemWatcher.disposed w = true →
  ∃ w', heap (removeItem generatedPath store) !! i = Some w'
        ∧ FileSystemWatcher.disposed w' = true.
Proof.
  intros Hi Hd. destruct (heap_removeItem_lookup generatedPath _ _ _ Hi)
    as (w' & Hw' & [->| ->]); eauto.
Qed.

Lemma heap_removeItem_key generatedPath store watcher w :
  watchers store !! generatedPath = Some watcher →
  heap store !! watcher = Some w →
  heap (removeItem generatedPath store) !! watcher = Some (FileSystemWatcher.dispose w).
Proof. intros Hw Hh. by rewrite heap_removeItem, Hw, list_lookup_alter_eq, Hh. Qed.

(** The reverse table only loses entries under [removeItem]. *)
Lemma reverse_removeItem_None generatedPath store sourceFile :
  reverseLookupTable store !! sourceFile = None →
  reverseLookupTable (removeItem generatedPath store) !! sourceFile = None.
Proof.
  intros Hn. rewrite reverse_removeItem.
  destruct (cache store !! generatedPath); [by case_decide | done].
Qed.

Lemma dispose_comm (i j : nat) (h : list FileSystemWatcher.t) :
  alter FileSystemWatcher.dispose i (alter FileSystemWatcher.dispose j h)
  = alter FileSystemWatcher.dispose j (alter FileSystemWatcher.dispose i h).
Proof.
  destruct (decide (i = j)) as [->|Hne]; [done|].
  by apply list_alter_alter_ne.
Qed.

Lemma removeItem_comm p q store :
  removeItem p (removeItem q store) = removeItem q (removeItem p store).
Proof.
  destruct (decide (p = q)) as [->|Hne]; [done|].
  apply store_eq.
  - apply map_eq. intros k. rewrite !cache_removeItem. by repeat case_decide.
  - apply map_eq. intros k.
    rewrite !reverse_removeItem, !cache_removeItem, !decide_False by done.
    destruct (cache store !! p), (cache store !! q); by repeat case_decide.
  - apply map_eq. intros k. rewrite !watchers_removeItem. by repeat case_decide.
  - rewrite !heap_removeItem, !watchers_removeItem, !decide_False by done.
    destruct (watchers store !! p), (watchers store !! q); try done.
    apply dispose_comm.
Qed.

Lemma cache_removeAll ks store key :
  cache (removeAll ks store) !! key
  = if decide (key ∈ ks) then None else cache store !! key.
Proof.
  revert store. induction ks as [|k ks IH]; intros store; [done|].
  unfold removeAll in *. cbn [foldl]. rewrite IH, cache_removeItem.
  destruct (decide (key ∈ ks)) as [Hl|Hl].
  - rewrite decide_True; [done | by apply elem_of_cons; right].
  - destruct (decide (k = key)) as [Hs|Hs].
    + rewrite decide_True; [done | by apply elem_of_cons; left].
    + rewrite decide_False; [done | by intros [?|?]%elem_of_cons].
Qed.

Lemma watchers_removeAll ks store key :
  watchers (removeAll ks store) !! key
  = if decide (key ∈ ks) then None else watchers store !! key.
Proof.
  revert store. induction ks as [|k ks IH]; intros store; [done|].
  unfold removeAll in *. cbn [foldl]. rewrite IH, watchers_removeItem.
  destruct (decide (key ∈ ks)) as [Hl|Hl].
  - rewrite decide_True; [done | by apply elem_of_cons; right].
  - destruct (decide (k = key)) as [Hs|Hs].
    + rewrite decide_True; [done | by apply elem_of_cons; left].
    + rewrite decide_False; [done | by intros [?|?]%elem_of_cons].
Qed.

Lemma heap_removeAll_disposed ks store i w :
  heap store !! i = Some w → FileSystemWatcher.disposed w = true →
  ∃ w', heap (removeAll ks store) !! i = Some w'
        ∧ FileSystemWatcher.disposed w' = true.
Proof.
  revert store w. induction ks as [|k ks IH]; intros store w Hi Hd; [eauto|].
  destruct (heap_removeItem_disposed k _ _ _ Hi Hd) as (w' & Hi' & Hd').
  apply (IH _ _ Hi' Hd').
Qed.

Lemma heap_removeAll_key ks store key watcher w :
  key ∈ ks → watchers store !! key = Some watcher → heap store !! watcher = Some w →
  ∃ w', heap (removeAll ks store) !! watcher = Some w'
        ∧ FileSystemWatcher.disposed w' = true.
Proof.
  revert store w. induction ks as [|k ks IH]; intros store w Hin Hw Hh.
  - by apply elem_of_nil in Hin.
  - destruct (decide (k = key)) as [->|Hne].
    + apply (heap_removeAll_disposed ks _ _ _ (heap_removeItem_key _ _ _ _ Hw Hh)).
      done.
    + apply elem_of_cons in Hin as [->|Hin]; [done|].
      destruct (heap_removeItem_lookup k _ _ _ Hh) as (w' & Hh' & _).
      apply (IH (removeItem k store) w'); [done| |done].
      by rewrite watchers_removeItem, decide_False.
Qed.

Lemma reverse_removeAll_None ks store sourceFile :
  reverseLookupTable store !! sourceFile = None →
  reverseLookupTable (removeAll ks store) !! sourceFile = None.
Proof.
  revert store. induction ks as [|k ks IH]; intros store Hn; [done|].
  apply IH. by apply reverse_removeItem_None.
Qed.

Lemma reverse_removeAll_key ks store key item sourceFile :
  key ∈ ks → cache store !! key = Some item →
  sourceFile ∈ SourceMapItem.sourceFiles item →
  reverseLookupTable (removeAll ks store) !! sourceFile = None.
Proof.
  revert store. induction ks as [|k ks IH]; intros store Hin Hc Hs.
  - by apply elem_of_nil in Hin.
  - cbn [removeAll foldl]. fold (removeAll ks (removeItem k store)).
    destruct (decide (k = key)) as [->|Hne].
    + apply reverse_removeAll_None.
      by rewrite reverse_removeItem, Hc, decide_True.
    + apply elem_of_cons in Hin as [->|Hin]; [done|].
      apply (IH _ Hin); [|done]. by rewrite cache_removeItem, decide_False.
Qed.

(** The keys may be removed in any order. *)
Lemma removeAll_permutation ks ks' store :
  ks ≡ₚ ks' → removeAll ks store = removeAll ks' store.
Proof.
  intros Hp. revert store.
  induction Hp as [|k ks ks' _ IH|k k' ks|ks ks' ks'' _ IH1 _ IH2]; intros store.
  - done.
  - cbn [removeAll foldl]. apply IH.
  - cbn [removeAll foldl]. by rewrite removeItem_comm.
  - by rewrite IH1.
Qed.

Lemma elem_of_keys store key : key ∈ keys store ↔ is_Some (cache store !! key).
Proof.
  unfold keys. rewrite list_elem_of_fmap. split.
  - intros ([k item] & -> & Hin). apply elem_of_map_to_list in Hin. eauto.
  - intros [item Hc]. exists (key, item). split; [done|].
    by apply elem_of_map_to_list.
Qed.

Lemma run_snoc ops o (store : SourceMapStore.t) :
  History.run (ops ++ [o]) store = History.apply o (History.run ops store).
Proof. unfold History.run. by rewrite foldl_app. Qed.

End Tables.

(** ** The invariant of the store *)

Section Invariant.
Context {path : PathApi} {platform : Platform}.
Import SourceMapStore History.

Implicit Types (store : SourceMapStore.t) (item : SourceMapItem.t).

Lemma coherent_new : coherent new.
Proof.
  split; unfold new; simpl.
  - intros key item Hc. by rewrite lookup_empty in Hc.
  - intros key. rewrite !lookup_empty. split; intros []; done.
  - intros key. rewrite lookup_empty. intros []; done.
Qed.

Lemma coherent_addItem item store : coherent store → coherent (addItem item store).
Proof.
  intros [Hkey Hdom Hw]. split.
  - intros key it. rewrite cache_addItem. case_decide; [congruence | apply Hkey].
  - intros key. rewrite cache_addItem, watchers_addItem.
    case_decide; [split; eauto | apply Hdom].
  - intros key. rewrite watchers_addItem. case_decide as Hk.
    + intros _. subst key. eexists _, _. rewrite watchers_addItem, decide_True by done.
      split; [done|]. unfold addItem; simpl.
      split; [by apply list_lookup_middle | done].
    + intros Hsome. destruct (Hw key Hsome) as (watcher & w & Hw1 & Hw2 & Hrest).
      exists watcher, w. rewrite watchers_addItem, decide_False by done.
      split; [done|]. split; [by apply heap_addItem_old | done].
Qed.

Lemma coherent_removeItem generatedPath store :
  coherent store → coherent (removeItem generatedPath store).
Proof.
  intros [Hkey Hdom Hw]. split.
  - intros key it. rewrite cache_removeItem. case_decide; [done | apply Hkey].
  - intros key. rewrite cache_removeItem, watchers_removeItem.
    case_decide; [split; intros []; done | apply Hdom].
  - intros key. rewrite watchers_removeItem. case_decide as Hk; [intros []; done|].
    intros Hsome. destruct (Hw key Hsome) as (watcher & w & Hw1 & Hw2 & Hd & Hg & Hrest).
    exists watcher, w. rewrite watchers_removeItem, decide_False by done.
    split; [done|]. split; [|done].
    rewrite heap_removeItem.
    destruct (watchers store !! generatedPath) as [watcher'|] eqn:Hp; [|done].
    destruct (Hw generatedPath (mk_is_Some _ _ Hp))
      as (watcher'' & w' & Hw1' & Hw2' & _ & Hg' & _).
    assert (watcher'' = watcher') as -> by congruence.
    rewrite list_lookup_alter_ne; [done|].
    intros ->. congruence.
Qed.

Lemma reachable_coherent store : reachable store → coherent store.
Proof.
  induction 1 as [|[item|generatedPath] store _ IH].
  - apply coherent_new.
  - by apply coherent_addItem.
  - by apply coherent_removeItem.
Qed.

Lemma reachable_run ops store : reachable store → reachable (run ops store).
Proof.
  revert store. induction ops as [|o ops IH]; intros store Hr; [done|].
  apply IH. by constructor.
Qed.

Lemma reachableUnshared_reachable store : reachableUnshared store → reachable store.
Proof.
  induction 1 as [|item store _ IH _|generatedPath store _ IH].
  - constructor.
  - apply (reachable_step (AddItem item)), IH.
  - apply (reachable_step (RemoveItem generatedPath)), IH.
Qed.

Lemma reverseIndexed_new : reverseIndexed new.
Proof. intros key item sourceFile Hc. cbn in Hc. by rewrite lookup_empty in Hc. Qed.

Lemma reverseIndexed_addItem item store :
  unshared item store → reverseIndexed store →
  reverseIndexed (addItem item store).
Proof.
  intros Hun Hri key it sourceFile. rewrite cache_addItem, reverse_addItem.
  case_decide as Hk.
  - intros [= <-] Hin. by rewrite decide_True.
  - intros Hc Hin. rewrite decide_False; [by eapply Hri|].
    intros Hin'. by apply (Hun key it sourceFile).
Qed.

Lemma reverseIndexed_removeItem generatedPath store :
  coherent store → reverseIndexed store →
  reverseIndexed (removeItem generatedPath store).
Proof.
  intros Hco Hri key it sourceFile. rewrite cache_removeItem, reverse_removeItem.
  case_decide as Hk; [done|]. intros Hc Hin.
  destruct (cache store !! generatedPath) as [removed|] eqn:Hp; [|by eapply Hri].
  rewrite decide_False; [by eapply Hri|].
  intros Hin'.
  pose proof (Hri _ _ _ Hc Hin) as H1. pose proof (Hri _ _ _ Hp Hin') as H2.
  rewrite (coherent_key _ Hco _ _ Hc) in H1.
  rewrite (coherent_key _ Hco _ _ Hp) in H2. congruence.
Qed.

Lemma reachableUnshared_reverseIndexed store :
  reachableUnshared store → reverseIndexed store.
Proof.
  induction 1 as [|item store Hr IH Hun|generatedPath store Hr IH].
  - apply reverseIndexed_new.
  - by apply reverseIndexed_addItem.
  - apply reverseIndexed_removeItem; [|done].
    by apply reachable_coherent, reachableUnshared_reachable.
Qed.

Lemma cached_items_added ops key (cached : SourceMapItem.t) :
  SourceMapStore.cache (History.run ops SourceMapStore.new) !! key = Some cached →
  History.AddItem cached ∈ ops.
Proof.
  induction ops as [|o ops IH] using rev_ind.
  - intros Hc. cbn in Hc. by rewrite lookup_empty in Hc.
  - rewrite run_snoc. destruct o as [item|generatedPath]; cbn [History.apply].
    + rewrite cache_addItem. case_decide.
      * intros [= ->]. apply elem_of_app. right. by apply list_elem_of_singleton.
      * intros Hc. apply elem_of_app. left. by apply IH.
    + rewrite cache_removeItem. case_decide; [done|].
      intros Hc. apply elem_of_app. left. by apply IH.
Qed.

(** What the public operations do stays within the reachable states. *)
Lemma reachable_removeAll ks store : reachable store → reachable (removeAll ks store).
Proof.
  revert store. induction ks as [|k ks IH]; intros store Hr; [done|].
  apply IH. apply (reachable_step (RemoveItem k)), Hr.
Qed.

Lemma reachable_listeners ls store :
  reachable store →
  reachable (foldl (fun store l => runListener l store) store ls).
Proof.
  revert store. induction ls as [|[k] ls IH]; intros store Hr; [done|].
  apply IH. apply (reachable_step (RemoveItem k)), Hr.
Qed.

(** X5.  What the public operations do stays within the states reached by
    [addItem] and [removeItem]. *)
Theorem reachable_closed store :
  reachable store →
  reachable (dispose store)
  ∧ (∀ watcher, reachable (fireDidChange watcher store))
  ∧ (∀ watcher, reachable (fireDidDelete watcher store))
  ∧ (∀ fs document, reachable (getForCurrentDocument fs document store).2).
Proof.
  intros Hr. split; [by apply reachable_removeAll|]. split; [|split].
  - intros watcher. unfold fireDidChange.
    destruct (heap store !! watcher) as [w|]; [|done].
    destruct (FileSystemWatcher.disposed w); [done|]. by apply reachable_listeners.
  - intros watcher. unfold fireDidDelete.
    destruct (heap store !! watcher) as [w|]; [|done].
    destruct (FileSystemWatcher.disposed w); [done|]. by apply reachable_listeners.
  - intros fs document. unfold getForCurrentDocument.
    destruct (lookup _ store); [done|].
    destruct (fetch fs document) as [item|]; [|done].
    apply (reachable_step (AddItem item)), Hr.
Qed.

(** C3 (amended).  In every state reached by [addItem] and [removeItem],
    every key of the cache has a live watcher under the same key.  When no
    added item shared a source file with an item cached under another key,
    every source file of a cached item maps, in the reverse table, to the
    key of that item, which is its generated file. *)
Theorem store_invariant store :
  reachable store →
  (∀ key, is_Some (cache store !! key) → activeWatcher store key)
  ∧ (reachableUnshared store →
     ∀ key item sourceFile,
       cache store !! key = Some item →
       sourceFile ∈ SourceMapItem.sourceFiles item →
       SourceMapItem.generatedFile item = key
       ∧ reverseLookupTable store !! sourceFile = Some key).
Proof.
  intros Hr. pose proof (reachable_coherent _ Hr) as Hco. split.
  - intros key Hc. apply (coherent_watcher _ Hco), (coherent_dom _ Hco), Hc.
  - intros Hu key item sourceFile Hc Hin.
    pose proof (coherent_key _ Hco _ _ Hc) as Hk. split; [done|].
    rewrite <- Hk. by apply (reachableUnshared_reverseIndexed _ Hu key).
Qed.

End Invariant.

Example example_items_constructed :
  @SourceMapItem.new Example.path Example.platform
     (Example.payload ["../src/a.ts"] (Some "app.js")) "/proj/dist/app.js.map"
  = Ok Example.app
  ∧ @SourceMapItem.new Example.path Example.platform
     (Example.payload ["app.js"] (Some "app.min.js")) "/proj/dist/app.min.js.map"
  = Ok Example.minified.
Proof. split; reflexivity. Qed.

Lemma store_invariant_witness :
  let store := SourceMapStore.addItem Example.app SourceMapStore.new in
  History.reachable store
  ∧ History.reachableUnshared store
  ∧ History.activeWatcher store "/proj/dist/app.js"
  ∧ SourceMapStore.reverseLookupTable store !! "/proj/src/a.ts" = Some "/proj/dist/app.js".
Proof.
  intros store.
  assert (History.reachable store) as Hr.
  { apply (History.reachable_step (History.AddItem Example.app)). constructor. }
  assert (History.reachableUnshared store) as Hu.
  { apply History.unshared_add; [constructor|]. intros key other s Hc. 
    cbn in Hc. by rewrite lookup_empty in Hc. }
  destruct (store_invariant store Hr) as [Hw Hrev].
  split; [done|]. split; [done|]. split.
  - apply Hw. by exists Example.app.
  - apply (Hrev Hu _ Example.app); [done|]. by apply list_elem_of_singleton.
Defined.

Lemma store_invariant_counterexample :
  ¬ (∀ (platform : Platform) (store : SourceMapStore.t),
       History.reachable store →
       ∀ key item sourceFile,
         SourceMapStore.cache store !! key = Some item →
         sourceFile ∈ SourceMapItem.sourceFiles item →
         SourceMapStore.reverseLookupTable store !! sourceFile
         = Some (SourceMapItem.generatedFile item)).
Proof.
  intros H.
  pose (store := History.run
    [History.AddItem Example.app; History.AddItem Example.vendor;
     History.RemoveItem "/proj/dist/vendor.js"] SourceMapStore.new).
  assert (SourceMapStore.cache store !! "/proj/dist/app.js" = Some Example.app)
    as Hc by reflexivity.
  assert (SourceMapStore.reverseLookupTable store !! "/proj/src/a.ts" = None)
    as Hn by reflexivity.
  specialize (H Example.platform store (reachable_run _ _ History.reachable_new)
                _ _ "/proj/src/a.ts" Hc).
  rewrite Hn in H. discriminate H. by apply list_elem_of_singleton.
Qed.

Lemma reachable_closed_witness :
  let store := SourceMapStore.addItem Example.app SourceMapStore.new in
  History.reachable store
  ∧ History.reachable (SourceMapStore.dispose store)
  ∧ History.reachable
      (@SourceMapStore.getForCurrentDocument Example.path Example.platform
         (Example.disk Example.firstBuild) Example.renamed store).2.
Proof.
  intros store.
  assert (History.reachable store) as Hr.
  { apply (History.reachable_step (History.AddItem Example.app)). constructor. }
  destruct (reachable_closed (path := Example.path) store Hr) as (Hd & _ & _ & Hg).
  split; [exact Hr|]. split; [exact Hd | apply Hg].
Defined.

(** ** Eviction *)

Section Eviction.
Context {path : PathApi} {platform : Platform}.
Import SourceMapStore History.

Implicit Types (store : SourceMapStore.t) (item : SourceMapItem.t).

Lemma lookup_miss fs document store :
  lookup (Vscode.TextDocument.fileName document) store = None →
  getForCurrentDocument fs document store
  = match fetch fs document with
    | Ok item => (Ok item, addItem item store)
    | Err message => (Err message, store)
    end.
Proof. intros Hl. unfold getForCurrentDocument. by rewrite Hl. Qed.

Lemma lookup_hit fs document store item :
  lookup (Vscode.TextDocument.fileName document) store = Some item →
  getForCurrentDocument fs document store = (Ok item, store).
Proof. intros Hl. unfold getForCurrentDocument. by rewrite Hl. Qed.

Lemma reverseLookup_removeItem_None generatedPath store key :
  reverseLookup key store = None →
  reverseLookup key (removeItem generatedPath store) = None.
Proof.
  unfold reverseLookup. rewrite reverse_removeItem. intros Hl.
  assert (∀ o : option string,
            (o = None ∨ o = reverseLookupTable store !! key) →
            match o with
            | Some p => if Js.truthy p then cache (removeItem generatedPath store) !! p
                        else None
            | None => None
            end = None) as Hgen.
  { intros o [->| ->]; [done|].
    destruct (reverseLookupTable store !! key) as [p|]; [|done].
    destruct (Js.truthy p); [|done].
    rewrite cache_removeItem. by case_decide. }
  apply Hgen. destruct (cache store !! generatedPath); [case_decide|]; auto.
Qed.

(** C9.  [removeItem] on a path that is a key of neither [cache] nor
    [watchers] returns the store unchanged. *)
Theorem removeItem_absent_noop generatedPath store :
  cache store !! generatedPath = None →
  watchers store !! generatedPath = None →
  removeItem generatedPath store = store
  ∧ cache (removeItem generatedPath store) = cache store
  ∧ reverseLookupTable (removeItem generatedPath store) = reverseLookupTable store
  ∧ watchers (removeItem generatedPath store) = watchers store.
Proof. intros Hc Hw. by rewrite (removeItem_absent _ _ Hw Hc). Qed.

(** C4 (amended).  With an item cached under [generatedFile] in a reachable
    state, [removeItem] (which is what its watcher runs on a change or a
    delete) leaves no entry for the key in [cache] and [watchers], a
    disposed watcher, and no reverse entry for a source of the item.  The
    next lookup for the generated file misses provided the reverse lookup
    found nothing for it, the next lookup for a source of the item misses
    provided that source is not itself a key of the cache, and a lookup that
    misses fetches again. *)
Theorem removeItem_evicts store generatedFile item :
  reachable store →
  cache store !! generatedFile = Some item →
  let store' := removeItem generatedFile store in
  cache store' !! generatedFile = None
  ∧ watchers store' !! generatedFile = None
  ∧ (∃ watcher w,
       watchers store !! generatedFile = Some watcher
       ∧ fireDidChange watcher store = store'
       ∧ fireDidDelete watcher store = store'
       ∧ heap store' !! watcher = Some w
       ∧ FileSystemWatcher.disposed w = true)
  ∧ (∀ sourceFile, sourceFile ∈ SourceMapItem.sourceFiles item →
       reverseLookupTable store' !! sourceFile = None)
  ∧ (reverseLookup generatedFile store = None →
     lookup generatedFile store' = None)
  ∧ (∀ sourceFile, sourceFile ∈ SourceMapItem.sourceFiles item →
       cache store !! sourceFile = None ∨ sourceFile = generatedFile →
       lookup sourceFile store' = None)
  ∧ (∀ fs document,
       lookup (Vscode.TextDocument.fileName document) store' = None →
       getForCurrentDocument fs document store'
       = match fetch fs document with
         | Ok fetched => (Ok fetched, addItem fetched store')
         | Err message => (Err message, store')
         end).
Proof.
  intros Hr Hc store'. pose proof (reachable_coherent _ Hr) as Hco.
  assert (cache store' !! generatedFile = None) as Hc'.
  { unfold store'. by rewrite cache_removeItem, decide_True. }
  assert (∀ sourceFile, sourceFile ∈ SourceMapItem.sourceFiles item →
            reverseLookupTable store' !! sourceFile = None) as Hrev.
  { intros sourceFile Hin. unfold store'.
    by rewrite reverse_removeItem, Hc, decide_True. }
  split; [done|]. split.
  { unfold store'. by rewrite watchers_removeItem, decide_True. }
  split.
  { destruct (coherent_watcher _ Hco generatedFile) as
      (watcher & w & Hw & Hh & Hd & _ & Hchange & Hdelete).
    { apply (coherent_dom _ Hco). eauto. }
    exists watcher, (FileSystemWatcher.dispose w).
    split; [done|]. unfold fireDidChange, fireDidDelete.
    rewrite Hh, Hd, Hchange, Hdelete. repeat split; try done.
    by apply heap_removeItem_key. }
  split; [done|]. split.
  { intros Hl. unfold lookup. rewrite Hc'.
    by apply reverseLookup_removeItem_None. }
  split; [|intros fs document; apply lookup_miss].
  intros sourceFile Hin Hs. unfold lookup, reverseLookup.
  rewrite (Hrev _ Hin). unfold store'. rewrite cache_removeItem.
  case_decide; [done|]. by destruct Hs as [->|].
Qed.

End Eviction.

Lemma removeItem_absent_noop_witness :
  let store := SourceMapStore.addItem Example.app SourceMapStore.new in
  SourceMapStore.cache store !! "/proj/dist/vendor.js" = None
  ∧ SourceMapStore.watchers store !! "/proj/dist/vendor.js" = None
  ∧ SourceMapStore.removeItem "/proj/dist/vendor.js" store = store.
Proof.
  intros store.
  assert (SourceMapStore.cache store !! "/proj/dist/vendor.js" = None) as Hc
    by reflexivity.
  assert (SourceMapStore.watchers store !! "/proj/dist/vendor.js" = None) as Hw
    by reflexivity.
  split; [done|]. split; [done|].
  apply (removeItem_absent_noop "/proj/dist/vendor.js" store Hc Hw).
Defined.

Lemma removeItem_evicts_witness :
  let store := SourceMapStore.addItem Example.app SourceMapStore.new in
  let store' := SourceMapStore.removeItem "/proj/dist/app.js" store in
  History.reachable store
  ∧ SourceMapStore.cache store !! "/proj/dist/app.js" = Some Example.app
  ∧ SourceMapStore.reverseLookup "/proj/dist/app.js" store = None
  ∧ SourceMapStore.cache store !! "/proj/src/a.ts" = None
  ∧ SourceMapStore.lookup "/proj/dist/app.js" store' = None
  ∧ SourceMapStore.lookup "/proj/src/a.ts" store' = None.
Proof.
  intros store store'.
  assert (History.reachable store) as Hr.
  { apply (History.reachable_step (History.AddItem Example.app)). constructor. }
  assert (SourceMapStore.cache store !! "/proj/dist/app.js" = Some Example.app) as Hc
    by reflexivity.
  assert (SourceMapStore.reverseLookup "/proj/dist/app.js" store = None) as Hrl
    by reflexivity.
  assert (SourceMapStore.cache store !! "/proj/src/a.ts" = None) as Hs
    by reflexivity.
  destruct (removeItem_evicts (path := Example.path) store _ _ Hr Hc)
    as (_ & _ & _ & _ & HG & HS & _).
  do 4 (split; [done|]). split; [by apply HG|].
  apply HS; [by apply list_elem_of_singleton | by left].
Defined.

(** The chain [a.ts → app.js → app.min.js]: once both maps are cached, a
    change of [app.js] evicts its entry, and the next lookup for [app.js]
    finds the item of [app.min.js] through the reverse table. *)
Lemma removeItem_evicts_counterexample :
  ¬ (∀ (platform : Platform) (store : SourceMapStore.t) generatedFile item,
       History.reachable store →
       SourceMapStore.cache store !! generatedFile = Some item →
       SourceMapStore.lookup generatedFile
         (SourceMapStore.removeItem generatedFile store) = None).
Proof.
  intros H.
  pose (store := History.run
    [History.AddItem Example.app; History.AddItem Example.minified]
    SourceMapStore.new).
  assert (SourceMapStore.cache store !! "/proj/dist/app.js" = Some Example.app)
    as Hc by reflexivity.
  assert (SourceMapStore.lookup "/proj/dist/app.js"
            (SourceMapStore.removeItem "/proj/dist/app.js" store)
          = Some Example.minified) as Hl by reflexivity.
  specialize (H Example.platform store _ _
                (reachable_run _ _ History.reachable_new) Hc).
  rewrite Hl in H. discriminate H.
Qed.

(** ** Teardown *)

Section Teardown.
Context {platform : Platform}.
Import SourceMapStore History.

Implicit Types (store : SourceMapStore.t) (item : SourceMapItem.t).

(** [dispose] empties the cache of every store. *)
Lemma cache_dispose store : cache (dispose store) = ∅.
Proof.
  apply map_empty. intros key. unfold dispose.
  rewrite cache_removeAll. case_decide as Hin; [done|].
  rewrite elem_of_keys in Hin. by apply eq_None_not_Some.
Qed.

(** It empties [watchers] when [watchers] has no key that [cache] lacks. *)
Lemma watchers_dispose store : coherent store → watchers (dispose store) = ∅.
Proof.
  intros Hco. apply map_empty. intros key. unfold dispose.
  rewrite watchers_removeAll. case_decide as Hin; [done|].
  rewrite elem_of_keys, (coherent_dom _ Hco) in Hin. by apply eq_None_not_Some.
Qed.

(** A store with an empty cache is left as it is. *)
Lemma dispose_empty_cache store : cache store = ∅ → dispose store = store.
Proof. intros Hc. unfold dispose, keys. by rewrite Hc, map_to_list_empty. Qed.

Lemma dispose_idempotent store : dispose (dispose store) = dispose store.
Proof. apply dispose_empty_cache, cache_dispose. Qed.

(** Every watcher the store refers to is disposed by [dispose]. *)
Lemma dispose_disposes store key watcher :
  coherent store → watchers store !! key = Some watcher →
  ∃ w, heap (dispose store) !! watcher = Some w
       ∧ FileSystemWatcher.disposed w = true.
Proof.
  intros Hco Hw.
  destruct (coherent_watcher _ Hco key (mk_is_Some _ _ Hw))
    as (watcher' & w & Hw' & Hh & _).
  assert (watcher' = watcher) as -> by congruence.
  unfold dispose.
  apply (heap_removeAll_key _ _ key _ w); [|done..].
  apply elem_of_keys, (coherent_dom _ Hco). eauto.
Qed.

(** X1.  In a reachable state [dispose] empties [cache] and [watchers],
    disposes every watcher that [watchers] refers to, removes the reverse
    entry of every source file of a cached item, and changes nothing when
    it runs a second time. *)
Theorem dispose_reachable store :
  reachable store →
  cache (dispose store) = ∅
  ∧ watchers (dispose store) = ∅
  ∧ (∀ key watcher,
       watchers store !! key = Some watcher →
       ∃ w, heap (dispose store) !! watcher = Some w
            ∧ FileSystemWatcher.disposed w = true)
  ∧ (∀ key item sourceFile,
       cache store !! key = Some item →
       sourceFile ∈ SourceMapItem.sourceFiles item →
       reverseLookupTable (dispose store) !! sourceFile = None)
  ∧ dispose (dispose store) = dispose store.
Proof.
  intros Hr. pose proof (reachable_coherent _ Hr) as Hco.
  split; [apply cache_dispose|]. split; [by apply watchers_dispose|].
  split; [intros key watcher; by apply dispose_disposes|].
  split; [|apply dispose_idempotent].
  intros key item sourceFile Hc Hs. unfold dispose.
  apply (reverse_removeAll_key _ _ key item); [|done..].
  apply elem_of_keys. eauto.
Qed.

(** X2.  [dispose] removes the keys of the cache in the order the map
    lists them; any other order of the same keys ends in the same store. *)
Theorem dispose_any_order store ks :
  ks ≡ₚ keys store → removeAll ks store = dispose store.
Proof. intros Hp. unfold dispose. by apply removeAll_permutation. Qed.

(** A history without overwrites is a history. *)
Lemma reachableFresh_reachable store : reachableFresh store → reachable store.
Proof.
  induction 1 as [|item store _ IH _|generatedPath store _ IH].
  - constructor.
  - apply (reachable_step (AddItem item)), IH.
  - apply (reachable_step (RemoveItem generatedPath)), IH.
Qed.

(** [addItem] under a key the cache lacks keeps every reverse entry covered
    by a cached item. *)
Lemma reverseCovered_addItem item store :
  cache store !! SourceMapItem.generatedFile item = None →
  reverseCovered store → reverseCovered (addItem item store).
Proof.
  intros Hfresh Hcov sourceFile generatedPath. rewrite reverse_addItem.
  case_decide as Hin.
  - intros _. exists (SourceMapItem.generatedFile item), item.
    by rewrite cache_addItem, decide_True.
  - intros Hrev. destruct (Hcov _ _ Hrev) as (key & it & Hc & Hs).
    exists key, it. split; [|done].
    rewrite cache_addItem, decide_False; [done|]. intros <-. congruence.
Qed.

(** [removeItem] deletes the reverse entries of the item it removes, so the
    entries that stay are those of the items that stay. *)
Lemma reverseCovered_removeItem generatedPath store :
  reverseCovered store → reverseCovered (removeItem generatedPath store).
Proof.
  intros Hcov sourceFile g. rewrite reverse_removeItem.
  destruct (cache store !! generatedPath) as [removed|] eqn:Hp.
  - case_decide as Hin; [done|]. intros Hrev.
    destruct (Hcov _ _ Hrev) as (key & it & Hc & Hs).
    exists key, it. split; [|done].
    rewrite cache_removeItem, decide_False; [done|]. intros <-. congruence.
  - intros Hrev. destruct (Hcov _ _ Hrev) as (key & it & Hc & Hs).
    exists key, it. split; [|done].
    rewrite cache_removeItem, decide_False; [done|]. intros <-. congruence.
Qed.

(** Under a key the cache lacks no reference in [watchers] is overwritten. *)
Lemma accounted_addItem item store :
  cache store !! SourceMapItem.generatedFile item = None →
  coherent store → accounted store → accounted (addItem item store).
Proof.
  intros Hfresh Hco Hacc watcher w Hh. unfold addItem in Hh; cbn in Hh.
  apply lookup_app_Some in Hh as [Hold|[Hlen Hnew]].
  - destruct (Hacc _ _ Hold) as [Hd|[key Hk]]; [by left|]. right. exists key.
    rewrite watchers_addItem, decide_False; [done|]. intros <-.
    assert (is_Some (cache store !! SourceMapItem.generatedFile item)) as [? ?]
      by (apply (coherent_dom _ Hco); eauto).
    congruence.
  - right. exists (SourceMapItem.generatedFile item).
    rewrite watchers_addItem, decide_True by done. f_equal.
    apply list_lookup_singleton_Some in Hnew as [Hi _]. lia.
Qed.

(** The reference [removeItem] drops is to the watcher it disposes. *)
Lemma accounted_removeItem generatedPath store :
  accounted store → accounted (removeItem generatedPath store).
Proof.
  intros Hacc watcher w. rewrite heap_removeItem.
  destruct (watchers store !! generatedPath) as [removed|] eqn:Hp.
  - destruct (decide (removed = watcher)) as [->|Hne].
    + rewrite list_lookup_alter_eq. intros Hh.
      destruct (heap store !! watcher); [|done]. injection Hh as <-. by left.
    + rewrite list_lookup_alter_ne by done. intros Hh.
      destruct (Hacc _ _ Hh) as [Hd|[key Hk]]; [by left|]. right. exists key.
      rewrite watchers_removeItem, decide_False; [done|]. intros <-. congruence.
  - intros Hh. destruct (Hacc _ _ Hh) as [Hd|[key Hk]]; [by left|]. right.
    exists key. rewrite watchers_removeItem, decide_False; [done|].
    intros <-. congruence.
Qed.

Lemma reachableFresh_invariants store :
  reachableFresh store → reverseCovered store ∧ accounted store.
Proof.
  induction 1 as [|item store Hr [IH1 IH2] Hfresh|generatedPath store Hr [IH1 IH2]].
  - split.
    + intros s g Hrev. cbn in Hrev. by rewrite lookup_empty in Hrev.
    + intros watcher w Hh. cbn in Hh. by rewrite lookup_nil in Hh.
  - split; [by apply reverseCovered_addItem|].
    apply accounted_addItem; [done| |done].
    by apply reachable_coherent, reachableFresh_reachable.
  - split; [by apply reverseCovered_removeItem | by apply accounted_removeItem].
Qed.

(** Removals add no reverse entry. *)
Lemma reverse_removeAll_Some ks store sourceFile generatedPath :
  reverseLookupTable (removeAll ks store) !! sourceFile = Some generatedPath →
  reverseLookupTable store !! sourceFile = Some generatedPath.
Proof.
  revert store. induction ks as [|k ks IH]; intros store; [done|].
  intros Hrev. apply IH in Hrev. rewrite reverse_removeItem in Hrev.
  destruct (cache store !! k); [by case_decide | done].
Qed.

(** X6.  Where no item was added under a key the cache already held,
    [dispose] leaves all three tables empty and every watcher the store ever
    created disposed, and a second [dispose] changes nothing. *)
Theorem dispose_fresh store :
  reachableFresh store →
  cache (dispose store) = ∅
  ∧ reverseLookupTable (dispose store) = ∅
  ∧ watchers (dispose store) = ∅
  ∧ (∀ watcher w,
       heap (dispose store) !! watcher = Some w →
       FileSystemWatcher.disposed w = true)
  ∧ length (heap (dispose store)) = length (heap store)
  ∧ dispose (dispose store) = dispose store.
Proof.
  intros Hf. pose proof (reachableFresh_reachable _ Hf) as Hr.
  pose proof (reachable_coherent _ Hr) as Hco.
  destruct (reachableFresh_invariants _ Hf) as [Hcov Hacc].
  split; [apply cache_dispose|]. split.
  { apply map_empty. intros sourceFile.
    destruct (reverseLookupTable (dispose store) !! sourceFile) as [g|] eqn:Hrev;
      [|done].
    pose proof (reverse_removeAll_Some _ _ _ _ Hrev) as Hold.
    destruct (Hcov _ _ Hold) as (key & item & Hc & Hs).
    unfold dispose in Hrev.
    rewrite (reverse_removeAll_key _ _ key item) in Hrev; [done| |done..].
    apply elem_of_keys. eauto. }
  split; [by apply watchers_dispose|].
  assert (∀ ks s, length (heap (removeAll ks s)) = length (heap s)) as Hlen.
  { induction ks as [|k ks IH]; intros s; [done|].
    cbn [removeAll foldl]. fold (removeAll ks (removeItem k s)).
    rewrite IH, heap_removeItem. destruct (watchers s !! k); [|done].
    apply length_alter. }
  split; [|split; [apply Hlen | apply dispose_idempotent]].
  intros watcher w Hh.
  destruct (lookup_lt_is_Some_2 (heap store) watcher) as [w0 Hw0].
  { rewrite <- (Hlen (keys store) store). by eapply lookup_lt_Some. }
  destruct (Hacc _ _ Hw0) as [Hd|[key Hk]].
  - destruct (heap_removeAll_disposed (keys store) _ _ _ Hw0 Hd) as (w' & Hw' & Hd').
    unfold dispose in Hh. congruence.
  - destruct (dispose_disposes _ _ _ Hco Hk) as (w' & Hw' & Hd'). congruence.
Qed.

End Teardown.

Lemma dispose_reachable_witness :
  let store :=
    SourceMapStore.addItem Example.minified
      (SourceMapStore.addItem Example.app SourceMapStore.new) in
  History.reachable store
  ∧ SourceMapStore.cache (SourceMapStore.dispose store) = ∅
  ∧ SourceMapStore.watchers (SourceMapStore.dispose store) = ∅
  ∧ SourceMapStore.dispose (SourceMapStore.dispose store) = SourceMapStore.dispose store.
Proof.
  intros store.
  assert (History.reachable store) as Hr.
  { apply (reachable_run
             [History.AddItem Example.app; History.AddItem Example.minified]).
    constructor. }
  destruct (dispose_reachable store Hr) as (Hc & Hw & _ & _ & Hi).
  split; [exact Hr|]. split; [exact Hc|]. split; [exact Hw | exact Hi].
Defined.

Lemma dispose_any_order_witness :
  let store :=
    SourceMapStore.addItem Example.minified
      (SourceMapStore.addItem Example.app SourceMapStore.new) in
  rev (SourceMapStore.keys store) ≡ₚ SourceMapStore.keys store
  ∧ SourceMapStore.removeAll (rev (SourceMapStore.keys store)) store
    = SourceMapStore.dispose store.
Proof.
  intros store.
  assert (rev (SourceMapStore.keys store) ≡ₚ SourceMapStore.keys store) as Hp
    by (symmetry; apply Permutation_rev).
  split; [exact Hp|]. apply (dispose_any_order store _ Hp).
Defined.

Lemma dispose_fresh_witness :
  let store :=
    SourceMapStore.addItem Example.minified
      (SourceMapStore.addItem Example.app SourceMapStore.new) in
  History.reachableFresh store
  ∧ SourceMapStore.cache (SourceMapStore.dispose store) = ∅
  ∧ SourceMapStore.reverseLookupTable (SourceMapStore.dispose store) = ∅
  ∧ SourceMapStore.watchers (SourceMapStore.dispose store) = ∅.
Proof.
  intros store.
  assert (History.reachableFresh store) as Hf.
  { apply History.fresh_add; [apply History.fresh_add; [constructor|]|];
      reflexivity. }
  destruct (dispose_fresh store Hf) as (Hc & Hrev & Hw & _).
  split; [exact Hf|]. split; [exact Hc|]. split; [exact Hrev | exact Hw].
Defined.

(** C8.  [dispose] where a second item was added under a key already in the
    cache: [cache] and [watchers] end empty, the reverse entry of the first
    item stays, and the first watcher is never disposed. *)
Example dispose_after_overwrite :
  let store := History.run
    [History.AddItem Example.app; History.AddItem Example.appRebuilt]
    SourceMapStore.new in
  History.reachable store
  ∧ SourceMapStore.cache (SourceMapStore.dispose store) = ∅
  ∧ SourceMapStore.watchers (SourceMapStore.dispose store) = ∅
  ∧ SourceMapStore.reverseLookupTable (SourceMapStore.dispose store)
    = {[ "/proj/src/a.ts" := "/proj/dist/app.js" ]}
  ∧ FileSystemWatcher.disposed <$> SourceMapStore.heap (SourceMapStore.dispose store)
    = [false; true].
Proof.
  intros store. split; [apply reachable_run; constructor|].
  repeat split; vm_compute; reflexivity.
Qed.

(** C8.  Two navigations from [/proj/dist/app.min.js], whose map names
    [app.js] as the generated file, with the map file rebuilt in between:
    both lookups miss, and both items are added under [/proj/dist/app.js].
    After [dispose], [cache] and [watchers] are empty, the reverse entry of
    the first item is still there, and the first watcher is not disposed. *)
Example dispose_after_refetch :
  let first :=
    @SourceMapStore.getForCurrentDocument Example.path Example.platform
      (Example.disk Example.firstBuild) Example.renamed SourceMapStore.new in
  let second :=
    @SourceMapStore.getForCurrentDocument Example.path Example.platform
      (Example.disk Example.secondBuild) Example.renamed first.2 in
  let disposed := SourceMapStore.dispose second.2 in
  first.1 = Ok Example.firstRead
  ∧ second.1 = Ok Example.secondRead
  ∧ SourceMapStore.cache disposed = ∅
  ∧ SourceMapStore.watchers disposed = ∅
  ∧ SourceMapStore.reverseLookupTable disposed
    = {[ "/proj/src/a.ts" := "/proj/dist/app.js" ]}
  ∧ FileSystemWatcher.disposed <$> SourceMapStore.heap disposed = [false; true].
Proof. repeat split; vm_compute; reflexivity. Qed.

(** ** Lookups *)

Section Lookup.
Context {path : PathApi} {platform : Platform}.
Import SourceMapFetcher Vscode.

Implicit Types (store : SourceMapStore.t) (document : TextDocument.t).

(** C5 (amended).  The active document has no directive in its window, and
    its path is no name of [Object.prototype].  When it is found neither in
    the cache nor through the reverse table, [getForCurrentDocument] fails
    with the fetch error, put in the place of the fetcher's own (no URL in a
    document of ten lines or more, the refused range in a shorter one), and
    returns the store as it was.  When it is found, the cached item is
    returned and the store is as it was, whatever the text of the document
    and the disk hold: the document is not scanned. *)
Theorem getForCurrentDocument_without_directive fs document store :
  TextDocument.wellFormed document →
  Js.inherited (TextDocument.fileName document) = false →
  (∀ line, line ∈ Spec.lastTenLines document →
           SOURCE_MAPPING_MATCHER (Js.trim line) = None) →
  match SourceMapStore.lookup (TextDocument.fileName document) store with
  | None =>
      SourceMapStore.getForCurrentDocument fs document store
      = (Err "Can't retrieve source maps for current document", store)
      ∧ SourceMapStore.fetch fs document
        = Err "Can't retrieve source maps for current document"
      ∧ fetch document
        = (if decide (10 <= TextDocument.lineCount document)
           then Err ("Can't fetch url from current document at "
                     ++ TextDocument.fileName document)
           else Err "Illegal argument: line must be non-negative")
  | Some cached =>
      SourceMapStore.getForCurrentDocument fs document store = (Ok cached, store)
      ∧ ∀ disk other,
          TextDocument.fileName other = TextDocument.fileName document →
          SourceMapStore.getForCurrentDocument disk other store = (Ok cached, store)
  end.
Proof.
  intros Hwf _ Hnone.
  destruct (SourceMapStore.lookup (TextDocument.fileName document) store)
    as [cached|] eqn:Hlookup.
  - split; [by apply lookup_hit|].
    intros disk other Hname. apply lookup_hit. by rewrite Hname.
  - assert (SourceMapStore.fetch fs document
            = Err "Can't retrieve source maps for current document") as Hfetch.
    { unfold SourceMapStore.fetch.
      by destruct (fetch_without_directive _ Hwf Hnone) as [message ->]. }
    split; [by rewrite (lookup_miss _ _ _ Hlookup), Hfetch|]. split; [done|].
    case_decide as Hn.
    + by apply fetch_window_none.
    + unfold fetch. rewrite range_short by lia. reflexivity.
Qed.

End Lookup.

Section Registration.
Context {path : PathApi} {platform : Platform}.
Import SourceMapStore History.

Implicit Types (store : SourceMapStore.t).

(** X3.  A lookup that succeeds changes nothing.  A fetch that succeeds
    registers the item: it is cached under its generated file, watched
    there, and every source file of it points back to that key. *)
Theorem getForCurrentDocument_registers fs document store :
  reachable store →
  match lookup (Vscode.TextDocument.fileName document) store with
  | Some cached => getForCurrentDocument fs document store = (Ok cached, store)
  | None =>
      match fetch fs document with
      | Ok item =>
          ∃ store',
            getForCurrentDocument fs document store = (Ok item, store')
            ∧ cache store' !! SourceMapItem.generatedFile item = Some item
            ∧ activeWatcher store' (SourceMapItem.generatedFile item)
            ∧ ∀ sourceFile,
                sourceFile ∈ SourceMapItem.sourceFiles item →
                reverseLookupTable store' !! sourceFile
                = Some (SourceMapItem.generatedFile item)
      | Err message =>
          getForCurrentDocument fs document store = (Err message, store)
      end
  end.
Proof.
  intros Hr. unfold getForCurrentDocument.
  destruct (lookup _ store) as [cached|]; [done|].
  destruct (fetch fs document) as [item|message]; [|done].
  exists (addItem item store). split; [done|].
  split; [by rewrite cache_addItem, decide_True|]. split.
  - apply (coherent_watcher (addItem item store)).
    + apply reachable_coherent, (reachable_step (AddItem item)), Hr.
    + rewrite watchers_addItem, decide_True by done. eauto.
  - intros sourceFile Hs. by rewrite reverse_addItem, decide_True.
Qed.

End Registration.

Lemma getForCurrentDocument_without_directive_witness :
  let store := SourceMapStore.addItem Example.app SourceMapStore.new in
  let unknown :=
    {| Vscode.TextDocument.fileName := "/proj/dist/vendor.js";
       Vscode.TextDocument.lines := replicate 10 "var x;";
       Vscode.TextDocument.eol := Vscode.LF |} in
  @SourceMapStore.getForCurrentDocument Example.path Example.platform ∅ unknown store
  = (Err "Can't retrieve source maps for current document", store)
  ∧ @SourceMapFetcher.fetch Example.path Example.platform unknown
    = Err "Can't fetch url from current document at /proj/dist/vendor.js"
  ∧ @SourceMapStore.getForCurrentDocument Example.path Example.platform
      ∅ Example.original store
    = (Ok Example.app, store).
Proof.
  intros store unknown.
  assert (∀ text line,
            SourceMapFetcher.SOURCE_MAPPING_MATCHER (Js.trim text) = None →
            line ∈ replicate 10 text →
            SourceMapFetcher.SOURCE_MAPPING_MATCHER (Js.trim line) = None) as Hwindow.
  { intros text line Hnone Hin. by apply elem_of_replicate in Hin as [-> _]. }
  pose proof (@getForCurrentDocument_without_directive Example.path Example.platform
                ∅ unknown store
                ltac:(apply wellFormed_bundle; reflexivity) eq_refl
                (fun line => Hwindow "var x;" line eq_refl)) as Hmiss.
  pose proof (@getForCurrentDocument_without_directive Example.path Example.platform
                ∅ Example.original store
                ltac:(apply wellFormed_bundle; reflexivity) eq_refl
                (fun line => Hwindow "let x = 1;" line eq_refl)) as Hhit.
  change (SourceMapStore.lookup (Vscode.TextDocument.fileName unknown) store)
    with (@None (@SourceMapItem.t Example.platform)) in Hmiss.
  change (SourceMapStore.lookup (Vscode.TextDocument.fileName Example.original) store)
    with (Some Example.app) in Hhit.
  destruct Hmiss as (Hget & _ & Hfetcher). destruct Hhit as [Hcached _].
  split; [exact Hget|]. split; [exact Hfetcher | exact Hcached].
Defined.

(** An original source known to the reverse table: its text holds no
    directive, and the cached item of its generated file is returned. *)
Lemma getForCurrentDocument_without_directive_counterexample :
  ¬ (∀ (path : PathApi) (platform : Platform) fs document store,
       Vscode.TextDocument.wellFormed document →
       (∀ line, line ∈ Spec.lastTenLines document →
                SourceMapFetcher.SOURCE_MAPPING_MATCHER (Js.trim line) = None) →
       ∃ message,
         SourceMapStore.getForCurrentDocument fs document store = (Err message, store)).
Proof.
  intros H.
  destruct (H Example.path Example.platform ∅ Example.original
              (SourceMapStore.addItem Example.app SourceMapStore.new))
    as [message Hget].
  - apply wellFormed_bundle; vm_compute; reflexivity.
  - intros line Hin. apply elem_of_replicate in Hin as [-> _]. reflexivity.
  - assert (SourceMapStore.lookup
              (Vscode.TextDocument.fileName Example.original)
              (SourceMapStore.addItem Example.app SourceMapStore.new)
            = Some Example.app) as Hhit by reflexivity.
    rewrite (lookup_hit (path := Example.path) _ _ _ _ Hhit) in Hget.
    discriminate Hget.
Qed.

Lemma getForCurrentDocument_registers_witness :
  @History.reachable Example.platform SourceMapStore.new
  ∧ ∃ store',
      @SourceMapStore.getForCurrentDocument Example.path Example.platform
        (Example.disk Example.firstBuild) Example.renamed SourceMapStore.new
      = (Ok Example.firstRead, store')
      ∧ SourceMapStore.cache store' !! "/proj/dist/app.js" = Some Example.firstRead
      ∧ SourceMapStore.reverseLookupTable store' !! "/proj/src/a.ts"
        = Some "/proj/dist/app.js".
Proof.
  split; [constructor|].
  pose proof (getForCurrentDocument_registers
                (path := Example.path) (platform := Example.platform)
                (Example.disk Example.firstBuild) Example.renamed
                SourceMapStore.new History.reachable_new) as H.
  assert (@SourceMapStore.lookup Example.platform
            (Vscode.TextDocument.fileName Example.renamed) SourceMapStore.new
          = None) as Hmiss by reflexivity.
  assert (@SourceMapStore.fetch Example.path Example.platform
            (Example.disk Example.firstBuild) Example.renamed
          = Ok Example.firstRead) as Hfetch by reflexivity.
  rewrite Hmiss, Hfetch in H. destruct H as (store' & Hget & Hc & _ & Hrev).
  exists store'. split; [exact Hget|]. split; [exact Hc|].
  apply Hrev. by apply list_elem_of_singleton.
Defined.

(** ** Items and navigation *)

Section Items.
Context {path : PathApi} {platform : Platform}.
Import SourceMapItem.

(** C1 (amended).  A constructed item keeps the payload and the map file's
    path; each declared source is resolved against the map file's directory
    and the source root (the empty string when there is none); the
    generated file is the map's [file] resolved against that directory when
    [file] is declared and not empty, and the map file itself otherwise.
    The store hands back the items it was given: whatever the cache holds
    after any operations is an item that [addItem] received, as it was. *)
Theorem construction_resolves_paths rawSourceMap sourceMapFile item :
  new rawSourceMap sourceMapFile = Ok item →
  SourceMapItem.rawSourceMap item = rawSourceMap
  ∧ SourceMapItem.sourceMapFile item = sourceMapFile
  ∧ sourceFiles item
    = map (fun source =>
             resolve [dirname sourceMapFile;
                      default "" (RawSourceMap.sourceRoot rawSourceMap);
                      source])
          (RawSourceMap.sources rawSourceMap)
  ∧ generatedFile item
    = match RawSourceMap.file rawSourceMap with
      | Some file =>
          if decide (file = "") then sourceMapFile
          else resolve [dirname sourceMapFile; file]
      | None => sourceMapFile
      end
  ∧ ∀ ops key cached,
      SourceMapStore.cache (History.run ops SourceMapStore.new) !! key = Some cached →
      History.AddItem cached ∈ ops.
Proof.
  unfold new. intros Hnew.
  destruct (SourceMapConsumer_new rawSourceMap) as [consumer|message]; [|done].
  injection Hnew as <-. cbn.
  split; [done|]. split; [done|]. split.
  - apply map_ext. intros source. by rewrite orOpt_empty.
  - split; [|apply cached_items_added].
    destruct (RawSourceMap.file rawSourceMap) as [file|]; [|done].
    case_decide as Hf; [by subst|]. by destruct file.
Qed.

Lemma embeddedContents_spec rawSourceMap source text :
  embeddedContents rawSourceMap (Js.indexOf source (RawSourceMap.sources rawSourceMap))
  = Some text
  ↔ Spec.carriesContents rawSourceMap source text ∧ text ≠ "".
Proof.
  unfold embeddedContents, Spec.carriesContents, Js.indexOf, Js.at_.
  destruct (indexOfFrom_spec source (RawSourceMap.sources rawSourceMap) 0)
    as [[Hm Hnin]|(n & Hn & Hfirst)].
  - rewrite Hm. cbn. split.
    + by destruct (RawSourceMap.sourcesContent rawSourceMap).
    + intros [(sc & index & _ & [Hl _] & _) _].
      destruct Hnin. by eapply list_elem_of_lookup_2.
  - rewrite Hn. replace (0 + Z.of_nat n <? 0) with false by lia.
    replace (Z.to_nat (0 + Z.of_nat n)) with n by lia.
    destruct (RawSourceMap.sourcesContent rawSourceMap) as [sc|] eqn:Hsc.
    + split.
      * destruct (sc !! n) as [[t|]|] eqn:Hl; try done.
        destruct (Js.truthy t) eqn:Ht; [|done]. intros [= ->].
        split; [by exists sc, n|]. intros ->. done.
      * intros [(sc' & index & [= <-] & Hfirst' & Hl) Hne].
        rewrite (firstIndex_unique _ _ _ _ Hfirst Hfirst'), Hl.
        destruct text; [done|]. done.
    + split; [done|]. by intros [(sc' & index & ? & _) _].
Qed.

(** C7 (amended).  A successful [originalPositionFor] comes from a decoded
    position; the result's file is the decoded source resolved against the
    map file's directory; and the result carries a text exactly when the
    payload's [sourcesContent] holds that text, not empty, at the first
    index of the decoded source among the payload's sources. *)
Theorem originalPositionFor_result item position result :
  originalPositionFor item position = Ok result →
  ∃ decoded,
    consumer_originalPositionFor (sourceMap item) (FilePosition.toSmPosition position)
    = Some decoded
    ∧ FilePosition.file result
      = resolve [dirname (sourceMapFile item); SmPosition.source decoded]
    ∧ ∀ text,
        FilePosition.contents result = Some text
        ↔ Spec.carriesContents (rawSourceMap item) (SmPosition.source decoded) text
          ∧ text ≠ "".
Proof.
  unfold originalPositionFor. intros Hres.
  destruct (consumer_originalPositionFor (sourceMap item)
              (FilePosition.toSmPosition position)) as [decoded|]; [|done].
  exists decoded. split; [done|]. cbn in Hres.
  pose proof (embeddedContents_spec (rawSourceMap item) (SmPosition.source decoded))
    as Hspec.
  destruct (embeddedContents (rawSourceMap item)
              (Js.indexOf (SmPosition.source decoded)
                          (RawSourceMap.sources (rawSourceMap item))))
    as [embedded|]; injection Hres as <-; (split; [done|]); intros text; cbn.
  - rewrite <- Hspec. split; congruence.
  - rewrite <- Hspec. split; congruence.
Qed.

(** C6.  [isCurrentDocumentGenerated] answers [true] exactly when the
    item's generated file and the active document's path are the same
    string; [navigate] asks for the original position in that case and for
    the generated position otherwise. *)
Theorem direction_selection (sm : SourceMapItem.t) (editor : Vscode.TextEditor.t) :
  let fileName := Vscode.TextDocument.fileName (Vscode.TextEditor.document editor) in
  let activePosition := FilePosition.getActivePosition editor in
  (isCurrentDocumentGenerated sm fileName = true ↔ generatedFile sm = fileName)
  ∧ Extension.destinationPosition sm editor
    = (if decide (generatedFile sm = fileName)
       then originalPositionFor sm activePosition
       else generatedPositionFor sm activePosition)
  ∧ ∀ fs store store',
      SourceMapStore.getForCurrentDocument fs (Vscode.TextEditor.document editor) store
      = (Ok sm, store') →
      Extension.navigate fs editor store
      = (match (if decide (generatedFile sm = fileName)
                then originalPositionFor sm activePosition
                else generatedPositionFor sm activePosition)
               ≫= Extension.navigateToDestination fs with
         | Ok view => Extension.Navigated view
         | Err message =>
             Extension.Warning ("Can't get source map for current document: " ++ message)
         end, store').
Proof.
  intros fileName activePosition.
  assert (isCurrentDocumentGenerated sm fileName = true ↔ generatedFile sm = fileName)
    as Hiff by apply String.eqb_eq.
  assert (Extension.destinationPosition sm editor
          = (if decide (generatedFile sm = fileName)
             then originalPositionFor sm activePosition
             else generatedPositionFor sm activePosition)) as Hdest.
  { unfold Extension.destinationPosition. fold fileName activePosition.
    case_decide as Hd.
    - apply Hiff in Hd. by rewrite Hd.
    - destruct (isCurrentDocumentGenerated sm fileName); [|done].
      destruct Hd. by apply Hiff. }
  split; [done|]. split; [done|].
  intros fs store store' Hget. unfold Extension.navigate. rewrite Hget.
  unfold mbind, result_bind; cbn [bind]. rewrite Hdest.
  by destruct (bind _ _).
Qed.

End Items.

Lemma construction_resolves_paths_witness :
  ∃ item,
    @SourceMapItem.new Example.path Example.platform
      Example.rooted "/proj/dist/app.js.map" = Ok item
    ∧ SourceMapItem.sourceFiles item = ["/proj/src/a.ts"]
    ∧ SourceMapItem.generatedFile item = "/proj/dist/app.js.map".
Proof.
  eexists. split; [reflexivity|].
  destruct (construction_resolves_paths
              (path := Example.path) (platform := Example.platform)
              Example.rooted "/proj/dist/app.js.map" _ eq_refl)
    as (_ & _ & Hsources & Hgenerated & _).
  split; [exact Hsources | exact Hgenerated].
Defined.

(** A payload whose [file] is the empty string: the generated file is the
    map file, not the map file's directory. *)
Lemma construction_resolves_paths_counterexample :
  ¬ (∀ (path : PathApi) (platform : Platform) rawSourceMap sourceMapFile item,
       SourceMapItem.new rawSourceMap sourceMapFile = Ok item →
       ∀ file, RawSourceMap.file rawSourceMap = Some file →
               SourceMapItem.generatedFile item
               = resolve [dirname sourceMapFile; file]).
Proof.
  intros H.
  specialize (H Example.path Example.platform (Example.payload [] (Some ""))
                "/proj/dist/app.js.map" _ eq_refl "" eq_refl).
  discriminate H.
Qed.

Lemma originalPositionFor_result_witness :
  ∃ result,
    @SourceMapItem.originalPositionFor Example.path Example.decoding
      (Example.inlined "let a = 1;") (Example.cursor "/proj/dist/app.js") = Ok result
    ∧ FilePosition.file result = "/proj/dist/a.ts"
    ∧ FilePosition.contents result = Some "let a = 1;".
Proof.
  eexists. split; [reflexivity|].
  destruct (originalPositionFor_result (path := Example.path)
              (Example.inlined "let a = 1;") (Example.cursor "/proj/dist/app.js")
              _ eq_refl) as (decoded & Hd & Hfile & Hcontents).
  injection Hd as <-. split; [exact Hfile|].
  apply Hcontents. split; [|done].
  exists [Some "let a = 1;"], 0%nat. repeat split. intros ? ?; lia.
Defined.

Lemma originalPositionFor_result_counterexample :
  ¬ (∀ (path : PathApi) (platform : Platform) (item : SourceMapItem.t)
       position result decoded text,
       SourceMapItem.originalPositionFor item position = Ok result →
       consumer_originalPositionFor (SourceMapItem.sourceMap item)
         (FilePosition.toSmPosition position) = Some decoded →
       Spec.carriesContents (SourceMapItem.rawSourceMap item)
         (SmPosition.source decoded) text →
       FilePosition.contents result = Some text).
Proof.
  intros H.
  specialize (H Example.path Example.decoding (Example.inlined "")
                (Example.cursor "/proj/dist/app.js") _ _ "" eq_refl eq_refl).
  discriminate H. exists [Some ""], 0%nat. repeat split. intros ? ?; lia.
Qed.

Example isCurrentDocumentGenerated_case_sensitive :
  @SourceMapItem.isCurrentDocumentGenerated Example.platform
     Example.app "/proj/dist/app.js" = true
  ∧ @SourceMapItem.isCurrentDocumentGenerated Example.platform
     Example.app "/proj/dist/App.js" = false.
Proof. split; reflexivity. Qed.

(** From the generated file the navigation ends in the original source,
    shown from its embedded text; from the original source it ends in the
    generated file. *)
Lemma direction_selection_witness :
  let store :=
    SourceMapStore.addItem (Example.inlined "let a = 1;") SourceMapStore.new in
  let disk : gmap string string := {[ "/proj/dist/app.js" := "var a = 1;" ]} in
  (@Extension.navigate Example.path Example.decoding disk
     (Example.editorOn "/proj/dist/app.js") store).1
  = Extension.Navigated
      (Extension.ShownUntitled
         {| FilePosition.file := "/proj/dist/a.ts";
            FilePosition.line := 0;
            FilePosition.column := 0;
            FilePosition.contents := Some "let a = 1;" |}
         "let a = 1;")
  ∧ (@Extension.navigate Example.path Example.decoding disk
       (Example.editorOn "/proj/dist/a.ts") store).1
    = Extension.Navigated
        (Extension.ShownFile
           {| FilePosition.file := "/proj/dist/app.js";
              FilePosition.line := 0;
              FilePosition.column := 0;
              FilePosition.contents := None |}).
Proof.
  intros store disk.
  destruct (direction_selection (path := Example.path)
              (Example.inlined "let a = 1;") (Example.editorOn "/proj/dist/app.js"))
    as (_ & _ & Hgenerated).
  destruct (direction_selection (path := Example.path)
              (Example.inlined "let a = 1;") (Example.editorOn "/proj/dist/a.ts"))
    as (_ & _ & Horiginal).
  split.
  - rewrite (Hgenerated disk store store); [reflexivity|].
    apply (lookup_hit (path := Example.path)). reflexivity.
  - rewrite (Horiginal disk store store); [reflexivity|].
    apply (lookup_hit (path := Example.path)). reflexivity.
Defined.

(** ** Lookups in the tables *)

Section Soundness.
Context {path : PathApi} {platform : Platform}.
Import SourceMapStore History.

Implicit Types (store : SourceMapStore.t) (item : SourceMapItem.t).

Lemma reverseSound_addItem item store :
  cache store !! SourceMapItem.generatedFile item = None →
  reverseSound store → reverseSound (addItem item store).
Proof.
  intros Hfresh Hs sourceFile generatedPath. rewrite reverse_addItem.
  case_decide as Hin.
  - intros [= <-]. exists item. by rewrite cache_addItem, decide_True.
  - intros Hrev. destruct (Hs _ _ Hrev) as (it & Hc & Hl). exists it.
    split; [|done]. rewrite cache_addItem, decide_False; [done|].
    intros <-. congruence.
Qed.

Lemma reverseSound_removeItem generatedPath store :
  reverseSound store → reverseSound (removeItem generatedPath store).
Proof.
  intros Hs sourceFile g. rewrite reverse_removeItem.
  destruct (cache store !! generatedPath) as [removed|] eqn:Hp.
  - case_decide as Hin; [done|]. intros Hrev.
    destruct (Hs _ _ Hrev) as (it & Hc & Hl). exists it. split; [|done].
    rewrite cache_removeItem, decide_False; [done|]. intros <-. congruence.
  - intros Hrev. destruct (Hs _ _ Hrev) as (it & Hc & Hl). exists it.
    split; [|done].
    rewrite cache_removeItem, decide_False; [done|]. intros <-. congruence.
Qed.

Lemma reachableFresh_reverseSound store : reachableFresh store → reverseSound store.
Proof.
  induction 1 as [|item store _ IH Hfresh|generatedPath store _ IH].
  - intros s g Hrev. cbn in Hrev. by rewrite lookup_empty in Hrev.
  - by apply reverseSound_addItem.
  - by apply reverseSound_removeItem.
Qed.

(** X7.  Where no item was added under a key the cache already held, a
    lookup that hits, for a file name that is no name of [Object.prototype],
    answers with an item that is cached under its own generated file, and
    the file asked for is that generated file or one of the item's source
    files. *)
Theorem lookup_sound store fileName item :
  reachableFresh store →
  Js.inherited fileName = false →
  lookup fileName store = Some item →
  cache store !! SourceMapItem.generatedFile item = Some item
  ∧ (SourceMapItem.generatedFile item = fileName
     ∨ fileName ∈ SourceMapItem.sourceFiles item).
Proof.
  intros Hf _ Hl.
  pose proof (reachable_coherent _ (reachableFresh_reachable _ Hf)) as Hco.
  unfold lookup in Hl. destruct (cache store !! fileName) as [cached|] eqn:Hc.
  - injection Hl as ->. pose proof (coherent_key _ Hco _ _ Hc) as Hk.
    split; [by rewrite Hk | by left].
  - unfold reverseLookup in Hl.
    destruct (reverseLookupTable store !! fileName) as [g|] eqn:Hrev; [|done].
    destruct (Js.truthy g); [|done].
    destruct (reachableFresh_reverseSound _ Hf _ _ Hrev) as (it & Hg & Hin).
    assert (it = item) as -> by congruence.
    split; [|by right]. by rewrite (coherent_key _ Hco _ _ Hg).
Qed.

Lemma lookup_added_source item store sourceFile :
  sourceFile ∈ SourceMapItem.sourceFiles item →
  SourceMapItem.generatedFile item ≠ "" →
  cache store !! sourceFile = None →
  lookup sourceFile (addItem item store) = Some item.
Proof.
  intros Hin Hne Hc. unfold lookup. rewrite cache_addItem.
  case_decide as Heq; [done|]. rewrite Hc. unfold reverseLookup.
  rewrite reverse_addItem, decide_True by done.
  apply truthy_true in Hne as ->. by rewrite cache_addItem, decide_True.
Qed.

(** X8.  The entry just added is found under its generated file, and under
    each of its source files that is no key of the cache, when the
    generated file is not the empty string; a source file that is a key of
    the cache answers with the item cached under it. *)
Theorem addItem_lookup item store :
  lookup (SourceMapItem.generatedFile item) (addItem item store) = Some item
  ∧ (∀ sourceFile,
       sourceFile ∈ SourceMapItem.sourceFiles item →
       SourceMapItem.generatedFile item ≠ "" →
       cache store !! sourceFile = None →
       lookup sourceFile (addItem item store) = Some item)
  ∧ (∀ sourceFile other,
       SourceMapItem.generatedFile item ≠ sourceFile →
       cache store !! sourceFile = Some other →
       lookup sourceFile (addItem item store) = Some other)
  ∧ (∀ fs document,
       Vscode.TextDocument.fileName document = SourceMapItem.generatedFile item →
       getForCurrentDocument fs document (addItem item store)
       = (Ok item, addItem item store)).
Proof.
  assert (lookup (SourceMapItem.generatedFile item) (addItem item store) = Some item)
    as Hg by (unfold lookup; by rewrite cache_addItem, decide_True).
  split; [done|]. split; [|split].
  - intros sourceFile Hin Hne Hc. by apply lookup_added_source.
  - intros sourceFile other Hne Hc. unfold lookup.
    by rewrite cache_addItem, decide_False, Hc.
  - intros fs document Hname. apply lookup_hit. by rewrite Hname.
Qed.

End Soundness.

Lemma lookup_sound_witness :
  let store := SourceMapStore.addItem Example.app SourceMapStore.new in
  History.reachableFresh store
  ∧ SourceMapStore.lookup "/proj/src/a.ts" store = Some Example.app
  ∧ "/proj/src/a.ts" ∈ SourceMapItem.sourceFiles Example.app.
Proof.
  intros store.
  assert (History.reachableFresh store) as Hf
    by (apply History.fresh_add; [constructor | reflexivity]).
  assert (SourceMapStore.lookup "/proj/src/a.ts" store = Some Example.app) as Hl
    by reflexivity.
  split; [exact Hf|]. split; [exact Hl|].
  destruct (lookup_sound store "/proj/src/a.ts" Example.app Hf eq_refl Hl)
    as [_ [Heq|Hin]].
  - discriminate Heq.
  - exact Hin.
Defined.

(** After the item of [/proj/dist/app.js] was overwritten by one built from
    [b.ts], a lookup for [/proj/src/a.ts] still hits, with an item that
    does not list that file. *)
Example lookup_after_overwrite :
  let store := History.run
    [History.AddItem Example.app; History.AddItem Example.appRebuilt]
    SourceMapStore.new in
  SourceMapStore.lookup "/proj/src/a.ts" store = Some Example.appRebuilt
  ∧ SourceMapItem.sourceFiles Example.appRebuilt = ["/proj/src/b.ts"].
Proof. split; reflexivity. Qed.

(** ** Watcher objects *)

Section Watchers.
Context {path : PathApi} {platform : Platform}.
Import SourceMapStore History.

Implicit Types (store : SourceMapStore.t) (item : SourceMapItem.t).

(** A reference in [watchers] is to an object of the heap. *)
Lemma watchers_in_heap store key watcher :
  coherent store → watchers store !! key = Some watcher →
  (watcher < length (heap store))%nat.
Proof.
  intros Hco Hw.
  destruct (coherent_watcher _ Hco key (mk_is_Some _ _ Hw)) as (i & w & Hi & Hh & _).
  assert (i = watcher) as -> by congruence. by eapply lookup_lt_Some.
Qed.

(** Two keys never share a watcher object. *)
Lemma watchers_injective store key key' watcher :
  coherent store →
  watchers store !! key = Some watcher → watchers store !! key' = Some watcher →
  key = key'.
Proof.
  intros Hco Hw Hw'.
  destruct (coherent_watcher _ Hco key (mk_is_Some _ _ Hw))
    as (i & w & Hi & Hh & _ & Hg & _).
  destruct (coherent_watcher _ Hco key' (mk_is_Some _ _ Hw'))
    as (i' & w' & Hi' & Hh' & _ & Hg' & _).
  assert (i = watcher) as -> by congruence.
  assert (i' = watcher) as -> by congruence.
  assert (w = w') as -> by congruence. congruence.
Qed.

Lemma orphaned_addItem item store watcher :
  orphaned store watcher → orphaned (addItem item store) watcher.
Proof.
  intros [(w & Hh & Hd) Hfree]. split.
  - exists w. split; [by apply heap_addItem_old | done].
  - intros key. rewrite watchers_addItem. case_decide; [|apply Hfree].
    intros [= <-]. apply lookup_lt_Some in Hh. lia.
Qed.

Lemma orphaned_removeItem generatedPath store watcher :
  orphaned store watcher → orphaned (removeItem generatedPath store) watcher.
Proof.
  intros [(w & Hh & Hd) Hfree]. split.
  - exists w. split; [|done]. rewrite heap_removeItem.
    destruct (watchers store !! generatedPath) as [removed|] eqn:Hp; [|done].
    rewrite list_lookup_alter_ne; [done|]. intros ->. by apply (Hfree generatedPath).
  - intros key. rewrite watchers_removeItem. case_decide; [done | apply Hfree].
Qed.

Lemma orphaned_run ops store watcher :
  orphaned store watcher → orphaned (run ops store) watcher.
Proof.
  revert store. induction ops as [|o ops IH]; intros store Ho; [done|].
  apply IH. destruct o; [by apply orphaned_addItem | by apply orphaned_removeItem].
Qed.

Lemma orphaned_removeAll ks store watcher :
  orphaned store watcher → orphaned (removeAll ks store) watcher.
Proof.
  revert store. induction ks as [|k ks IH]; intros store Ho; [done|].
  apply IH. by apply orphaned_removeItem.
Qed.

(** The watcher of a key that [addItem] overwrites is orphaned. *)
Lemma addItem_orphans item store old :
  coherent store →
  watchers store !! SourceMapItem.generatedFile item = Some old →
  orphaned (addItem item store) old.
Proof.
  intros Hco Hw.
  destruct (coherent_watcher _ Hco _ (mk_is_Some _ _ Hw))
    as (i & w & Hi & Hh & Hd & _).
  assert (i = old) as -> by congruence. split.
  - exists w. split; [by apply heap_addItem_old | done].
  - intros key. rewrite watchers_addItem. case_decide as Hk.
    + intros [= <-]. apply lookup_lt_Some in Hh. lia.
    + intros Hw'. apply Hk. by apply (watchers_injective store _ _ old).
Qed.

(** X9.  When [addItem] runs for a generated file the store already has an
    entry for, the watcher of the earlier entry is left live with no key
    referring to it, and it stays so whatever [addItem], [removeItem] and
    [dispose] do afterwards; its events still evict the entry of its
    file. *)
Theorem addItem_overwrite_leaks item store old :
  reachable store →
  watchers store !! SourceMapItem.generatedFile item = Some old →
  (∀ ops, orphaned (run ops (addItem item store)) old)
  ∧ (∀ ops, orphaned (dispose (run ops (addItem item store))) old)
  ∧ fireDidChange old (addItem item store)
    = removeItem (SourceMapItem.generatedFile item) (addItem item store)
  ∧ fireDidDelete old (addItem item store)
    = removeItem (SourceMapItem.generatedFile item) (addItem item store).
Proof.
  intros Hr Hw. pose proof (reachable_coherent _ Hr) as Hco.
  pose proof (addItem_orphans _ _ _ Hco Hw) as Ho.
  split; [intros ops; by apply orphaned_run|].
  split; [intros ops; by apply orphaned_removeAll, orphaned_run|].
  destruct (coherent_watcher _ Hco _ (mk_is_Some _ _ Hw))
    as (i & w & Hi & Hh & Hd & Hg & Hch & Hdel).
  assert (i = old) as -> by congruence.
  unfold fireDidChange, fireDidDelete.
  by rewrite (heap_addItem_old _ _ _ _ Hh), Hd, Hch, Hdel.
Qed.

Lemma listening_addItem item store : listening store → listening (addItem item store).
Proof.
  intros Hl watcher w Hh. unfold addItem in Hh; cbn in Hh.
  apply lookup_app_Some in Hh as [Hold|[_ Hnew]]; [by apply (Hl watcher)|].
  apply list_lookup_singleton_Some in Hnew as [_ <-]. by split.
Qed.

Lemma listening_removeItem generatedPath store :
  listening store → listening (removeItem generatedPath store).
Proof.
  intros Hl watcher w Hh.
  destruct (lookup_lt_is_Some_2 (heap store) watcher) as [w0 Hw0].
  { apply lookup_lt_Some in Hh. rewrite heap_removeItem in Hh.
    destruct (watchers store !! generatedPath); [by rewrite length_alter in Hh | done]. }
  destruct (heap_removeItem_lookup generatedPath _ _ _ Hw0) as (w' & Hw' & Hcase).
  assert (w' = w) as -> by congruence.
  destruct (Hl _ _ Hw0) as [Hc Hd]. by destruct Hcase as [-> | ->].
Qed.

Lemma reachable_listening store : reachable store → listening store.
Proof.
  induction 1 as [|o store _ IH].
  - intros watcher w Hh. cbn in Hh. by rewrite lookup_nil in Hh.
  - destruct o; [by apply listening_addItem | by apply listening_removeItem].
Qed.

(** [removeItem] twice is [removeItem] once. *)
Lemma removeItem_idempotent generatedPath store :
  removeItem generatedPath (removeItem generatedPath store)
  = removeItem generatedPath store.
Proof.
  apply removeItem_absent.
  - by rewrite watchers_removeItem, decide_True.
  - by rewrite cache_removeItem, decide_True.
Qed.

(** X10.  In every reachable state an event of a watcher object, referred
    to or not, leaves the store as it is or removes the entry of the file
    the watcher watches, and nothing else; a watcher that was disposed is
    silent, and an event delivered twice does what it does once. *)
Theorem watcher_event store watcher :
  reachable store →
  fireDidDelete watcher store = fireDidChange watcher store
  ∧ (fireDidChange watcher store = store
     ∨ ∃ w, heap store !! watcher = Some w
            ∧ FileSystemWatcher.disposed w = false
            ∧ fireDidChange watcher store
              = removeItem (FileSystemWatcher.globPattern w) store)
  ∧ (∀ w, heap store !! watcher = Some w →
          FileSystemWatcher.disposed w = true →
          fireDidChange watcher store = store)
  ∧ fireDidChange watcher (fireDidChange watcher store) = fireDidChange watcher store
  ∧ (∀ key item,
       cache (fireDidChange watcher store) !! key = Some item →
       cache store !! key = Some item).
Proof.
  intros Hr. pose proof (reachable_listening _ Hr) as Hl.
  unfold fireDidChange, fireDidDelete.
  destruct (heap store !! watcher) as [w|] eqn:Hh.
  2:{ rewrite Hh. repeat split; try done. by left. }
  destruct (Hl _ _ Hh) as [-> ->].
  destruct (FileSystemWatcher.disposed w) eqn:Hd.
  { rewrite Hh, Hd. repeat split; try done. by left. }
  cbn [foldl runListener].
  split; [done|]. split; [right; by exists w|]. split; [intros ? [= <-] ?; congruence|].
  split.
  - destruct (heap_removeItem_lookup (FileSystemWatcher.globPattern w) _ _ _ Hh)
      as (w' & -> & Hcase).
    assert (FileSystemWatcher.onDidChange w'
            = [FileSystemWatcher.RemoveItem (FileSystemWatcher.globPattern w)]
            ∧ FileSystemWatcher.globPattern w' = FileSystemWatcher.globPattern w)
      as [-> Hg].
    { destruct (Hl _ _ Hh) as [Hc _]. by destruct Hcase as [-> | ->]. }
    destruct (FileSystemWatcher.disposed w'); [done|].
    cbn [foldl runListener]. apply removeItem_idempotent.
  - intros key item. rewrite cache_removeItem. by case_decide.
Qed.

(** X11.  [addItem] followed by [removeItem] of the same generated file:
    the entry of that file is gone, whoever had it before, with the reverse
    entries of the added item's source files, whoever they pointed to; the
    tables are as before when the key and the source files were new to
    them, the heap then holding one more watcher, disposed. *)
Theorem addItem_removeItem item store :
  let generatedFile := SourceMapItem.generatedFile item in
  let store' := removeItem generatedFile (addItem item store) in
  cache store' = delete generatedFile (cache store)
  ∧ watchers store' = delete generatedFile (watchers store)
  ∧ (∀ sourceFile,
       reverseLookupTable store' !! sourceFile
       = if decide (sourceFile ∈ SourceMapItem.sourceFiles item) then None
         else reverseLookupTable store !! sourceFile)
  ∧ (∃ w, heap store' = (heap store ++ [w])%list
          ∧ FileSystemWatcher.disposed w = true
          ∧ FileSystemWatcher.globPattern w = generatedFile)
  ∧ (cache store !! generatedFile = None →
     watchers store !! generatedFile = None →
     (∀ sourceFile, sourceFile ∈ SourceMapItem.sourceFiles item →
                    reverseLookupTable store !! sourceFile = None) →
     cache store' = cache store
     ∧ watchers store' = watchers store
     ∧ reverseLookupTable store' = reverseLookupTable store).
Proof.
  intros generatedFile store'.
  assert (cache store' = delete generatedFile (cache store)) as Hc.
  { apply map_eq. intros key. unfold store'.
    rewrite cache_removeItem, cache_addItem. fold generatedFile.
    case_decide as Hk.
    - subst key. by rewrite lookup_delete_eq.
    - by rewrite lookup_delete_ne. }
  assert (watchers store' = delete generatedFile (watchers store)) as Hw.
  { apply map_eq. intros key. unfold store'.
    rewrite watchers_removeItem, watchers_addItem. fold generatedFile.
    case_decide as Hk.
    - subst key. by rewrite lookup_delete_eq.
    - by rewrite lookup_delete_ne. }
  assert (∀ sourceFile,
            reverseLookupTable store' !! sourceFile
            = if decide (sourceFile ∈ SourceMapItem.sourceFiles item) then None
              else reverseLookupTable store !! sourceFile) as Hrev.
  { intros sourceFile. unfold store'.
    rewrite reverse_removeItem, cache_addItem, decide_True by done.
    case_decide as Hin; [done|]. by rewrite reverse_addItem, decide_False. }
  split; [done|]. split; [done|]. split; [done|]. split.
  - unfold store'. rewrite heap_removeItem, watchers_addItem, decide_True by done.
    eexists. split.
    + unfold addItem; cbn [heap].
      rewrite alter_app_r_alt by done. rewrite Nat.sub_diag. reflexivity.
    + by split.
  - intros Hc0 Hw0 Hs. rewrite Hc, Hw.
    split; [by apply delete_id|]. split; [by apply delete_id|].
    apply map_eq. intros sourceFile. rewrite Hrev. case_decide as Hin; [|done].
    symmetry. by apply Hs.
Qed.

End Watchers.

Lemma addItem_overwrite_leaks_witness :
  let store := SourceMapStore.addItem Example.app SourceMapStore.new in
  History.reachable store
  ∧ SourceMapStore.watchers store !! "/proj/dist/app.js" = Some 0%nat
  ∧ History.orphaned
      (SourceMapStore.dispose (SourceMapStore.addItem Example.appRebuilt store)) 0.
Proof.
  intros store.
  assert (History.reachable store) as Hr
    by (apply (History.reachable_step (History.AddItem Example.app)); constructor).
  assert (SourceMapStore.watchers store
            !! SourceMapItem.generatedFile Example.appRebuilt = Some 0%nat) as Hw
    by reflexivity.
  split; [exact Hr|]. split; [exact Hw|].
  destruct (addItem_overwrite_leaks Example.appRebuilt store 0%nat Hr Hw)
    as (_ & Hd & _).
  exact (Hd []).
Defined.

Lemma watcher_event_witness :
  let store := SourceMapStore.addItem Example.app SourceMapStore.new in
  History.reachable store
  ∧ SourceMapStore.fireDidDelete 0 store = SourceMapStore.fireDidChange 0 store
  ∧ SourceMapStore.cache (SourceMapStore.fireDidChange 0 store) = ∅.
Proof.
  intros store.
  assert (History.reachable store) as Hr
    by (apply (History.reachable_step (History.AddItem Example.app)); constructor).
  split; [exact Hr|]. split; [|reflexivity].
  exact (proj1 (watcher_event store 0%nat Hr)).
Defined.

(** ** Lookups that miss again *)

Section Refetch.
Context {path : PathApi} {platform : Platform}.
Import SourceMapStore History.

Implicit Types (store : SourceMapStore.t) (item : SourceMapItem.t).


Lemma orphaned_iter item n store watcher :
  orphaned store watcher → orphaned (Nat.iter n (addItem item) store) watcher.
Proof. intros Ho. induction n as [|n IH]; [done|]. by apply orphaned_addItem. Qed.






End Refetch.


(** ** The directive of a line *)

Section Directive.
Context {path : PathApi} {platform : Platform}.
Import SourceMapFetcher.

Lemma stripPrefix_append p r : Js.stripPrefix p (p ++ r) = Some r.
Proof.
  induction p as [|a p IH]; [done|]. rewrite append_cons. cbn.
  by rewrite Ascii.eqb_refl.
Qed.

(** What [trimStart] leaves does not start with white space. *)
Lemma trimStart_head s :
  match Js.trimStart s with
  | String c _ => Js.isWhiteSpace c = false
  | EmptyString => True
  end.
Proof.
  induction s as [|a s IH]; cbn; [done|].
  by destruct (Js.isWhiteSpace a) eqn:Ha.
Qed.

Lemma trimEnd_prefix s : ∃ q, s = Js.trimEnd s ++ q.
Proof.
  induction s as [|a s [q IH]]; cbn; [by exists ""|].
  destruct (Js.trimEnd s) as [|b t] eqn:Ht.
  - destruct (Js.isWhiteSpace a).
    + by exists (String a s).
    + exists s. by rewrite append_cons, append_nil.
  - exists q. rewrite append_cons. by rewrite IH at 1.
Qed.

Lemma trimStart_trimEnd s :
  Js.trimStart (Js.trimEnd (Js.trimStart s)) = Js.trimEnd (Js.trimStart s).
Proof.
  pose proof (trimStart_head s) as Hhead.
  destruct (Js.trimStart s) as [|c t]; [done|]. cbn.
  destruct (Js.trimEnd t); rewrite ?Hhead; cbn; by rewrite ?Hhead.
Qed.

Lemma trim_idempotent s : Js.trim (Js.trim s) = Js.trim s.
Proof. unfold Js.trim. by rewrite trimStart_trimEnd, trimEnd_idempotent. Qed.

Lemma forallb_trim f s : Js.forallb f s = true → Js.forallb f (Js.trim s) = true.
Proof.
  intros Hs. unfold Js.trim.
  destruct (trimStart_suffix s) as [p Hp]. rewrite Hp, forallb_append in Hs.
  apply andb_true_iff in Hs as [_ Hs].
  destruct (trimEnd_prefix (Js.trimStart s)) as [q Hq].
  rewrite Hq, forallb_append in Hs. by apply andb_true_iff in Hs as [Hs _].
Qed.

(** A string of the directive's form is matched, with its value as the
    group. *)
Lemma matcher_directive s value :
  Spec.directiveOf s value → SOURCE_MAPPING_MATCHER s = Some [s; value].
Proof.
  intros (mark & space & Hmark & Hspace & -> & Hne & Hline).
  apply truthy_true in Hne. unfold Spec.singleLine in Hline.
  unfold SOURCE_MAPPING_MATCHER. rewrite stripPrefix_append. cbn [mbind option_bind].
  destruct Hmark as [-> | ->], Hspace as [-> | ->];
    rewrite ?append_cons, ?append_nil; cbn -[Js.truthy Js.forallb];
    by rewrite Hne, Hline.
Qed.

(** A match is of a string of the directive's form. *)
Lemma matcher_shape s m :
  SOURCE_MAPPING_MATCHER s = Some m →
  ∃ value, m = [s; value] ∧ Spec.directiveOf s value.
Proof.
  unfold SOURCE_MAPPING_MATCHER.
  destruct (Js.stripPrefix "//" s) as [afterSlashes|] eqn:H1; [|done].
  apply stripPrefix_Some in H1. cbn [mbind option_bind].
  destruct afterSlashes as [|c afterMark]; [done|].
  destruct (Ascii.eqb c "#" || Ascii.eqb c "@") eqn:Hc; [|done].
  assert (String c "" = "#" ∨ String c "" = "@") as Hmark.
  { apply orb_true_iff in Hc as [Hc|Hc]; apply Ascii.eqb_eq in Hc; subst c; auto. }
  set (afterSpace := match afterMark with String " " rest => rest | _ => afterMark end).
  assert (∃ space, (space = "" ∨ space = " ") ∧ afterMark = space ++ afterSpace)
    as (space & Hsp & Hspace).
  { unfold afterSpace. destruct afterMark as [|d rest]; [exists ""; auto|].
    destruct (Ascii.eqb_spec d " ") as [->|Hd].
    - exists " ". auto.
    - exists "". split; [auto|]. by destruct d as [[] [] [] [] [] [] [] []]. }
  destruct (Js.stripPrefix "sourceMappingURL=" afterSpace) as [value|] eqn:H2; [|done].
  apply stripPrefix_Some in H2. cbn [mbind option_bind].
  destruct (Js.truthy value) eqn:Hv; [|done].
  destruct (Js.forallb _ value) eqn:Hl; [|done]. cbn. intros [= <-].
  exists value. split; [done|].
  exists (String c ""), space. split; [done|]. split; [done|].
  split; [|split; [by apply truthy_true | done]].
  by rewrite H1, Hspace, H2, (append_cons c), append_nil.
Qed.

(** The answer of [tryExtractUrl] is trimmed and holds no line
    terminator. *)
Lemma tryExtractUrl_trimmed line :
  Js.trim (tryExtractUrl line) = tryExtractUrl line
  ∧ Spec.singleLine (tryExtractUrl line) = true.
Proof.
  destruct (SOURCE_MAPPING_MATCHER (Js.trim line)) as [m|] eqn:Hm.
  - destruct (matcher_shape _ _ Hm) as (value & -> & Hd).
    destruct (tryExtractUrl_Some _ _ Hm) as (group & [= <-] & -> & _).
    split; [apply trim_idempotent|].
    destruct Hd as (? & ? & _ & _ & _ & _ & Hl). by apply forallb_trim.
  - by rewrite (tryExtractUrl_None _ Hm).
Qed.

(** X13.  [tryExtractUrl] answers with the trimmed value of a line that,
    trimmed, is a directive, and with the empty string for every other
    line; the answer for a directive is never empty, it carries no white
    space at its ends and no line terminator, and white space around the
    line does not count. *)
Theorem tryExtractUrl_directive line :
  (∀ value, Spec.directiveOf (Js.trim line) value →
            tryExtractUrl line = Js.trim value ∧ Js.trim value ≠ "")
  ∧ (tryExtractUrl line ≠ "" ↔ ∃ value, Spec.directiveOf (Js.trim line) value)
  ∧ Js.trim (tryExtractUrl line) = tryExtractUrl line
  ∧ Spec.singleLine (tryExtractUrl line) = true
  ∧ tryExtractUrl (Js.trim line) = tryExtractUrl line.
Proof.
  assert (∀ value, Spec.directiveOf (Js.trim line) value →
                   tryExtractUrl line = Js.trim value ∧ Js.trim value ≠ "") as Hdir.
  { intros value Hd. pose proof (matcher_directive _ _ Hd) as Hm.
    destruct (tryExtractUrl_Some _ _ Hm) as (group & [= <-] & Hurl & Hne). done. }
  split; [done|]. split; [split|].
  - intros Hne. destruct (SOURCE_MAPPING_MATCHER (Js.trim line)) as [m|] eqn:Hm.
    + destruct (matcher_shape _ _ Hm) as (value & _ & Hd). by exists value.
    + by rewrite tryExtractUrl_None in Hne.
  - intros [value Hd]. destruct (Hdir _ Hd) as [-> Hne]. done.
  - destruct (tryExtractUrl_trimmed line) as [Htrim Hsingle].
    split; [done|]. split; [done|].
    unfold tryExtractUrl. by rewrite trim_idempotent.
Qed.

End Directive.

Example tryExtractUrl_examples :
  let tryExtractUrl := @SourceMapFetcher.tryExtractUrl in
  tryExtractUrl "  //# sourceMappingURL=  app.js.map  " = "app.js.map"
  ∧ tryExtractUrl "//@ sourceMappingURL=app.js.map" = "app.js.map"
  ∧ tryExtractUrl "//#  sourceMappingURL=app.js.map" = ""
  ∧ tryExtractUrl "// # sourceMappingURL=app.js.map" = ""
  ∧ tryExtractUrl "//# sourceMappingURL=" = ""
  ∧ tryExtractUrl "var x; //# sourceMappingURL=app.js.map" = ""
  ∧ tryExtractUrl "/*# sourceMappingURL=app.js.map */" = "".
Proof. repeat split; reflexivity. Qed.

(** ** Reading the map *)

Section Reading.
Context {path : PathApi} {platform : Platform}.
Import SourceMapItem.

Implicit Types (item : SourceMapItem.t).

Lemma append_empty (s : string) : s ++ "" = s.
Proof. induction s as [|c s IH]; [done|]. by rewrite append_cons, IH. Qed.

(** A text without line terminators is left as it is. *)
Lemma removeNewlines_singleLine s : Spec.singleLine s = true → removeNewlines s = s.
Proof.
  unfold Spec.singleLine. induction s as [|c s IH]; [done|]. cbn [Js.forallb].
  intros [Hc Hs]%andb_true_iff. cbn [removeNewlines].
  destruct (Ascii.eqb_spec c "010") as [->|_]; [done|].
  destruct (Ascii.eqb_spec c "013") as [->|_]; [done|].
  by rewrite (IH Hs).
Qed.

(** Line ends are removed piece by piece, where the first piece holds no
    carriage return. *)
Lemma removeNewlines_append a b :
  Js.forallb (fun c => negb (Ascii.eqb c "013")) a = true →
  removeNewlines (a ++ b) = removeNewlines a ++ removeNewlines b.
Proof.
  induction a as [|c a IH]; [done|]. cbn [Js.forallb].
  intros [Hc Ha]%andb_true_iff. apply negb_true_iff in Hc.
  rewrite append_cons. cbn [removeNewlines]. rewrite Hc.
  destruct (Ascii.eqb c "010"); [by apply IH|].
  by rewrite append_cons, (IH Ha).
Qed.

Lemma new_fields rawSourceMap sourceMapFile item :
  new rawSourceMap sourceMapFile = Ok item →
  SourceMapItem.rawSourceMap item = rawSourceMap
  ∧ SourceMapItem.sourceMapFile item = sourceMapFile.
Proof.
  unfold new. destruct (SourceMapConsumer_new rawSourceMap); [|done].
  by intros [= <-].
Qed.

(** An item read from a text is built from what [JSON.parse] makes of the
    text. *)
Lemma fromString_Ok data mapFile item :
  fromString data mapFile = Ok item →
  JSON_parse data = Ok (rawSourceMap item)
  ∧ new (rawSourceMap item) (sourceMapFile item) = Ok item
  ∧ sourceMapFile item = mapFile.
Proof.
  unfold fromString. destruct (JSON_parse data) as [raw|] eqn:Hp; [|done].
  cbn. destruct (new raw mapFile) as [built|] eqn:Hn; [|done].
  intros [= ->]. destruct (new_fields _ _ _ Hn) as [Hr Hf].
  by rewrite Hr, Hf.
Qed.

Lemma rethrow_Err {A : Type} message (body : result A) other :
  rethrow message body = Err other → other = message.
Proof. destruct body; [done | by intros [= <-]]. Qed.

(** X14.  [fromDataUrl] reads what stands between the first and the second
    comma of the URL, whatever stands before and after: the scheme, the
    media type and the base64 mark are never looked at.  Line ends in the
    URL do not count, a URL without a comma is refused, and every failure
    is reported by the same message. *)
Theorem fromDataUrl_payload sourceMapFile :
  let noComma := Js.forallb (fun c => negb (Ascii.eqb c ",")) in
  let failure := "Can't read source map from data URI" in
  (∀ sourceMapUrl header data rest,
     removeNewlines sourceMapUrl = header ++ "," ++ data ++ rest →
     noComma header = true → noComma data = true →
     (rest = "" ∨ ∃ more, rest = "," ++ more) →
     fromDataUrl sourceMapUrl sourceMapFile
     = rethrow failure (fromString (base64_utf8 data) sourceMapFile))
  ∧ (∀ sourceMapUrl,
       noComma (removeNewlines sourceMapUrl) = true →
       fromDataUrl sourceMapUrl sourceMapFile = Err failure)
  ∧ (∀ sourceMapUrl message,
       fromDataUrl sourceMapUrl sourceMapFile = Err message → message = failure)
  ∧ (∀ a b,
       Js.forallb (fun c => negb (Ascii.eqb c "013")) a = true →
       fromDataUrl (a ++ Vscode.LF ++ b) sourceMapFile
       = fromDataUrl (a ++ b) sourceMapFile
       ∧ fromDataUrl (a ++ Vscode.CRLF ++ b) sourceMapFile
         = fromDataUrl (a ++ b) sourceMapFile)
  ∧ (∀ sourceMapUrl item,
       fromDataUrl sourceMapUrl sourceMapFile = Ok item →
       SourceMapItem.sourceMapFile item = sourceMapFile).
Proof.
  intros noComma failure. split; [|split; [|split; [|split]]].
  - intros url header data rest Hurl Hh Hd Hrest. unfold fromDataUrl.
    assert (Js.split "," (removeNewlines url) !! 1%nat = Some data) as ->; [|done].
    rewrite Hurl. change ("," ++ data ++ rest) with (String "," (data ++ rest)).
    rewrite split_append_sep by done. cbn [lookup list_lookup].
    destruct Hrest as [-> | [more ->]].
    + by rewrite append_empty, split_without_sep.
    + change ("," ++ more) with (String "," more). by rewrite split_append_sep.
  - intros url Hurl. unfold fromDataUrl. by rewrite split_without_sep.
  - intros url message. apply rethrow_Err.
  - intros a b Ha. unfold fromDataUrl.
    by rewrite !(removeNewlines_append a) by done.
  - intros url item. unfold fromDataUrl.
    destruct (Js.split "," (removeNewlines url) !! 1%nat) as [data|]; [|done].
    cbn. destruct (fromString (base64_utf8 data) sourceMapFile) as [built|] eqn:Hf;
      [|done].
    intros [= ->]. by destruct (fromString_Ok _ _ _ Hf) as (_ & _ & ?).
Qed.

End Reading.

(** An inline map without [file], read for [/proj/dist/app.js]: the header
    of the URL does not count, and what follows a second comma is dropped. *)
Example fromDataUrl_examples :
  let platform :=
    testPlatform (fun _ => None) (fun _ => None)
      [("eyJ2ZXJzaW9uIjozfQ==", Example.payload ["a.ts"] None)] in
  let fromDataUrl := @SourceMapItem.fromDataUrl Example.path platform in
  ∃ item,
    fromDataUrl "data:application/json;base64,eyJ2ZXJzaW9uIjozfQ==" "/proj/dist/app.js"
    = Ok item
    ∧ SourceMapItem.generatedFile item = "/proj/dist/app.js"
    ∧ SourceMapItem.sourceFiles item = ["/proj/dist/a.ts"]
    ∧ fromDataUrl "text/plain,eyJ2ZXJzaW9uIjozfQ==,dropped" "/proj/dist/app.js" = Ok item
    ∧ fromDataUrl "data:application/json;base64" "/proj/dist/app.js"
      = Err "Can't read source map from data URI".
Proof. eexists. repeat split; reflexivity. Qed.

(** ** From the directive to the item *)

Section Origin.
Context {path : PathApi} {platform : Platform}.
Import Vscode SourceMapItem.

Implicit Types (document : TextDocument.t) (item : SourceMapItem.t).

(** The fold of [fetch] answers with what one of the lines gives, or with
    the empty string. *)
Lemma scan_pick (ls : list string) :
  Spec.scan ls = ""
  ∨ ∃ line, line ∈ ls ∧ Spec.scan ls = SourceMapFetcher.tryExtractUrl line.
Proof.
  induction ls as [|l ls IH]; [by left|]. rewrite scan_cons.
  destruct IH as [-> | (line & Hin & ->)].
  - right. exists l. split; [by left | done].
  - unfold Js.or. destruct (Js.truthy (SourceMapFetcher.tryExtractUrl line)).
    + right. exists line. split; [by right | done].
    + right. exists l. split; [by left | done].
Qed.

(** X15.  Whatever the document, a [fetch] that succeeds was given at least
    ten lines, names the document's own path as [fileUrl], and found a
    value that is not empty, carries no white space at its ends and no line
    terminator; [mapUrl] is that value when it is a data URI and the value
    resolved against the document's directory otherwise. *)
Theorem fetch_answer document fetched :
  SourceMapFetcher.fetch document = Ok fetched →
  10 <= TextDocument.lineCount document
  ∧ SourceMapFetchResult.fileUrl fetched = TextDocument.fileName document
  ∧ ∃ url,
      url ≠ "" ∧ Js.trim url = url ∧ Spec.singleLine url = true
      ∧ SourceMapFetchResult.mapUrl fetched
        = (if isDataUri url then url
           else resolve [dirname (TextDocument.fileName document); url])
      ∧ (isDataUri url = true →
         removeNewlines (SourceMapFetchResult.mapUrl fetched)
         = SourceMapFetchResult.mapUrl fetched).
Proof.
  unfold SourceMapFetcher.fetch.
  destruct (Z.lt_ge_cases (TextDocument.lineCount document) 10) as [Hn|Hn];
    [by rewrite (range_short _ Hn)|].
  rewrite (range_lastTen _ Hn). cbn [mbind result_bind bind].
  set (lines := Js.split "010" _).
  destruct (scan_pick lines) as [Hnone|(line & _ & Hline)]; unfold Spec.scan in *.
  - by rewrite Hnone.
  - rewrite Hline.
    destruct (Js.truthy (SourceMapFetcher.tryExtractUrl line)) eqn:Ht; [|done].
    cbn [negb]. intros [= <-]. split; [done|]. split; [done|].
    exists (SourceMapFetcher.tryExtractUrl line).
    destruct (tryExtractUrl_trimmed line) as [Htrim Hsingle].
    split; [by apply truthy_true|]. split; [done|]. split; [done|].
    split; [done|]. cbn [SourceMapFetchResult.mapUrl]. intros ->.
    by apply removeNewlines_singleLine.
Qed.

Lemma fetch_fileUrl document fetched :
  SourceMapFetcher.fetch document = Ok fetched →
  SourceMapFetchResult.fileUrl fetched = TextDocument.fileName document.
Proof.
  unfold SourceMapFetcher.fetch.
  destruct (Range.new _ _ _ _); [|done]. cbn [mbind result_bind bind].
  destruct (negb _); [done|]. by intros [= <-].
Qed.

(** Without a declared [file] the generated file is the map file. *)
Lemma new_without_file item :
  new (rawSourceMap item) (sourceMapFile item) = Ok item →
  default "" (RawSourceMap.file (rawSourceMap item)) = "" →
  generatedFile item = sourceMapFile item.
Proof.
  intros Hnew Hnone. unfold new in Hnew.
  destruct (SourceMapConsumer_new (rawSourceMap item)); [|done].
  injection Hnew as Hnew. rewrite <- Hnew at 1. cbn.
  by destruct (RawSourceMap.file (rawSourceMap item)) as [[|c f]|].
Qed.

(** The map file of a fetched item: the document for a data URI, [mapUrl]
    otherwise. *)
Lemma fetch_built fs document item :
  SourceMapStore.fetch fs document = Ok item →
  ∃ fetched,
    SourceMapFetcher.fetch document = Ok fetched
    ∧ new (rawSourceMap item) (sourceMapFile item) = Ok item
    ∧ sourceMapFile item
      = if isDataUri (SourceMapFetchResult.mapUrl fetched)
        then TextDocument.fileName document
        else SourceMapFetchResult.mapUrl fetched.
Proof.
  unfold SourceMapStore.fetch.
  destruct (SourceMapFetcher.fetch document) as [fetched|] eqn:Hfetch; [|done].
  cbn [mbind result_bind bind]. intros Hitem. exists fetched. split; [done|].
  pose proof (fetch_fileUrl _ _ Hfetch) as Hfile.
  destruct (isDataUri (SourceMapFetchResult.mapUrl fetched)).
  - unfold fromDataUrl in Hitem.
    destruct (Js.split "," _ !! 1%nat) as [payload|]; [|done].
    cbn [required mbind result_bind bind] in Hitem.
    destruct (fromString _ _) as [built|] eqn:Hbuilt; [|done].
    injection Hitem as ->. destruct (fromString_Ok _ _ _ Hbuilt) as (_ & Hnew & Hmf).
    split; [done | congruence].
  - unfold fromFile, readFile in Hitem.
    destruct (fs !! _) as [data|]; [|done].
    cbn [mbind result_bind bind] in Hitem.
    destruct (fromString _ _) as [built|] eqn:Hbuilt; [|done].
    injection Hitem as ->. by destruct (fromString_Ok _ _ _ Hbuilt) as (_ & Hnew & Hmf).
Qed.

(** X16.  An item that the store's [fetch] answers with was built by the
    constructor from what [JSON.parse] made of a text: for a data URI the
    text is the decoded payload after the first comma and the item's map
    file is the document itself; otherwise the text is what the disk holds
    at [mapUrl], which is the item's map file.  A map that declares no
    [file], or an empty one, so has the document as its generated file when
    it is inline, and the map file when it is read from the disk. *)
Theorem fetch_item_origin fs document item :
  SourceMapStore.fetch fs document = Ok item →
  ∃ fetched data,
    SourceMapFetcher.fetch document = Ok fetched
    ∧ JSON_parse data = Ok (rawSourceMap item)
    ∧ new (rawSourceMap item) (sourceMapFile item) = Ok item
    ∧ (if isDataUri (SourceMapFetchResult.mapUrl fetched)
       then sourceMapFile item = TextDocument.fileName document
            ∧ ∃ payload,
                Js.split "," (removeNewlines (SourceMapFetchResult.mapUrl fetched))
                  !! 1%nat
                = Some payload
                ∧ data = base64_utf8 payload
       else sourceMapFile item = SourceMapFetchResult.mapUrl fetched
            ∧ fs !! SourceMapFetchResult.mapUrl fetched = Some data)
    ∧ (default "" (RawSourceMap.file (rawSourceMap item)) = "" →
       generatedFile item = sourceMapFile item).
Proof.
  unfold SourceMapStore.fetch.
  destruct (SourceMapFetcher.fetch document) as [fetched|] eqn:Hfetch; [|done].
  cbn [mbind result_bind bind]. intros Hitem.
  pose proof (fetch_fileUrl _ _ Hfetch) as Hfile.
  destruct (isDataUri (SourceMapFetchResult.mapUrl fetched)) eqn:Hdata.
  - unfold fromDataUrl in Hitem.
    destruct (Js.split "," (removeNewlines (SourceMapFetchResult.mapUrl fetched))
                !! 1%nat) as [payload|] eqn:Hp; [|done].
    cbn [required mbind result_bind bind] in Hitem.
    destruct (fromString (base64_utf8 payload) (SourceMapFetchResult.fileUrl fetched))
      as [built|] eqn:Hbuilt; [|done].
    injection Hitem as ->.
    destruct (fromString_Ok _ _ _ Hbuilt) as (Hparse & Hnew & Hmf).
    exists fetched, (base64_utf8 payload). rewrite Hdata.
    split; [done|]. split; [done|]. split; [done|].
    split; [|by apply new_without_file]. split; [by rewrite Hmf | by exists payload].
  - unfold fromFile, readFile in Hitem.
    destruct (fs !! SourceMapFetchResult.mapUrl fetched) as [data|] eqn:Hdisk; [|done].
    cbn [mbind result_bind bind] in Hitem.
    destruct (fromString data (SourceMapFetchResult.mapUrl fetched))
      as [built|] eqn:Hbuilt; [|done].
    injection Hitem as ->.
    destruct (fromString_Ok _ _ _ Hbuilt) as (Hparse & Hnew & Hmf).
    exists fetched, data. rewrite Hdata.
    split; [done|]. split; [done|]. split; [done|]. split; [done | by apply new_without_file].
Qed.

(** X17.  Whatever goes wrong between the directive and the item (no
    directive, a short document, a data URI without a comma, a map file
    that cannot be read, a text that is no JSON, a payload the decoder
    refuses) the store's [fetch] fails with one and the same message;
    [getForCurrentDocument] passes it on and leaves the store as it was,
    and [navigate] shows it in its warning. *)
Theorem fetch_failure_reported fs (editor : TextEditor.t) store :
  let document := TextEditor.document editor in
  let failure := "Can't retrieve source maps for current document" in
  (∀ message, SourceMapStore.fetch fs document = Err message → message = failure)
  ∧ (∀ message, SourceMapFetcher.fetch document = Err message →
       SourceMapStore.fetch fs document = Err failure)
  ∧ (∀ fetched,
       SourceMapFetcher.fetch document = Ok fetched →
       let mapUrl := SourceMapFetchResult.mapUrl fetched in
       (if isDataUri mapUrl then Js.split "," (removeNewlines mapUrl) !! 1%nat = None
        else fs !! mapUrl = None
             ∨ ∃ data, fs !! mapUrl = Some data
                       ∧ (∀ rawSourceMap, JSON_parse data = Ok rawSourceMap →
                            ∃ refusal, SourceMapConsumer_new rawSourceMap = Err refusal)) →
       SourceMapStore.fetch fs document = Err failure)
  ∧ (SourceMapStore.lookup (TextDocument.fileName document) store = None →
     SourceMapStore.fetch fs document = Err failure →
     SourceMapStore.getForCurrentDocument fs document store = (Err failure, store)
     ∧ Extension.navigate fs editor store
       = (Extension.Warning
            ("Can't get source map for current document: " ++ failure),
          store)).
Proof.
  intros document failure. split; [|split; [|split]].
  - intros message. apply rethrow_Err.
  - intros message Hf. unfold SourceMapStore.fetch. by rewrite Hf.
  - intros fetched Hf mapUrl Hcause. unfold SourceMapStore.fetch. rewrite Hf.
    cbn [mbind result_bind bind]. fold mapUrl.
    destruct (isDataUri mapUrl).
    + unfold fromDataUrl. by rewrite Hcause.
    + unfold fromFile, readFile.
      destruct Hcause as [-> | (data & -> & Hrefused)]; [done|].
      cbn [mbind result_bind bind]. unfold fromString.
      destruct (JSON_parse data) as [raw|]; [|done].
      destruct (Hrefused raw eq_refl) as [refusal Hr].
      cbn [mbind result_bind bind]. unfold new. by rewrite Hr.
  - intros Hmiss Hfail.
    assert (SourceMapStore.getForCurrentDocument fs document store
            = (Err failure, store)) as Hget.
    { unfold SourceMapStore.getForCurrentDocument. by rewrite Hmiss, Hfail. }
    split; [done|]. unfold Extension.navigate. fold document. by rewrite Hget.
Qed.

End Origin.

Lemma fetch_answer_witness :
  let fetched :=
    {| SourceMapFetchResult.mapUrl := "/proj/dist/app.min.js.map";
       SourceMapFetchResult.fileUrl := "/proj/dist/app.min.js" |} in
  @SourceMapFetcher.fetch Example.path Example.platform Example.renamed = Ok fetched
  ∧ 10 <= Vscode.TextDocument.lineCount Example.renamed
  ∧ SourceMapFetchResult.fileUrl fetched
    = Vscode.TextDocument.fileName Example.renamed.
Proof.
  intros fetched.
  assert (@SourceMapFetcher.fetch Example.path Example.platform Example.renamed
          = Ok fetched) as Hfetch by reflexivity.
  split; [exact Hfetch|].
  destruct (fetch_answer Example.renamed fetched Hfetch) as (Hn & Hfile & _).
  split; [exact Hn | exact Hfile].
Defined.

Lemma fetch_item_origin_witness :
  @SourceMapStore.fetch Example.path Example.platform
    (Example.disk Example.firstBuild) Example.renamed = Ok Example.firstRead
  ∧ ∃ fetched data,
      @SourceMapFetcher.fetch Example.path Example.platform Example.renamed = Ok fetched
      ∧ @JSON_parse Example.platform data
        = Ok (SourceMapItem.rawSourceMap Example.firstRead).
Proof.
  assert (@SourceMapStore.fetch Example.path Example.platform
            (Example.disk Example.firstBuild) Example.renamed = Ok Example.firstRead)
    as Hfetch by reflexivity.
  split; [exact Hfetch|].
  destruct (fetch_item_origin _ _ _ Hfetch) as (fetched & data & Hf & Hp & _).
  exists fetched, data. split; [exact Hf | exact Hp].
Defined.

(** ** POSIX paths *)

Section Paths.

Implicit Types (s p : string) (l : list string).

Lemma split_nonempty sep s : Js.split sep s ≠ [].
Proof.
  destruct s as [|c s]; cbn; [done|].
  destruct (Ascii.eqb c sep); [done|]. by destruct (Js.split sep s).
Qed.

(** Splitting at a separator splits the two sides. *)
Lemma split_app_sep sep a b :
  Js.split sep (a ++ String sep b) = (Js.split sep a ++ Js.split sep b)%list.
Proof.
  induction a as [|c a IH]; rewrite ?append_nil, ?append_cons; cbn.
  - by rewrite Ascii.eqb_refl.
  - rewrite IH. destruct (Ascii.eqb c sep); [done|].
    pose proof (split_nonempty sep a) as Hne.
    by destruct (Js.split sep a).
Qed.

(** No piece holds the separator. *)
Lemma split_pieces sep s :
  Forall (fun piece => Js.forallb (fun c => negb (Ascii.eqb c sep)) piece = true)
         (Js.split sep s).
Proof.
  induction s as [|c s IH]; cbn; [by repeat constructor|].
  destruct (Ascii.eqb c sep) eqn:Hc; [by constructor|].
  destruct (Js.split sep s) as [|piece pieces].
  - repeat constructor. cbn. by rewrite Hc.
  - apply Forall_cons in IH as [Hp Hps]. constructor; [|done]. cbn. by rewrite Hc, Hp.
Qed.

Lemma join_cons_char sep c piece pieces :
  Js.join sep (String c piece :: pieces) = String c (Js.join sep (piece :: pieces)).
Proof. destruct pieces; [done|]. by rewrite !join_cons, append_cons. Qed.

(** The pieces joined by the separator are the string. *)
Lemma join_split sep s : Js.join (String sep "") (Js.split sep s) = s.
Proof.
  induction s as [|c s IH]; cbn; [done|].
  pose proof (split_nonempty sep s) as Hne.
  destruct (Ascii.eqb_spec c sep) as [->|_].
  - destruct (Js.split sep s) as [|piece pieces]; [done|].
    by rewrite join_cons, IH.
  - destruct (Js.split sep s) as [|piece pieces]; [done|].
    by rewrite join_cons_char, IH.
Qed.

(** Pieces without the separator, joined by it, are what [split] gives
    back. *)
Lemma split_join sep l :
  l ≠ [] →
  Forall (fun piece => Js.forallb (fun c => negb (Ascii.eqb c sep)) piece = true) l →
  Js.split sep (Js.join (String sep "") l) = l.
Proof.
  induction l as [|piece l IH]; [done|]. intros _ Hall.
  apply Forall_cons in Hall as [Hp Hl].
  destruct l as [|piece' l].
  - cbn. by apply split_without_sep.
  - rewrite join_cons, append_cons, append_nil.
    rewrite split_append_sep by done. f_equal. by apply IH.
Qed.

Lemma normalizeStep_kept allowAboveRoot stack seg :
  Posix.plainSegment seg = true →
  Posix.normalizeStep allowAboveRoot stack seg = seg :: stack.
Proof.
  unfold Posix.plainSegment, Posix.normalizeStep.
  intros [[Ht Hdot]%andb_true_iff Hdots]%andb_true_iff.
  apply negb_true_iff in Hdot, Hdots. rewrite Hdot, Hdots.
  destruct seg; [done|]. reflexivity.
Qed.

Lemma normalize_kept allowAboveRoot l stack :
  Forall Posix.kept l →
  fold_left (Posix.normalizeStep allowAboveRoot) l stack = (rev l ++ stack)%list.
Proof.
  revert stack. induction l as [|seg l IH]; intros stack Hall; [done|].
  apply Forall_cons in Hall as [[Hseg _] Hl]. cbn [fold_left].
  rewrite normalizeStep_kept by done. rewrite IH by done.
  cbn [rev]. by rewrite <- app_assoc.
Qed.

(** Below the root the stack holds Posix.kept segments only. *)
Lemma normalize_stack l stack :
  Forall (fun seg => Js.forallb (fun c => negb (Ascii.eqb c Posix.slash)) seg = true) l →
  Forall Posix.kept stack →
  Forall Posix.kept (fold_left (Posix.normalizeStep false) l stack).
Proof.
  revert stack. induction l as [|seg l IH]; intros stack Hl Hs; [done|].
  apply Forall_cons in Hl as [Hseg Hl]. cbn [fold_left]. apply IH; [done|].
  unfold Posix.normalizeStep.
  destruct (String.eqb seg "" || String.eqb seg ".") eqn:Hskip; [done|].
  apply orb_false_iff in Hskip as [He Hd].
  destruct (String.eqb seg "..") eqn:Hdd.
  - destruct stack as [|top below]; [done|].
    destruct (String.eqb top ".."); [done|]. by apply Forall_cons in Hs as [_ Hb].
  - constructor; [|done]. split; [|done]. unfold Posix.plainSegment.
    rewrite Hd, Hdd. destruct seg; [done|]. reflexivity.
Qed.

Lemma normalize_skip_empty allowAboveRoot stack :
  fold_left (Posix.normalizeStep allowAboveRoot) [""] stack = stack.
Proof. reflexivity. Qed.

(** What [resolveLoop] has read is put before what it was given. *)
Lemma resolveLoop_acc l acc :
  Posix.resolveLoop l acc
  = ((Posix.resolveLoop l "").1 ++ acc, (Posix.resolveLoop l "").2).
Proof.
  revert acc. induction l as [|p l IH]; intros acc; [done|]. cbn [Posix.resolveLoop].
  destruct (String.eqb p ""); [apply IH|].
  destruct (Posix.isAbsolute p).
  - cbn [fst snd]. by rewrite !append_assoc.
  - rewrite IH. rewrite (IH (p ++ "/" ++ "")). cbn [fst snd].
    by rewrite !append_assoc.
Qed.

Lemma resolveLoop_relative p before acc :
  p ≠ "" → Posix.isAbsolute p = false →
  Posix.resolveLoop (p :: before) acc = Posix.resolveLoop before (p ++ "/" ++ acc).
Proof.
  intros Hne Hrel. cbn [Posix.resolveLoop].
  apply String.eqb_neq in Hne. by rewrite Hne, Hrel.
Qed.

(** What it has read is empty or ends with a slash. *)
Lemma resolveLoop_slash l :
  (Posix.resolveLoop l "").1 = ""
  ∨ ∃ before, (Posix.resolveLoop l "").1 = before ++ "/".
Proof.
  induction l as [|p l IH]; [by left|]. cbn [Posix.resolveLoop].
  destruct (String.eqb p ""); [done|].
  destruct (Posix.isAbsolute p).
  - right. exists p. cbn [fst]. by rewrite append_empty.
  - right. rewrite resolveLoop_acc. cbn [fst].
    exists ((Posix.resolveLoop l "").1 ++ p).
    by rewrite append_empty, append_assoc.
Qed.

(** Once an absolute path is among the arguments, the result is
    absolute. *)
Lemma resolveLoop_absolute l p :
  p ∈ l → Posix.isAbsolute p = true → (Posix.resolveLoop l "").2 = true.
Proof.
  induction l as [|q l IH]; [by intros ?%elem_of_nil|].
  intros Hin Hp. cbn [Posix.resolveLoop].
  destruct (String.eqb_spec q "") as [->|Hq].
  - apply IH; [|done]. apply elem_of_cons in Hin as [->|Hin]; [done | done].
  - destruct (Posix.isAbsolute q) eqn:Hqa; [done|].
    rewrite resolveLoop_acc. cbn [snd].
    apply IH; [|done]. apply elem_of_cons in Hin as [->|Hin]; [congruence | done].
Qed.

(** The segments of a text that follows what was read are pushed on the
    stack of what was read. *)
Lemma normalize_after read rest allowAboveRoot :
  (read = "" ∨ ∃ before, read = before ++ "/") →
  fold_left (Posix.normalizeStep allowAboveRoot) (Js.split Posix.slash (read ++ rest)) []
  = fold_left (Posix.normalizeStep allowAboveRoot) (Js.split Posix.slash rest)
      (fold_left (Posix.normalizeStep allowAboveRoot) (Js.split Posix.slash read) []).
Proof.
  intros [-> | [before ->]]; [done|].
  rewrite append_assoc.
  change ("/" ++ rest) with (String Posix.slash rest).
  change (before ++ "/") with (before ++ String Posix.slash "").
  by rewrite !split_app_sep, !fold_left_app.
Qed.

Lemma plain_kept s : Posix.plain s = true → Forall Posix.kept (Js.split Posix.slash s).
Proof.
  unfold Posix.plain. intros Hp. rewrite forallb_forall in Hp.
  pose proof (split_pieces Posix.slash s) as Hfree.
  rewrite Forall_forall in Hfree. apply Forall_forall. intros seg Hin.
  split; [|by apply Hfree]. by apply Hp, list_elem_of_In.
Qed.

Lemma plain_relative s :
  Posix.plain s = true → s ≠ "" ∧ Posix.isAbsolute s = false.
Proof.
  intros Hp. destruct s as [|c s]; [done|]. split; [done|].
  unfold Posix.plain in Hp. cbn in Hp |- *.
  destruct (Ascii.eqb c Posix.slash); [done | done].
Qed.

Lemma kept_truthy seg : Posix.kept seg → Js.truthy seg = true.
Proof. intros [[[Ht _]%andb_true_iff _]%andb_true_iff _]. done. Qed.

(** The root followed by Posix.kept segments is a path that [resolve] leaves as
    it is, and whose segments are those. *)
Lemma resolve_normal cwd l :
  Forall Posix.kept l →
  Posix.resolve cwd ["/" ++ Js.join "/" l] = "/" ++ Js.join "/" l.
Proof.
  intros Hl. unfold Posix.resolve.
  assert (Posix.resolveLoop (rev [cwd; "/" ++ Js.join "/" l]) ""
          = ("" ++ String Posix.slash (Js.join "/" l ++ String Posix.slash ""), true))
    as -> by reflexivity.
  cbn [negb]. unfold Posix.normalizeString.
  rewrite !split_app_sep, !fold_left_app.
  cbn [Js.split]. rewrite !normalize_skip_empty.
  destruct l as [|seg l']; [done|].
  rewrite split_join; [|done|].
  - rewrite normalize_kept by done. by rewrite app_nil_r, rev_involutive.
  - eapply Forall_impl; [exact Hl|]. by intros ? [_ ?].
Qed.

Lemma segments_normal l :
  Forall Posix.kept l → Posix.segments ("/" ++ Js.join "/" l) = l.
Proof.
  intros Hl. unfold Posix.segments. rewrite append_cons, append_nil.
  change (String "/" (Js.join "/" l)) with ("" ++ String Posix.slash (Js.join "/" l)).
  rewrite split_app_sep. cbn [Js.split app].
  rewrite filter_cons_False by done.
  destruct l as [|seg l']; [done|].
  rewrite split_join; [|done|].
  - induction Hl as [|x xs Hx _ IH]; [done|].
    rewrite filter_cons_True by (by apply kept_truthy). by rewrite IH.
  - eapply Forall_impl; [exact Hl|]. by intros ? [_ ?].
Qed.

Lemma dropCommon_prefix l more : Posix.dropCommon l (l ++ more) = ([], more).
Proof.
  induction l as [|seg l IH]; [by destruct more|]. cbn.
  by rewrite String.eqb_refl.
Qed.

(** A file below a directory is named, from that directory, by the plain
    path that led to it. *)
Lemma relative_plain cwd l s :
  Forall Posix.kept l → Posix.plain s = true →
  Posix.relative cwd ("/" ++ Js.join "/" l)
    ("/" ++ Js.join "/" (l ++ Js.split Posix.slash s))
  = s.
Proof.
  intros Hl Hs. pose proof (plain_kept _ Hs) as Hsegs.
  assert (Forall Posix.kept (l ++ Js.split Posix.slash s)) as Hall by by apply Forall_app.
  unfold Posix.relative. rewrite !resolve_normal by done.
  destruct (String.eqb_spec ("/" ++ Js.join "/" l)
              ("/" ++ Js.join "/" (l ++ Js.split Posix.slash s))) as [Heq|_].
  - apply (f_equal Posix.segments) in Heq. rewrite !segments_normal in Heq by done.
    apply (f_equal length) in Heq. rewrite length_app in Heq.
    pose proof (split_nonempty Posix.slash s) as Hne.
    destruct (Js.split Posix.slash s); [done | cbn in Heq; lia].
  - rewrite !segments_normal by done. rewrite dropCommon_prefix. cbn [map app].
    apply (join_split Posix.slash).
Qed.

(** The two paths the item builds: the source root, and a plain source
    below it. *)
Lemma resolve_below cwd directory sourceRoot source :
  Posix.isAbsolute directory = true → Posix.plain source = true →
  ∃ l, Forall Posix.kept l
       ∧ Posix.resolve cwd [directory; sourceRoot] = "/" ++ Js.join "/" l
       ∧ Posix.resolve cwd [directory; sourceRoot; source]
         = "/" ++ Js.join "/" (l ++ Js.split Posix.slash source).
Proof.
  intros Hd Hs. destruct (plain_relative _ Hs) as [Hne Hrel].
  pose proof (plain_kept _ Hs) as Hsegs.
  set (read := Posix.resolveLoop [sourceRoot; directory; cwd] "").
  assert (read.2 = true) as Habs.
  { apply (resolveLoop_absolute _ directory); [|done]. set_solver. }
  pose proof (resolveLoop_slash [sourceRoot; directory; cwd]) as Hslash. fold read in Hslash.
  set (stack := fold_left (Posix.normalizeStep false) (Js.split Posix.slash read.1) []).
  assert (Forall Posix.kept stack) as Hstack.
  { apply normalize_stack; [apply split_pieces | constructor]. }
  exists (rev stack). split; [by apply Forall_rev|]. split.
  - unfold Posix.resolve. change (rev [cwd; directory; sourceRoot])
      with [sourceRoot; directory; cwd].
    fold read. destruct read as [readPath readAbsolute]. cbn [fst snd] in *.
    subst readAbsolute. cbn [negb]. unfold Posix.normalizeString. by fold stack.
  - unfold Posix.resolve. change (rev [cwd; directory; sourceRoot; source])
      with (source :: [sourceRoot; directory; cwd]).
    rewrite resolveLoop_relative by done.
    rewrite resolveLoop_acc. fold read.
    destruct read as [readPath readAbsolute]. cbn [fst snd] in *.
    subst readAbsolute. cbn [negb]. unfold Posix.normalizeString.
    rewrite (normalize_after readPath) by done. fold stack.
    change (source ++ "/" ++ "") with (source ++ String Posix.slash "").
    rewrite split_app_sep, fold_left_app. cbn [Js.split].
    rewrite normalize_skip_empty, normalize_kept by done.
    by rewrite rev_app_distr, rev_involutive.
Qed.

Lemma dirname_absolute p :
  Posix.isAbsolute p = true → Posix.isAbsolute (Posix.dirname p) = true.
Proof.
  destruct p as [|c rest]; [done|]. cbn [Posix.isAbsolute]. intros Hc.
  unfold Posix.dirname. rewrite Hc.
  destruct (Posix.dirnameScan (rev (Js.chars rest)) true) as [k|]; [|done].
  cbn [andb]. destruct (k =? 0)%nat; [done | done].
Qed.

End Paths.

(** ** The two directions on POSIX paths *)

Section Directions.
Context {platform : Platform} (cwd : string).
Import SourceMapItem.

Implicit Types (item : SourceMapItem.t).

(** An empty argument of [resolve] is skipped. *)
Lemma resolve_skip_empty directory source :
  Posix.resolve cwd [directory; ""; source] = Posix.resolve cwd [directory; source].
Proof. unfold Posix.resolve. cbn [rev app]. cbn [Posix.resolveLoop]. reflexivity. Qed.

(** X18.  On POSIX paths, for a map file with an absolute path and a
    source that the map declares by a plain relative path: a position in the
    file that the constructor resolved that source to is looked up in the
    decoder under the declared name, whatever the source root, and the
    answer is a position in the item's generated file; where the decoder
    has no answer the query fails. *)
Theorem generatedPositionFor_declared_source
    rawSourceMap sourceMapFile item position source :
  new (path := posix cwd) rawSourceMap sourceMapFile = Ok item →
  Posix.isAbsolute sourceMapFile = true →
  source ∈ RawSourceMap.sources rawSourceMap →
  Posix.plain source = true →
  FilePosition.file position
  = Posix.resolve cwd
      [Posix.dirname sourceMapFile;
       Js.orOpt (RawSourceMap.sourceRoot rawSourceMap) ""; source] →
  FilePosition.file position ∈ sourceFiles item
  ∧ generatedPositionFor (path := posix cwd) item position
    = match consumer_generatedPositionFor (sourceMap item)
              (SmPosition.withSource (FilePosition.toSmPosition position) source) with
      | Some (line, column) =>
          Ok (FilePosition.fromSmPosition
                {| SmPosition.source := generatedFile item;
                   SmPosition.line := line;
                   SmPosition.column := column |})
      | None => Err "Failed to get generated position for original file"
      end.
Proof.
  intros Hnew Habs Hin Hplain Hfile.
  assert (SourceMapItem.rawSourceMap item = rawSourceMap
          ∧ SourceMapItem.sourceMapFile item = sourceMapFile
          ∧ sourceFiles item
            = map (fun source =>
                     Posix.resolve cwd
                       [Posix.dirname sourceMapFile;
                        Js.orOpt (RawSourceMap.sourceRoot rawSourceMap) ""; source])
                  (RawSourceMap.sources rawSourceMap)) as (Hraw & Hmf & Hsources).
  { unfold new in Hnew. destruct (SourceMapConsumer_new rawSourceMap); [|done].
    by injection Hnew as <-. }
  split.
  { rewrite Hsources, Hfile. apply list_elem_of_fmap. by exists source. }
  unfold generatedPositionFor. rewrite Hraw, Hmf, Hfile.
  destruct (resolve_below cwd (Posix.dirname sourceMapFile)
              (Js.orOpt (RawSourceMap.sourceRoot rawSourceMap) "") source
              (dirname_absolute _ Habs) Hplain) as (l & Hl & Hroot & Hbelow).
  cbn [resolve dirname relative posix].
  rewrite Hroot, Hbelow, (relative_plain cwd l source Hl Hplain).
  destruct (consumer_generatedPositionFor _ _) as [[line column]|]; reflexivity.
Qed.

(** X19.  On POSIX paths, where the map declares no source root (or an
    empty one) and the decoder answers with a source that the map declares,
    the file of the original position is one of the item's source files:
    once the item is in the store, the way back from that file is a hit
    that answers with the same item, when no other map is cached for that
    file. *)
Theorem originalPositionFor_way_back
    rawSourceMap sourceMapFile item position result decoded store :
  new (path := posix cwd) rawSourceMap sourceMapFile = Ok item →
  Js.orOpt (RawSourceMap.sourceRoot rawSourceMap) "" = "" →
  originalPositionFor (path := posix cwd) item position = Ok result →
  consumer_originalPositionFor (sourceMap item) (FilePosition.toSmPosition position)
  = Some decoded →
  SmPosition.source decoded ∈ RawSourceMap.sources rawSourceMap →
  FilePosition.file result ∈ sourceFiles item
  ∧ (generatedFile item ≠ "" →
     SourceMapStore.cache store !! FilePosition.file result = None →
     SourceMapStore.lookup (FilePosition.file result) (SourceMapStore.addItem item store)
     = Some item).
Proof.
  intros Hnew Hroot Horig Hdec Hin.
  assert (SourceMapItem.rawSourceMap item = rawSourceMap
          ∧ SourceMapItem.sourceMapFile item = sourceMapFile
          ∧ sourceFiles item
            = map (fun source =>
                     Posix.resolve cwd
                       [Posix.dirname sourceMapFile;
                        Js.orOpt (RawSourceMap.sourceRoot rawSourceMap) ""; source])
                  (RawSourceMap.sources rawSourceMap)) as (Hraw & Hmf & Hsources).
  { unfold new in Hnew. destruct (SourceMapConsumer_new rawSourceMap); [|done].
    by injection Hnew as <-. }
  assert (FilePosition.file result
          = Posix.resolve cwd [Posix.dirname sourceMapFile; SmPosition.source decoded])
    as Hfile.
  { unfold originalPositionFor in Horig. rewrite Hdec, Hmf in Horig.
    cbn [required mbind result_bind bind] in Horig.
    destruct (embeddedContents _ _); injection Horig as <-; reflexivity. }
  assert (FilePosition.file result ∈ sourceFiles item) as Hlisted.
  { rewrite Hsources, Hfile, Hroot. apply list_elem_of_fmap.
    exists (SmPosition.source decoded). split; [|done].
    symmetry. apply resolve_skip_empty. }
  split; [done|]. intros Hg Hc.
  by apply lookup_added_source.
Qed.

End Directions.

Lemma generatedPositionFor_declared_source_witness :
  ∃ item,
    @SourceMapItem.new (posix "/") Example.decoding Example.rooted "/proj/dist/app.js.map"
    = Ok item
    ∧ SourceMapItem.sourceFiles item = ["/proj/src/a.ts"]
    ∧ @SourceMapItem.generatedPositionFor (posix "/") Example.decoding item
        (Example.cursor "/proj/src/a.ts")
      = Ok {| FilePosition.file := "/proj/dist/app.js.map";
              FilePosition.line := 0;
              FilePosition.column := 0;
              FilePosition.contents := None |}.
Proof.
  eexists. split; [reflexivity|]. split; [reflexivity|].
  refine (proj2 (@generatedPositionFor_declared_source Example.decoding "/"
                   Example.rooted "/proj/dist/app.js.map" _
                   (Example.cursor "/proj/src/a.ts") "a.ts"
                   eq_refl eq_refl _ eq_refl eq_refl)).
  apply list_elem_of_singleton. reflexivity.
Defined.

Lemma originalPositionFor_way_back_witness :
  let item := Example.inlined "let a = 1;" in
  @SourceMapStore.lookup Example.decoding "/proj/dist/a.ts"
    (SourceMapStore.addItem item SourceMapStore.new)
  = Some item.
Proof.
  intros item.
  refine (proj2 (@originalPositionFor_way_back Example.decoding "/"
                   (SourceMapItem.rawSourceMap item) "/proj/dist/app.js.map" item
                   (Example.cursor "/proj/dist/app.js")
                   {| FilePosition.file := "/proj/dist/a.ts";
                      FilePosition.line := 0;
                      FilePosition.column := 0;
                      FilePosition.contents := Some "let a = 1;" |}
                   {| SmPosition.source := "a.ts";
                      SmPosition.line := 1;
                      SmPosition.column := 0 |}
                   SourceMapStore.new
                   eq_refl eq_refl eq_refl eq_refl _) _ eq_refl).
  - apply list_elem_of_singleton. reflexivity.
  - discriminate.
Defined.

(** A source declared as [./a.ts] is looked up as [a.ts], one declared as
    [../dist/a.ts] beside the map file as [a.ts] too. *)
Example relative_not_plain :
  Posix.relative "/" (Posix.resolve "/" ["/proj/dist"; ""])
    (Posix.resolve "/" ["/proj/dist"; ""; "./a.ts"]) = "a.ts"
  ∧ Posix.relative "/" (Posix.resolve "/" ["/proj/dist"; ""])
      (Posix.resolve "/" ["/proj/dist"; ""; "../dist/a.ts"]) = "a.ts".
Proof. split; reflexivity. Qed.

(** ** A navigation from end to end *)

Section Navigation.
Context {path : PathApi} {platform : Platform}.
Import Vscode SourceMapItem SourceMapStore History.

Implicit Types (store : SourceMapStore.t) (item : SourceMapItem.t).

(** X20.  A navigation for which the store has the item leaves the store
    as it is.  From the generated file it opens the file the decoder's
    source resolves to when that file is on the disk, shows the embedded
    text in an untitled buffer when it is not and the map carries a
    non-empty text for that source, and warns otherwise; from any other
    file it opens the generated file when it is on the disk and warns when
    it is not.  Where the decoder has no answer it warns of the failed
    query. *)
Theorem navigate_hit fs (editor : TextEditor.t) store item :
  let fileName := TextDocument.fileName (TextEditor.document editor) in
  let active := FilePosition.getActivePosition editor in
  let warning message :=
    Extension.Warning ("Can't get source map for current document: " ++ message) in
  lookup fileName store = Some item →
  (Extension.navigate fs editor store).2 = store
  ∧ (generatedFile item = fileName →
     match consumer_originalPositionFor (sourceMap item)
             (FilePosition.toSmPosition active) with
     | Some decoded =>
         let file := resolve [dirname (sourceMapFile item); SmPosition.source decoded] in
         let found := FilePosition.fromSmPosition (SmPosition.withSource decoded file) in
         (∀ text,
            Spec.carriesContents (rawSourceMap item) (SmPosition.source decoded) text →
            text ≠ "" →
            (Extension.navigate fs editor store).1
            = match fs !! file with
              | Some _ =>
                  Extension.Navigated
                    (Extension.ShownFile (FilePosition.withContents found text))
              | None =>
                  Extension.Navigated
                    (Extension.ShownUntitled (FilePosition.withContents found text) text)
              end)
         ∧ ((∀ text,
               Spec.carriesContents (rawSourceMap item) (SmPosition.source decoded) text →
               text = "") →
            (Extension.navigate fs editor store).1
            = match fs !! file with
              | Some _ => Extension.Navigated (Extension.ShownFile found)
              | None =>
                  warning "Original source doesn't exist and source map doesn't provide inline source"
              end)
     | None =>
         (Extension.navigate fs editor store).1
         = warning "Failed to get original position for generated file"
     end)
  ∧ (generatedFile item ≠ fileName →
     match SourceMapItem.generatedPositionFor item active with
     | Ok found =>
         FilePosition.file found = generatedFile item
         ∧ (Extension.navigate fs editor store).1
           = match fs !! generatedFile item with
             | Some _ => Extension.Navigated (Extension.ShownFile found)
             | None =>
                 warning "Original source doesn't exist and source map doesn't provide inline source"
             end
     | Err message =>
         message = "Failed to get generated position for original file"
         ∧ (Extension.navigate fs editor store).1 = warning message
     end).
Proof.
  intros fileName active warning Hhit.
  assert (getForCurrentDocument fs (TextEditor.document editor) store = (Ok item, store))
    as Hget by by apply lookup_hit.
  unfold Extension.navigate. rewrite Hget. cbn [mbind result_bind bind].
  unfold Extension.destinationPosition. fold fileName active.
  unfold isCurrentDocumentGenerated.
  split; [by destruct (_ ≫= _)|]. split.
  - intros Hg. rewrite Hg, String.eqb_refl. unfold originalPositionFor.
    destruct (consumer_originalPositionFor _ _) as [decoded|]; [|done].
    cbn [required mbind result_bind bind]. cbv zeta.
    destruct (embeddedContents (rawSourceMap item)
                (Js.indexOf (SmPosition.source decoded)
                   (RawSourceMap.sources (rawSourceMap item)))) as [embedded|] eqn:He.
    + apply embeddedContents_spec in He as [Hcarries Hne].
      unfold Extension.navigateToDestination. cbn [rethrow bind mbind result_bind].
      cbn [FilePosition.withContents FilePosition.file FilePosition.contents
           FilePosition.fromSmPosition SmPosition.withSource SmPosition.source].
      split.
      * intros text Hc _.
        assert (text = embedded) as ->.
        { destruct Hc as (sc & i & Hsc & Hi & Ht), Hcarries as (sc' & i' & Hsc' & Hi' & Ht').
          assert (sc' = sc) as -> by congruence.
          assert (i' = i) as -> by by eapply firstIndex_unique. congruence. }
        destruct (fs !! _); [done|]. by apply truthy_true in Hne as ->.
      * intros Hall. by destruct (Hne (Hall _ Hcarries)).
    + unfold Extension.navigateToDestination. cbn [rethrow bind mbind result_bind].
      cbn [FilePosition.file FilePosition.contents
           FilePosition.fromSmPosition SmPosition.withSource SmPosition.source].
      split.
      * intros text Hc Hne.
        assert (embeddedContents (rawSourceMap item)
                  (Js.indexOf (SmPosition.source decoded)
                     (RawSourceMap.sources (rawSourceMap item))) = Some text) as Hsome
          by by apply embeddedContents_spec.
        congruence.
      * intros _. by destruct (fs !! _).
  - intros Hg. apply String.eqb_neq in Hg. rewrite Hg.
    unfold generatedPositionFor.
    destruct (consumer_generatedPositionFor _ _) as [[line column]|]; [|done].
    unfold Extension.navigateToDestination.
    cbn [required mbind result_bind bind rethrow]. split; [done|].
    cbn [FilePosition.file FilePosition.contents FilePosition.fromSmPosition
         SmPosition.source]. by destruct (fs !! _).
Qed.

(** X21.  In every reachable state an item is cached under its own
    generated file, [cache] and [watchers] have the same keys, no two keys
    share a watcher object, and every watcher referred to is an object of
    the heap created for that key. *)
Theorem store_keys store :
  reachable store →
  (∀ key item, cache store !! key = Some item → generatedFile item = key)
  ∧ dom (cache store) = dom (watchers store)
  ∧ (∀ key key' watcher,
       watchers store !! key = Some watcher →
       watchers store !! key' = Some watcher → key = key')
  ∧ (∀ key watcher,
       watchers store !! key = Some watcher →
       ∃ w, heap store !! watcher = Some w
            ∧ FileSystemWatcher.globPattern w = key
            ∧ FileSystemWatcher.ignoreCreateEvents w = true).
Proof.
  intros Hr. pose proof (reachable_coherent _ Hr) as Hco.
  split; [apply (coherent_key _ Hco)|]. split; [|split].
  - apply set_eq. intros key. rewrite !elem_of_dom. apply (coherent_dom _ Hco).
  - intros key key' watcher. by apply watchers_injective.
  - assert (∀ s, reachable s →
              ∀ i w, heap s !! i = Some w →
                     FileSystemWatcher.ignoreCreateEvents w = true) as Hignore.
    { clear. induction 1 as [|o s _ IH]; intros i w Hh.
      - cbn in Hh. by rewrite lookup_nil in Hh.
      - destruct o as [item|generatedPath].
        + unfold apply, addItem in Hh; cbn in Hh.
          apply lookup_app_Some in Hh as [Hold|[_ Hnew]]; [by apply (IH i)|].
          by apply list_lookup_singleton_Some in Hnew as [_ <-].
        + destruct (lookup_lt_is_Some_2 (heap s) i) as [w0 Hw0].
          { apply lookup_lt_Some in Hh. cbn [apply] in Hh.
            rewrite heap_removeItem in Hh.
            destruct (watchers s !! generatedPath);
              [by rewrite length_alter in Hh | done]. }
          destruct (heap_removeItem_lookup generatedPath _ _ _ Hw0) as (w' & Hw' & Hcase).
          cbn [apply] in Hh. assert (w' = w) as -> by congruence.
          pose proof (IH _ _ Hw0). by destruct Hcase as [-> | ->]. }
    intros key watcher Hw.
    destruct (coherent_watcher _ Hco key (mk_is_Some _ _ Hw))
      as (i & w & Hi & Hh & _ & Hg & _).
    assert (i = watcher) as -> by congruence.
    exists w. split; [done|]. split; [done|]. by apply (Hignore store Hr watcher).
Qed.

End Navigation.

Lemma navigate_hit_witness :
  let store :=
    SourceMapStore.addItem (Example.inlined "let a = 1;") SourceMapStore.new in
  let editor := Example.editorOn "/proj/dist/app.js" in
  @SourceMapStore.lookup Example.decoding "/proj/dist/app.js" store
  = Some (Example.inlined "let a = 1;")
  ∧ (@Extension.navigate Example.path Example.decoding ∅ editor store).2 = store.
Proof.
  intros store editor.
  assert (@SourceMapStore.lookup Example.decoding "/proj/dist/app.js" store
          = Some (Example.inlined "let a = 1;")) as Hhit by reflexivity.
  split; [exact Hhit|].
  exact (proj1 (@navigate_hit Example.path Example.decoding ∅ editor store _ Hhit)).
Defined.

Lemma store_keys_witness :
  let store := SourceMapStore.addItem Example.app SourceMapStore.new in
  History.reachable store
  ∧ dom (SourceMapStore.cache store) = dom (SourceMapStore.watchers store).
Proof.
  intros store.
  assert (History.reachable store) as Hr
    by (apply (History.reachable_step (History.AddItem Example.app)); constructor).
  split; [exact Hr|]. exact (proj1 (proj2 (store_keys store Hr))).
Defined.

(** ** Maps that declare no generated file *)

Section Undeclared.
Context {path : PathApi} {platform : Platform}.
Import Vscode SourceMapItem SourceMapStore.

Implicit Types (store : SourceMapStore.t) (item : SourceMapItem.t).

(** X22.  A fetched map that declares no [file] (or an empty one).  Read
    from a data URI, it has the document as its generated file: the
    navigation asks for the original position, and the next lookup for the
    document is a hit.  Read from a map file, it has the map file as its
    generated file: from the document, unless the directive names the
    document itself, the navigation asks for the generated position, and
    the item is cached under the map file's path. *)
Theorem map_without_file fs (editor : TextEditor.t) store item :
  let document := TextEditor.document editor in
  let fileName := TextDocument.fileName document in
  let active := FilePosition.getActivePosition editor in
  SourceMapStore.fetch fs document = Ok item →
  default "" (RawSourceMap.file (rawSourceMap item)) = "" →
  ∃ fetched,
    SourceMapFetcher.fetch document = Ok fetched
    ∧ if isDataUri (SourceMapFetchResult.mapUrl fetched)
      then generatedFile item = fileName
           ∧ Extension.destinationPosition item editor
             = originalPositionFor item active
           ∧ (lookup fileName store = None →
              lookup fileName (getForCurrentDocument fs document store).2 = Some item)
      else generatedFile item = SourceMapFetchResult.mapUrl fetched
           ∧ (SourceMapFetchResult.mapUrl fetched ≠ fileName →
              Extension.destinationPosition item editor
              = generatedPositionFor item active)
           ∧ (lookup fileName store = None →
              cache (getForCurrentDocument fs document store).2
                !! SourceMapFetchResult.mapUrl fetched
              = Some item).
Proof.
  intros document fileName active Hfetch Hnone.
  destruct (fetch_built _ _ _ Hfetch) as (fetched & Hf & Hnew & Hmf).
  pose proof (new_without_file _ Hnew Hnone) as Hgen.
  exists fetched. split; [done|].
  assert (lookup fileName store = None →
          (getForCurrentDocument fs document store).2 = addItem item store) as Hstore.
  { intros Hmiss. rewrite lookup_miss by done. by rewrite Hfetch. }
  unfold Extension.destinationPosition, isCurrentDocumentGenerated.
  fold document fileName active.
  destruct (isDataUri (SourceMapFetchResult.mapUrl fetched)).
  - rewrite Hgen, Hmf. split; [done|]. rewrite String.eqb_refl. split; [done|].
    intros Hmiss. rewrite (Hstore Hmiss). unfold lookup.
    rewrite cache_addItem, decide_True; [done|]. by rewrite Hgen, Hmf.
  - rewrite Hgen, Hmf. split; [done|]. split.
    + intros Hne. by apply String.eqb_neq in Hne as ->.
    + intros Hmiss. rewrite (Hstore Hmiss).
      rewrite cache_addItem, decide_True; [done|]. by rewrite Hgen, Hmf.
Qed.

End Undeclared.

(** [/proj/dist/app.js] names the map file [app.js.map], which declares no
    [file]: the item is cached under [/proj/dist/app.js.map], the document
    is not found again, and the navigation asks for a generated
    position. *)
Lemma map_without_file_witness :
  let platform :=
    testPlatform (fun _ => None) (fun _ => None)
      [("app.js.map, without file", Example.payload ["../src/a.ts"] None)] in
  let disk : gmap string string :=
    {[ "/proj/dist/app.js.map" := "app.js.map, without file" ]} in
  let editor :=
    {| Vscode.TextEditor.document :=
         Example.bundle (replicate 9 "var x;" ++ ["//# sourceMappingURL=app.js.map"]);
       Vscode.TextEditor.active :=
         {| Vscode.Position.line := 0; Vscode.Position.character := 0 |} |} in
  let item : @SourceMapItem.t platform :=
    {| SourceMapItem.rawSourceMap := Example.payload ["../src/a.ts"] None;
       SourceMapItem.sourceMapFile := "/proj/dist/app.js.map";
       SourceMapItem.sourceMap := (tt : @SourceMapConsumer platform);
       SourceMapItem.sourceFiles := ["/proj/src/a.ts"];
       SourceMapItem.generatedFile := "/proj/dist/app.js.map" |} in
  @SourceMapStore.fetch Example.path platform disk (Vscode.TextEditor.document editor)
  = Ok item
  ∧ SourceMapStore.lookup "/proj/dist/app.js"
      (@SourceMapStore.getForCurrentDocument Example.path platform disk
         (Vscode.TextEditor.document editor) SourceMapStore.new).2
    = None
  ∧ ∃ fetched,
      @SourceMapFetcher.fetch Example.path platform (Vscode.TextEditor.document editor)
      = Ok fetched.
Proof.
  intros platform disk editor item.
  assert (@SourceMapStore.fetch Example.path platform disk
            (Vscode.TextEditor.document editor) = Ok item) as Hfetch by reflexivity.
  split; [exact Hfetch|]. split; [reflexivity|].
  destruct (@map_without_file Example.path platform disk editor SourceMapStore.new
              item Hfetch eq_refl) as (fetched & Hf & _).
  exists fetched. exact Hf.
Defined.

(** ** The properties on examples *)

Lemma addItem_lookup_witness :
  let store := SourceMapStore.addItem Example.app SourceMapStore.new in
  @SourceMapStore.lookup Example.platform "/proj/dist/app.js" store = Some Example.app
  ∧ @SourceMapStore.lookup Example.platform "/proj/src/a.ts" store = Some Example.app.
Proof.
  intros store.
  destruct (@addItem_lookup Example.path Example.platform Example.app SourceMapStore.new)
    as (Hg & Hs & _).
  split; [exact Hg|]. apply Hs.
  - apply list_elem_of_singleton. reflexivity.
  - discriminate.
  - reflexivity.
Defined.

Lemma addItem_removeItem_witness :
  let store' :=
    SourceMapStore.removeItem "/proj/dist/app.js"
      (SourceMapStore.addItem Example.app SourceMapStore.new) in
  SourceMapStore.cache store' = ∅
  ∧ SourceMapStore.watchers store' = ∅
  ∧ SourceMapStore.reverseLookupTable store' = ∅.
Proof.
  intros store'.
  destruct (@addItem_removeItem Example.platform Example.app SourceMapStore.new)
    as (_ & _ & _ & _ & Hnew).
  apply Hnew; [reflexivity | reflexivity |]. intros sourceFile _. reflexivity.
Defined.

Lemma tryExtractUrl_directive_witness :
  Spec.directiveOf (Js.trim "  //# sourceMappingURL= app.js.map ") " app.js.map"
  ∧ SourceMapFetcher.tryExtractUrl "  //# sourceMappingURL= app.js.map " = "app.js.map".
Proof.
  assert (Spec.directiveOf (Js.trim "  //# sourceMappingURL= app.js.map ") " app.js.map")
    as Hd.
  { exists "#", " ". split; [by left|]. split; [by right|]. split; [reflexivity|].
    split; [discriminate | reflexivity]. }
  split; [exact Hd|].
  exact (proj1 (proj1 (tryExtractUrl_directive _) _ Hd)).
Defined.

Lemma fromDataUrl_payload_witness :
  let platform :=
    testPlatform (fun _ => None) (fun _ => None)
      [("eyJ2ZXJzaW9uIjozfQ==", Example.payload ["a.ts"] None)] in
  @SourceMapItem.fromDataUrl Example.path platform
    "data:application/json;base64,eyJ2ZXJzaW9uIjozfQ==" "/proj/dist/app.js"
  = rethrow "Can't read source map from data URI"
      (@SourceMapItem.fromString Example.path platform
         "eyJ2ZXJzaW9uIjozfQ==" "/proj/dist/app.js").
Proof.
  intros platform.
  apply (proj1 (@fromDataUrl_payload Example.path platform "/proj/dist/app.js")
           "data:application/json;base64,eyJ2ZXJzaW9uIjozfQ=="
           "data:application/json;base64" "eyJ2ZXJzaW9uIjozfQ==" "");
    [reflexivity | reflexivity | reflexivity | by left].
Defined.

Lemma fetch_failure_reported_witness :
  let editor := Example.editorOn "/proj/dist/app.js" in
  @Extension.navigate Example.path Example.platform ∅ editor SourceMapStore.new
  = (Extension.Warning
       "Can't get source map for current document: Can't retrieve source maps for current document",
     SourceMapStore.new).
Proof.
  intros editor.
  destruct (@fetch_failure_reported Example.path Example.platform ∅ editor
              SourceMapStore.new) as (_ & _ & _ & Hnav).
  exact (proj2 (Hnav eq_refl eq_refl)).
Defined.
